(** * Telegram content bot: conversation store, rate limiter, delivery
      sender, provider router and parser, embedded and verified.

    The TypeScript sources are embedded shallowly.  Conventions:

    - identifiers, map keys and error messages are [string];
    - text that the code inspects code unit by code unit (user topics,
      model output) is [ustring], a list of UTF-16 code units, so that
      [length] is JavaScript's [String.prototype.length];
    - a JavaScript number that holds a timestamp, a count or an id is a [Z];
    - [Date.now()] / [new Date()] is an explicit clock reading [now] passed
      to the operation that reads it; inside an asynchronous function it is
      the clock of the world the function runs in;
    - a [Map] is a [gmap]; an optional property is an [option];
    - an asynchronous function is a computation in the monad [M], which
      threads the world (clock, store, trace of effects), reads the
      external collaborators from an environment, and throws or returns;
    - logging is dropped, except in the parser, whose log is part of what
      is proved about it. *)

From Stdlib Require Import ZArith Lia Bool List.
From stdpp Require Import base option list strings pretty gmap fin_maps.

Local Open Scope Z_scope.
Set Warnings "-register-all".

(** The double-quote character, for messages that contain one. *)
Definition dquote : string := String (Ascii.ascii_of_nat 34) EmptyString.

(** UTF-16 text. *)
Definition ustring := list N.

(** JavaScript truthiness of an optional boolean property. *)
Definition truthy (b : option bool) : bool :=
  match b with Some true => true | _ => false end.

(** * Data model (src/types/index.ts) *)

Inductive Step := idle | waiting_topic | waiting_title_selection | outline_generated.
Inductive Task := titles | outline | article.

Record ArticleTitle := mkArticleTitle { title : ustring; titleNumber : ustring }.

Record OutlineInference := mkOutlineInference {
  targetKeyword : ustring;
  targetAudience : ustring;
  contentPurpose : ustring;
  estimatedWordCount : ustring
}.

Record OutlineSection := mkOutlineSection {
  heading : ustring;
  subheadings : option (list ustring);
  notes : option ustring
}.

Record ArticleOutline := mkArticleOutline {
  inference : OutlineInference;
  sections : list OutlineSection
}.

Record ConversationState := mkConversationState {
  userId : string;
  chatId : Z;
  step : Step;
  topic : option ustring;
  generatedTitles : option (list ArticleTitle);
  selectedTitle : option ustring;
  generatedOutline : option ArticleOutline;
  lastActivity : Z;
  isProcessing : option bool;
  processingTask : option Task;
  lockAcquiredAt : option Z
}.

(** [Partial<ConversationState>]: [None] is an absent property; a present
    property of an optional field may itself hold [undefined]. *)
Record Updates := mkUpdates {
  u_userId : option string;
  u_chatId : option Z;
  u_step : option Step;
  u_topic : option (option ustring);
  u_generatedTitles : option (option (list ArticleTitle));
  u_selectedTitle : option (option ustring);
  u_generatedOutline : option (option ArticleOutline);
  u_lastActivity : option Z;
  u_isProcessing : option (option bool);
  u_processingTask : option (option Task);
  u_lockAcquiredAt : option (option Z)
}.

Definition no_updates : Updates :=
  mkUpdates None None None None None None None None None None None.

(** * Conversation store (conversationManager.ts) *)
Module ConversationManager.

Record LockInfo := mkLockInfo { timestamp : Z }.

Record State := mkState {
  conversations : gmap string ConversationState;
  locks : gmap string LockInfo
}.

Definition init : State := mkState ∅ ∅.

Definition lockTimeoutMs : Z := 600000.
Definition lockPromiseTimeoutMs : Z := 300000.
Definition inactivityTimeoutMs : Z := 3600000.

Definition getKey (userId : string) (chatId : Z) : string :=
  userId +:+ ":" +:+ pretty chatId.

Definition fresh (userId : string) (chatId : Z) (now : Z) : ConversationState :=
  {| userId := userId; chatId := chatId; step := idle;
     topic := None; generatedTitles := None; selectedTitle := None;
     generatedOutline := None; lastActivity := now;
     isProcessing := None; processingTask := None; lockAcquiredAt := None |}.

Definition touch (now : Z) (c : ConversationState) : ConversationState :=
  {| userId := userId c; chatId := chatId c; step := step c;
     topic := topic c; generatedTitles := generatedTitles c;
     selectedTitle := selectedTitle c; generatedOutline := generatedOutline c;
     lastActivity := now;
     isProcessing := isProcessing c; processingTask := processingTask c;
     lockAcquiredAt := lockAcquiredAt c |}.

(** [getConversation]: the entry is created when absent, its
    [lastActivity] is refreshed in place, and it is returned. *)
Definition getConversation (userId : string) (chatId : Z) (now : Z) (s : State)
  : ConversationState * State :=
  let key := getKey userId chatId in
  let conversation :=
    match conversations s !! key with
    | Some c => c
    | None => fresh userId chatId now
    end in
  let conversation := touch now conversation in
  (conversation, mkState (<[key := conversation]> (conversations s)) (locks s)).

(** [Object.assign(conversation, updates, { lastActivity: new Date() })]. *)
Definition assign (c : ConversationState) (u : Updates) (now : Z) : ConversationState :=
  {| userId := default (userId c) (u_userId u);
     chatId := default (chatId c) (u_chatId u);
     step := default (step c) (u_step u);
     topic := default (topic c) (u_topic u);
     generatedTitles := default (generatedTitles c) (u_generatedTitles u);
     selectedTitle := default (selectedTitle c) (u_selectedTitle u);
     generatedOutline := default (generatedOutline c) (u_generatedOutline u);
     lastActivity := now;
     isProcessing := default (isProcessing c) (u_isProcessing u);
     processingTask := default (processingTask c) (u_processingTask u);
     lockAcquiredAt := default (lockAcquiredAt c) (u_lockAcquiredAt u) |}.

Definition updateConversation (userId : string) (chatId : Z) (updates : Updates)
    (now : Z) (s : State) : State :=
  let key := getKey userId chatId in
  let '(conversation, s1) := getConversation userId chatId now s in
  let conversation := assign conversation updates now in
  mkState (<[key := conversation]> (conversations s1)) (locks s1).

Definition acquire (task : Task) (now : Z) (c : ConversationState) : ConversationState :=
  {| userId := userId c; chatId := chatId c; step := step c;
     topic := topic c; generatedTitles := generatedTitles c;
     selectedTitle := selectedTitle c; generatedOutline := generatedOutline c;
     lastActivity := now;
     isProcessing := Some true; processingTask := Some task;
     lockAcquiredAt := Some now |}.

(** [tryAcquireLock].  A pending entry of [locks] is awaited and then
    deleted; the wait is collapsed here.  No code path ever inserts into
    [locks] (lemma [locks_stay_empty] below), so on every state the
    program reaches the branch is dead and the body runs without
    suspension. *)
Definition tryAcquireLock (userId : string) (chatId : Z) (task : Task)
    (now : Z) (s : State) : bool * State :=
  let key := getKey userId chatId in
  let s :=
    match locks s !! key with
    | Some _ => mkState (conversations s) (delete key (locks s))
    | None => s
    end in
  let '(conversation, s) := getConversation userId chatId now s in
  if truthy (isProcessing conversation) then (false, s)
  else
    (true, mkState (<[key := acquire task now conversation]> (conversations s)) (locks s)).

Definition release (now : Z) (c : ConversationState) : ConversationState :=
  {| userId := userId c; chatId := chatId c; step := step c;
     topic := topic c; generatedTitles := generatedTitles c;
     selectedTitle := selectedTitle c; generatedOutline := generatedOutline c;
     lastActivity := now;
     isProcessing := Some false; processingTask := None;
     lockAcquiredAt := None |}.

Definition releaseLock (userId : string) (chatId : Z) (now : Z) (s : State) : State :=
  let key := getKey userId chatId in
  let convs :=
    match conversations s !! key with
    | Some c => <[key := release now c]> (conversations s)
    | None => conversations s
    end in
  mkState convs (delete key (locks s)).

Definition resetConversation (userId : string) (chatId : Z) (s : State) : State :=
  let key := getKey userId chatId in
  mkState (delete key (conversations s)) (delete key (locks s)).

(** The three sweeps of the 5-minute timer.  A sweep is one synchronous
    pass; its clock readings are taken as the single instant [now]. *)
Definition inactive (now : Z) (c : ConversationState) : bool :=
  bool_decide (now - lastActivity c > inactivityTimeoutMs).

Definition cleanup (now : Z) (s : State) : State :=
  let gone (k : string) : bool :=
    match conversations s !! k with
    | Some c => inactive now c
    | None => false
    end in
  mkState (filter (λ kc, inactive now kc.2 = false) (conversations s))
          (filter (λ kl, gone kl.1 = false) (locks s)).

Definition stale (now : Z) (c : ConversationState) : bool :=
  truthy (isProcessing c) &&
  match lockAcquiredAt c with
  | Some t => bool_decide (now - t > lockTimeoutMs)
  | None => false
  end.

Definition cleanupStaleLocks (now : Z) (s : State) : State :=
  let reclaimed (k : string) : bool :=
    match conversations s !! k with
    | Some c => stale now c
    | None => false
    end in
  mkState ((λ c, if stale now c then release now c else c) <$> conversations s)
          (filter (λ kl, reclaimed kl.1 = false) (locks s)).

Definition cleanupOldLockPromises (now : Z) (s : State) : State :=
  mkState (conversations s)
          (filter (λ kl, bool_decide (now - timestamp kl.2 > lockPromiseTimeoutMs) = false)
                  (locks s)).

(** One call on the store, with the clock reading it is made at. *)
Inductive Op :=
| OpGet (userId : string) (chatId : Z)
| OpUpdate (userId : string) (chatId : Z) (updates : Updates)
| OpTryAcquire (userId : string) (chatId : Z) (task : Task)
| OpRelease (userId : string) (chatId : Z)
| OpReset (userId : string) (chatId : Z)
| OpCleanup
| OpCleanupStaleLocks
| OpCleanupOldLockPromises.

(** The result is [Some b] for a [tryAcquireLock] that returned [b]. *)
Definition exec (now : Z) (o : Op) (s : State) : option bool * State :=
  match o with
  | OpGet u c => (None, (getConversation u c now s).2)
  | OpUpdate u c upd => (None, updateConversation u c upd now s)
  | OpTryAcquire u c t =>
      let '(b, s') := tryAcquireLock u c t now s in (Some b, s')
  | OpRelease u c => (None, releaseLock u c now s)
  | OpReset u c => (None, resetConversation u c s)
  | OpCleanup => (None, cleanup now s)
  | OpCleanupStaleLocks => (None, cleanupStaleLocks now s)
  | OpCleanupOldLockPromises => (None, cleanupOldLockPromises now s)
  end.

Fixpoint run (ops : list (Z * Op)) (s : State) : list (option bool) * State :=
  match ops with
  | [] => ([], s)
  | (now, o) :: rest =>
      let '(r, s1) := exec now o s in
      let '(rs, s2) := run rest s1 in
      (r :: rs, s2)
  end.

(** Vocabulary for the lock discipline: [keeps key o] holds of the calls
    that do not end a hold of the lock of [key] by themselves, that is, of
    every call but [releaseLock] and [resetConversation] on that key and an
    [updateConversation] on that key that overwrites a lock field. *)
Definition touchesLock (u : Updates) : bool :=
  bool_decide (is_Some (u_isProcessing u)) ||
  bool_decide (is_Some (u_processingTask u)) ||
  bool_decide (is_Some (u_lockAcquiredAt u)).

Definition keeps (key : string) (o : Op) : bool :=
  match o with
  | OpRelease u c => negb (bool_decide (getKey u c = key))
  | OpReset u c => negb (bool_decide (getKey u c = key))
  | OpUpdate u c upd => negb (bool_decide (getKey u c = key)) || negb (touchesLock upd)
  | _ => true
  end.

(** The lock of [key] is held for [task] since [since]. *)
Definition heldBy (key : string) (task : Task) (since : Z) (s : State) : Prop :=
  ∃ conv, conversations s !! key = Some conv ∧
          isProcessing conv = Some true ∧
          processingTask conv = Some task ∧
          lockAcquiredAt conv = Some since.

End ConversationManager.

(** * Rate limiter (utils/rateLimiter.ts) *)
Module RateLimiter.

Record RateLimitInfo := mkRateLimitInfo {
  rl_userId : string;
  requestCount : Z;
  windowStart : Z
}.

Record Config := mkConfig { enabled : bool; maxRequestsPerMinute : Z }.

Record CheckResult := mkCheckResult { allowed : bool; retryAfter : option Z }.

Definition windowDuration : Z := 60000.

(** [Math.ceil(ms / 1000)] on an integer number of milliseconds; the
    quotient of integers of this size is exact enough in a double for the
    ceiling to be the mathematical one. *)
Definition ceil_seconds (ms : Z) : Z := (ms + 999) / 1000.

(** "Reset window if expired". *)
Definition rollWindow (now : Z) (l : RateLimitInfo) : RateLimitInfo :=
  if bool_decide (now - windowStart l >= windowDuration)
  then mkRateLimitInfo (rl_userId l) 0 now
  else l.

Definition checkLimit (config : Config) (userId : string) (now : Z)
    (limits : gmap string RateLimitInfo) : CheckResult * gmap string RateLimitInfo :=
  if negb (enabled config) then (mkCheckResult true None, limits)
  else
    let userLimit :=
      match limits !! userId with
      | Some l => l
      | None => mkRateLimitInfo userId 0 now
      end in
    let userLimit := rollWindow now userLimit in
    if bool_decide (requestCount userLimit >= maxRequestsPerMinute config) then
      let retryAfter := ceil_seconds (windowDuration - (now - windowStart userLimit)) in
      (mkCheckResult false (Some retryAfter), <[userId := userLimit]> limits)
    else
      (mkCheckResult true None,
       <[userId := mkRateLimitInfo (rl_userId userLimit) (requestCount userLimit + 1)
                                   (windowStart userLimit)]> limits).

Definition resetLimit (userId : string) (limits : gmap string RateLimitInfo)
  : gmap string RateLimitInfo := delete userId limits.

Definition cleanup (now : Z) (limits : gmap string RateLimitInfo)
  : gmap string RateLimitInfo :=
  filter (λ kl, bool_decide (now - windowStart kl.2 >= windowDuration * 2) = false) limits.

(** Successive calls of one user, at the given clock readings. *)
Fixpoint calls (config : Config) (userId : string) (times : list Z)
    (limits : gmap string RateLimitInfo)
  : list CheckResult * gmap string RateLimitInfo :=
  match times with
  | [] => ([], limits)
  | now :: rest =>
      let '(r, limits1) := checkLimit config userId now limits in
      let '(rs, limits2) := calls config userId rest limits1 in
      (r :: rs, limits2)
  end.

End RateLimiter.

(** * JavaScript values, as far as the delivery sender inspects them *)

(** Numbers are the integers; [NaN] and fractions do not occur in the
    payloads the sender is given (ids and counters). *)
Inductive JSVal :=
| JUndefined
| JNull
| JBool (b : bool)
| JNum (z : Z)
| JStr (s : string)
| JArr (items : list JSVal)
| JObj (fields : list (string * JSVal)).

Definition truthyV (v : JSVal) : bool :=
  match v with
  | JUndefined | JNull => false
  | JBool b => b
  | JNum z => negb (z =? 0)
  | JStr s => negb (String.eqb s EmptyString)
  | JArr _ | JObj _ => true
  end.

Definition typeof (v : JSVal) : string :=
  match v with
  | JUndefined => "undefined"
  | JNull => "object"
  | JBool _ => "boolean"
  | JNum _ => "number"
  | JStr _ => "string"
  | JArr _ | JObj _ => "object"
  end.

Fixpoint assoc (name : string) (fields : list (string * JSVal)) : JSVal :=
  match fields with
  | [] => JUndefined
  | (k, v) :: rest => if String.eqb k name then v else assoc name rest
  end.

(** [v.name] on a value that is neither [null] nor [undefined]: an own
    property of an object, [undefined] otherwise (none of the names read
    below is a property of a primitive or of an array). *)
Definition prop (v : JSVal) (name : string) : JSVal :=
  match v with
  | JObj fields => assoc name fields
  | _ => JUndefined
  end.

Definition strict_eq_str (v : JSVal) (s : string) : bool :=
  match v with JStr t => String.eqb t s | _ => false end.

(** * Effects: clock, trace, external collaborators *)

Inductive Provider := claude | openrouter.

(** A thrown JavaScript error: its message, and the [code] and
    [response.status] an HTTP client error may carry. *)
Record Exn := mkExn {
  message : string;
  code : option string;
  responseStatus : option Z
}.

Definition Error (msg : string) : Exn := mkExn msg None None.

(** What the network does with one POST. *)
Inductive HttpOutcome :=
| HttpResponse (status : Z)
| HttpTransportError (code : option string) (msg : string).

(** A prompt is kept symbolic: which template, filled with what. *)
Inductive Prompt :=
| TitlePrompt (topic : ustring)
| OutlinePrompt (title : ustring)
| ArticlePrompt (title : ustring) (outline : ArticleOutline).

(** The texts sent to the user are kept symbolic as well: one constructor
    per template literal of the source, with the values interpolated. *)
Inductive Message :=
| MsgInternalError (taskName : string) (detail : string)
| MsgDeliveryFailed (taskName : string) (url : string) (maxRetries : Z) (err : string)
| MsgTopicInvalid (err : string)
| MsgBusy (task : option Task)
| MsgTopicAccepted (topic : ustring)
| MsgTitles (titles : list ArticleTitle) (provider : Provider) (tokensUsed : Z)
| MsgTimeout (minutes : Z).

Inductive Event :=
| EvPost (url : string) (body : JSVal)
| EvDelay (ms : Z)
| EvSendMessage (chatId : Z) (msg : Message)
| EvTyping (chatId : Z)
| EvProviderCall (p : Provider) (prompt : Prompt) (maxTokens : Z) (timeout : Z).

Record Article := mkArticle {
  content : ustring;
  contentHtml : option ustring;
  metaDescription : ustring;
  wordCount : Z;
  suggestedTags : list ustring
}.

(** What a provider client hands back as parsed [data]. *)
Inductive StageData :=
| TitlesData (ts : list ArticleTitle)
| OutlineData (o : ArticleOutline)
| ArticleData (a : Article).

Record AiResult := mkAiResult {
  data : StageData;
  tokensUsed : Z;
  inputTokens : Z;
  outputTokens : Z
}.

(** One provider invocation seen from the router: it throws or returns,
    after [elapsed] milliseconds. *)
Record AiReply := mkAiReply { reply : Exn + AiResult; elapsed : Z }.

(** [configManager.getConfig()], the part the router reads. *)
Record AIConfig := mkAIConfig {
  defaultProvider : Provider;
  backupAI : bool;
  titleMaxTokens : Z;
  outlineMaxTokens : Z;
  articleMaxTokens : Z;
  aiRequestTimeout : Z;
  aiTitleTimeout : option Z;
  aiOutlineTimeout : option Z;
  aiArticleTimeout : option Z
}.

(** The external collaborators: the model backends (the [n]-th invocation
    overall, of the given provider), the delivery endpoint (the [n]-th
    POST), the runtime's NFC normalisation, and the configuration. *)
Record Env := mkEnv {
  ai : nat → Provider → AiReply;
  http : nat → HttpOutcome;
  nfc : ustring → ustring;
  config : AIConfig
}.

Record World := mkWorld {
  wnow : Z;
  aiCalls : nat;
  posts : nat;
  store : ConversationManager.State;
  trace : list Event
}.

(** An asynchronous function: it reads the collaborators, threads the
    world, and either throws or returns. *)
Definition M (A : Type) : Type := Env → World → (Exn + A) * World.

#[global] Instance M_ret : MRet M := λ A (a : A) _ w, (inr a, w).

#[global] Instance M_bind : MBind M := λ A B (k : A → M B) (m : M A) env w,
  match m env w with
  | (inl e, w1) => (inl e, w1)
  | (inr a, w1) => k a env w1
  end.

Definition throw {A} (e : Exn) : M A := λ _ w, (inl e, w).

(** [try { m }], with the outcome reified: never throws. *)
Definition try_ {A} (m : M A) : M (Exn + A) := λ env w,
  let '(r, w1) := m env w in (inr r, w1).

(** [try { m } finally { f }], for a [finally] block that does not throw. *)
Definition finally {A} (m : M A) (f : World → World) : M A := λ env w,
  let '(r, w1) := m env w in (r, f w1).

Definition ask : M Env := λ env w, (inr env, w).

Definition emit (e : Event) : M unit := λ _ w,
  (inr tt, mkWorld (wnow w) (aiCalls w) (posts w) (store w) (trace w ++ [e])).

Definition dateNow : M Z := λ _ w, (inr (wnow w), w).

(** [await new Promise(resolve => setTimeout(resolve, ms))]. *)
Definition delay (ms : Z) : M unit := λ _ w,
  (inr tt, mkWorld (wnow w + ms) (aiCalls w) (posts w) (store w) (trace w ++ [EvDelay ms])).

Definition onStore {A} (f : Z → ConversationManager.State → A * ConversationManager.State)
  : M A := λ _ w,
  let '(a, s) := f (wnow w) (store w) in
  (inr a, mkWorld (wnow w) (aiCalls w) (posts w) s (trace w)).

(** [telegramService.sendMessage]: it catches its own failures and resolves
    to a boolean that no caller reads. *)
Definition sendMessage (chatId : Z) (msg : Message) : M unit :=
  emit (EvSendMessage chatId msg).

Definition sendTypingAction (chatId : Z) : M unit := emit (EvTyping chatId).

(** [provider === 'claude' ? claudeService.generateJSONCompletion(...)
                           : openRouterService.generateJSONCompletion(...)]. *)
Definition generateJSONCompletion (p : Provider) (prompt : Prompt)
    (maxTokens timeout : Z) : M AiResult := λ env w,
  let r := ai env (aiCalls w) p in
  (reply r,
   mkWorld (wnow w + elapsed r) (S (aiCalls w)) (posts w) (store w)
           (trace w ++ [EvProviderCall p prompt maxTokens timeout])).

(** [axios.post(url, body, ...)] with the library's default
    [validateStatus]: it resolves on a 2xx status and rejects otherwise,
    the rejection carrying [response.status]. *)
Definition axios_post (url : string) (body : JSVal) : M Z := λ env w,
  let w1 := mkWorld (wnow w) (aiCalls w) (S (posts w)) (store w)
                    (trace w ++ [EvPost url body]) in
  match http env (posts w) with
  | HttpResponse status =>
      if (200 <=? status) && (status <? 300) then (inr status, w1)
      else
        (inl (mkExn ("Request failed with status code " +:+ pretty status)
                    (if (400 <=? status) && (status <? 500) then Some "ERR_BAD_REQUEST"
                     else if (500 <=? status) && (status <? 600) then Some "ERR_BAD_RESPONSE"
                     else None)
                    (Some status)), w1)
  | HttpTransportError c msg => (inl (mkExn msg c None), w1)
  end.

(** * retry.ts *)
Module Retry.

Record RetryOptions := mkRetryOptions {
  maxRetries : option Z;
  baseDelay : option Z;
  maxDelay : option Z;
  taskName : option string
}.

Definition retryDelay (baseDelay maxDelay attempt : Z) : Z :=
  if baseDelay =? maxDelay then baseDelay
  else Z.min (baseDelay * 2 ^ attempt) maxDelay.

(** The loop [for (attempt = 0; attempt <= maxRetries; attempt++)]:
    [fuel] is the number of iterations left. *)
Fixpoint loop {T} (fuel : nat) (attempt maxRetries baseDelay maxDelay : Z)
    (taskName : string) (fn : M T) (lastError : option Exn) : M T :=
  match fuel with
  | O =>
      throw (default
               (Error (taskName +:+ " failed after " +:+ pretty (maxRetries + 1) +:+ " attempts"))
               lastError)
  | S fuel' =>
      r ← try_ fn;
      match r with
      | inr v => mret v
      | inl error =>
          (if attempt <? maxRetries
           then delay (retryDelay baseDelay maxDelay attempt)
           else mret tt);;
          loop fuel' (attempt + 1) maxRetries baseDelay maxDelay taskName fn (Some error)
      end
  end.

Definition withRetry {T} (fn : M T) (options : RetryOptions) : M T :=
  let maxRetries := default 3 (maxRetries options) in
  let baseDelay := default 3000 (baseDelay options) in
  let maxDelay := default 3000 (maxDelay options) in
  let taskName := default "operation" (taskName options) in
  loop (Z.to_nat (maxRetries + 1)) 0 maxRetries baseDelay maxDelay taskName fn None.

End Retry.

(** * Delivery sender (utils/webhook.ts) *)
Module Webhook.

(** [validateWebhookPayload]: [inl msg] is [throw new Error(msg)]. *)
Definition validateWebhookPayload (payload : JSVal) : string + unit :=
  if negb (truthyV payload) then inl "Webhook payload is null or undefined"
  else if negb (truthyV (prop payload "type")) ||
          (negb (strict_eq_str (prop payload "type") "outline") &&
           negb (strict_eq_str (prop payload "type") "article"))
  then inl ("Invalid payload type. Must be " +:+ dquote +:+ "outline" +:+ dquote +:+
              " or " +:+ dquote +:+ "article" +:+ dquote)
  else if negb (truthyV (prop payload "data")) then inl "Payload data is null or undefined"
  else if negb (truthyV (prop payload "userId")) ||
          negb (String.eqb (typeof (prop payload "userId")) "string")
  then inl "Invalid userId in payload"
  else if negb (truthyV (prop payload "chatId")) ||
          negb (String.eqb (typeof (prop payload "chatId")) "number")
  then inl "Invalid chatId in payload"
  else if strict_eq_str (prop payload "type") "outline" then
    if negb (truthyV (prop (prop payload "data") "outline")) ||
       negb (String.eqb (typeof (prop (prop payload "data") "outline")) "object")
    then inl "Invalid outline data structure"
    else inr tt
  else if strict_eq_str (prop payload "type") "article" then
    if negb (truthyV (prop (prop payload "data") "article")) ||
       negb (String.eqb (typeof (prop (prop payload "data") "article")) "object")
    then inl "Invalid article data structure"
    else inr tt
  else inr tt.

Definition maxRetries : Z := 3.
Definition delayMs : Z := 3000.

(** The function handed to [withRetry]: one delivery attempt. *)
Definition attempt (url : string) (payload : JSVal) : M Z :=
  r ← try_ (status ← axios_post url (prop payload "data");
            if negb (status =? 200)
            then throw (Error ("Webhook failed with status code " +:+ pretty status))
            else mret status);
  match r with
  | inr response => mret response
  | inl axiosError =>
      if bool_decide (code axiosError = Some "ECONNREFUSED")
      then throw (Error "Webhook server connection refused")
      else if bool_decide (code axiosError = Some "ETIMEDOUT") ||
              bool_decide (code axiosError = Some "ECONNABORTED")
      then throw (Error "Webhook request timeout")
      else if bool_decide (is_Some (responseStatus axiosError))
      then throw axiosError
      else throw axiosError
  end.

Definition sendWebhookWithRetry (url : string) (payload : JSVal)
    (taskName : string) (chatId : Z) : M unit :=
  match payload with
  | JNull | JUndefined =>
      (* the debug line reads [payload.type] before anything else *)
      throw (Error "TypeError: Cannot read properties of null or undefined (reading 'type')")
  | _ =>
      match validateWebhookPayload payload with
      | inl validationError =>
          sendMessage chatId (MsgInternalError taskName validationError);;
          throw (Error ("Invalid webhook payload: " +:+ validationError))
      | inr _ =>
          r ← try_ (Retry.withRetry (attempt url payload)
                      (Retry.mkRetryOptions (Some maxRetries) (Some delayMs) (Some delayMs)
                                            (Some ("Gửi webhook " +:+ taskName))));
          match r with
          | inr _ => mret tt
          | inl error =>
              sendMessage chatId (MsgDeliveryFailed taskName url maxRetries (message error));;
              mret tt
          end
      end
  end.

End Webhook.

(** * String helpers on messages *)

(** [String.prototype.toLowerCase], on the ASCII letters. *)
Definition lower_ascii (c : Ascii.ascii) : Ascii.ascii :=
  let n := Ascii.nat_of_ascii c in
  if (Nat.leb 65 n && Nat.leb n 90)%bool then Ascii.ascii_of_nat (n + 32) else c.

Fixpoint toLowerCase (s : string) : string :=
  match s with
  | EmptyString => EmptyString
  | String c rest => String (lower_ascii c) (toLowerCase rest)
  end.

(** [hay.includes(needle)]. *)
Fixpoint includes (needle hay : string) : bool :=
  String.prefix needle hay ||
  match hay with
  | EmptyString => false
  | String _ rest => includes needle rest
  end.

(** * Provider router (services/ai/aiRouter.ts) *)
Module AIRouter.

Record AIResponse := mkAIResponse {
  r_data : StageData;
  r_provider : Provider;
  r_tokensUsed : Z;
  r_inputTokens : Z;
  r_outputTokens : Z;
  r_cached : bool;
  r_processingTime : Z
}.

Definition providerName (p : Provider) : string :=
  match p with claude => "claude" | openrouter => "openrouter" end.

Definition getMaxTokens (c : AIConfig) (taskType : Task) : Z :=
  match taskType with
  | titles => titleMaxTokens c
  | outline => outlineMaxTokens c
  | article => articleMaxTokens c
  end.

(** A task timeout that is unset or zero is falsy: the default is used. *)
Definition getTimeout (c : AIConfig) (taskType : Task) : Z :=
  let pick (o : option Z) : Z :=
    match o with
    | Some t => if t =? 0 then aiRequestTimeout c else t
    | None => aiRequestTimeout c
    end in
  match taskType with
  | titles => pick (aiTitleTimeout c)
  | outline => pick (aiOutlineTimeout c)
  | article => pick (aiArticleTimeout c)
  end.

Definition undefinedMessage : Exn :=
  Error "TypeError: Cannot read properties of undefined (reading 'message')".

(** [tryProviderWithRetry]: the loop
    [for (attempt = 1; attempt <= maxRetries; attempt++)]. *)
Fixpoint retryLoop (fuel : nat) (attempt maxRetries : Z) (provider : Provider)
    (prompt : Prompt) (maxTokens timeout : Z) (lastError : option Exn) : M AiResult :=
  match fuel with
  | O => throw (default undefinedMessage lastError)
  | S fuel' =>
      r ← try_ (generateJSONCompletion provider prompt maxTokens timeout);
      match r with
      | inr result => mret result
      | inl error =>
          (if attempt <? maxRetries
           then delay (2 ^ attempt * 1000)
           else mret tt);;
          retryLoop fuel' (attempt + 1) maxRetries provider prompt maxTokens timeout
                    (Some error)
      end
  end.

Definition tryProviderWithRetry (provider : Provider) (prompt : Prompt)
    (maxTokens timeout : Z) (maxRetries : Z) : M AiResult :=
  retryLoop (Z.to_nat maxRetries) 1 maxRetries provider prompt maxTokens timeout None.

Definition isTransientError (msg : string) : bool :=
  let errorMsg := toLowerCase msg in
  let isConnectionError := includes "connection" errorMsg in
  let isTerminatedError := includes "terminated" errorMsg || includes "socket" errorMsg in
  let isRateLimitError := includes "rate limit" errorMsg || includes "429" errorMsg in
  let isServerError :=
    includes "500" errorMsg || includes "502" errorMsg || includes "503" errorMsg in
  isConnectionError || isTerminatedError || isRateLimitError || isServerError.

(** [tryPrimaryProvider]: the loop [for (attempt = 1; attempt <= 2; attempt++)];
    [None] is the [return null] after it. *)
Fixpoint primaryLoop (fuel : nat) (attempt : Z) (provider : Provider)
    (prompt : Prompt) (maxTokens timeout : Z) : M (option AiResult) :=
  match fuel with
  | O => mret None
  | S fuel' =>
      r ← try_ (generateJSONCompletion provider prompt maxTokens timeout);
      match r with
      | inr result => mret (Some result)
      | inl error =>
          if (attempt =? 1) && isTransientError (message error) then
            delay 2000;;
            primaryLoop fuel' (attempt + 1) provider prompt maxTokens timeout
          else throw error
      end
  end.

Definition tryPrimaryProvider (provider : Provider) (prompt : Prompt)
    (maxTokens timeout : Z) : M (option AiResult) :=
  primaryLoop 2 1 provider prompt maxTokens timeout.

Definition combinedMessage (primaryProvider backupProvider : Provider)
    (primaryMessage backupMessage : string) : string :=
  "All AI providers failed. " +:+ providerName primaryProvider +:+ ": " +:+ primaryMessage
    +:+ ", " +:+ providerName backupProvider +:+ ": " +:+ backupMessage.

Definition respond (result : AiResult) (provider : Provider) (processingTime : Z)
  : AIResponse :=
  mkAIResponse (data result) provider (tokensUsed result) (inputTokens result)
               (outputTokens result) false processingTime.

Definition generateJSON (prompt : Prompt) (taskType : Task) : M AIResponse :=
  startTime ← dateNow;
  env ← ask;
  let config := config env in
  let primaryProvider := defaultProvider config in
  let backupProvider :=
    match primaryProvider with claude => openrouter | openrouter => claude end in
  let maxTokens := getMaxTokens config taskType in
  let timeout := getTimeout config taskType in
  r ← try_ (tryPrimaryProvider primaryProvider prompt maxTokens timeout);
  match r with
  | inr (Some result) =>
      t ← dateNow;
      mret (respond result primaryProvider (t - startTime))
  | _ =>
      let primaryError : option Exn :=
        match r with inl error => Some error | inr _ => None end in
      if backupAI config then
        b ← try_ (tryProviderWithRetry backupProvider prompt maxTokens timeout 3);
        match b with
        | inr backupResult =>
            t ← dateNow;
            mret (respond backupResult backupProvider (t - startTime))
        | inl backupError =>
            match primaryError with
            | Some primaryError =>
                throw (Error (combinedMessage primaryProvider backupProvider
                                (message primaryError) (message backupError)))
            | None => throw undefinedMessage
            end
        end
      else
        match primaryError with
        | Some primaryError => throw primaryError
        | None => throw undefinedMessage
        end
  end.

End AIRouter.

(** * UTF-16 text helpers *)

(** An ASCII literal as UTF-16 text. *)
Definition u16 (s : string) : ustring :=
  map (λ c, Ascii.N_of_ascii c) (String.list_ascii_of_string s).

(** The code units that [trim()] strips and that the regular expression
    class [\s] matches (WhiteSpace and LineTerminator). *)
Definition isSpace (c : N) : bool :=
  ((9 <=? c) && (c <=? 13) || (c =? 32) || (c =? 160) || (c =? 5760) ||
   (8192 <=? c) && (c <=? 8202) || (c =? 8232) || (c =? 8233) || (c =? 8239) ||
   (c =? 8287) || (c =? 12288) || (c =? 65279))%N.

Fixpoint trimStart (s : ustring) : ustring :=
  match s with
  | c :: rest => if isSpace c then trimStart rest else s
  | [] => []
  end.

Definition trimEnd (s : ustring) : ustring := rev (trimStart (rev s)).

Definition trim (s : ustring) : ustring := trimEnd (trimStart s).

Definition ulength (s : ustring) : Z := Z.of_nat (length s).

Fixpoint isPrefix (p s : ustring) : bool :=
  match p, s with
  | [], _ => true
  | a :: p', b :: s' => (a =? b)%N && isPrefix p' s'
  | _ :: _, [] => false
  end.

Fixpoint indexOfFrom (c : N) (s : ustring) (i : Z) : Z :=
  match s with
  | [] => -1
  | d :: rest => if (d =? c)%N then i else indexOfFrom c rest (i + 1)
  end.

(** [s.indexOf(c)] for a one-unit [c]. *)
Definition indexOf (c : N) (s : ustring) : Z := indexOfFrom c s 0.

Fixpoint lastIndexOfFrom (c : N) (s : ustring) (i : Z) (found : Z) : Z :=
  match s with
  | [] => found
  | d :: rest => lastIndexOfFrom c rest (i + 1) (if (d =? c)%N then i else found)
  end.

(** [s.lastIndexOf(c)] for a one-unit [c]. *)
Definition lastIndexOf (c : N) (s : ustring) : Z := lastIndexOfFrom c s 0 (-1).

(** [s.substring(a, b)]: both ends are clamped to [0, length] and swapped
    when out of order. *)
Definition substring (s : ustring) (a b : Z) : ustring :=
  let clamp (x : Z) := Z.max 0 (Z.min x (ulength s)) in
  let lo := Z.min (clamp a) (clamp b) in
  let hi := Z.max (clamp a) (clamp b) in
  take (Z.to_nat (hi - lo)) (drop (Z.to_nat lo) s).

(** * Provider client: structured output (services/ai/claudeService.ts) *)
Module ClaudeService.

Inductive LogLine :=
| LogDebug (msg : string)
| LogError (msg : string)
| LogErrorSample (label : string) (sample : ustring).

Definition fence : ustring := u16 "```".
Definition fenceJson : ustring := u16 "```json".

Fixpoint stripPrefix (p s : ustring) : option ustring :=
  match p, s with
  | [], _ => Some s
  | a :: p', b :: s' => if (a =? b)%N then stripPrefix p' s' else None
  | _ :: _, [] => None
  end.

(** The lazy group [([\s\S]*?)] followed by [\s*```]: the shortest
    capture after which optional white space and a fence follow. *)
Fixpoint lazyCapture (s : ustring) : option ustring :=
  if isPrefix fence (trimStart s) then Some []
  else
    match s with
    | [] => None
    | c :: rest => cons c <$> lazyCapture rest
    end.

(** The expression anchored at one position: the opening fence, the
    greedy [\s*], the capture.  (Giving back white space from the greedy
    [\s*] cannot turn a failure into a match, since white space holds no
    fence; so the greedy choice is the engine's.) *)
Definition matchHere (opening : ustring) (s : ustring) : option ustring :=
  rest ← stripPrefix opening s;
  lazyCapture (trimStart rest).

(** [content.match(/opening\s*([\s\S]*?)\s*```/)]: the leftmost match;
    the result is capture group 1. *)
Fixpoint regexMatch (opening : ustring) (s : ustring) : option ustring :=
  match matchHere opening s with
  | Some capture => Some capture
  | None =>
      match s with
      | [] => None
      | _ :: rest => regexMatch opening rest
      end
  end.

Definition codeBlockMatch (content : ustring) : option ustring :=
  match regexMatch fenceJson content with
  | Some capture => Some capture
  | None => regexMatch fence content
  end.

Definition openBrace : N := 123.
Definition closeBrace : N := 125.
Definition openBracket : N := 91.
Definition closeBracket : N := 93.

(** What strategies 3 and 4 hand to the parser, if anything. *)
Definition between (first last : N) (content : ustring) : option ustring :=
  let firstIndex := indexOf first content in
  let lastIndex := lastIndexOf last content in
  if negb (firstIndex =? -1) && negb (lastIndex =? -1) && (lastIndex >? firstIndex)
  then Some (substring content firstIndex (lastIndex + 1))
  else None.

Definition invalidJSON : Exn := Error "Invalid JSON response from Claude".

Section Parse.
(** [JSON.parse]: the parsed value, or the message of the SyntaxError. *)
Context {T : Type} (JSON_parse : ustring → string + T).

(** One strategy: the candidate text if the strategy applies
    ([notFound] is what it records otherwise), parsed. *)
Definition strategy (n : string) (candidate : option ustring) (notFound : string)
  : string + T :=
  match candidate with
  | Some jsonString =>
      match JSON_parse jsonString with
      | inr v => inr v
      | inl msg => inl ("Strategy " +:+ n +:+ ": " +:+ msg)
      end
  | None => inl ("Strategy " +:+ n +:+ ": " +:+ notFound)
  end.

Definition joinErrors (errors : list string) : string :=
  match errors with
  | [] => EmptyString
  | e :: rest => fold_left (λ acc x, acc +:+ " | " +:+ x) rest e
  end.

(** [parseJSONResponse]: the value or the thrown error, and the lines
    written to the log on the way. *)
Definition parseJSONResponse (content : ustring) : (Exn + T) * list LogLine :=
  match strategy "1" (trim <$> codeBlockMatch content) "No code block found" with
  | inr v => (inr v, [])
  | inl e1 =>
  match strategy "2" (Some (trim content)) EmptyString with
  | inr v => (inr v, [LogDebug e1])
  | inl e2 =>
  match strategy "3" (between openBrace closeBrace content) "No valid braces found" with
  | inr v => (inr v, [LogDebug e1; LogDebug e2])
  | inl e3 =>
  match strategy "4" (between openBracket closeBracket content)
                 "No valid brackets found" with
  | inr v => (inr v, [LogDebug e1; LogDebug e2; LogDebug e3])
  | inl e4 =>
      (inl invalidJSON,
       [LogDebug e1; LogDebug e2; LogDebug e3; LogDebug e4;
        LogError "Failed to parse Claude JSON response - all strategies failed";
        LogError ("Strategy errors: " +:+ joinErrors [e1; e2; e3; e4]);
        LogErrorSample "Response content (first 500 chars): " (substring content 0 500)])
  end end end end.
End Parse.

End ClaudeService.

(** * openRouterService.ts: the same extraction, under one [try] *)
Module OpenRouterService.
Import ClaudeService.

Definition invalidJSON : Exn := Error "Invalid JSON response from OpenRouter".

Section Parse.
Context {T : Type} (JSON_parse : ustring → string + T).

(** The outer [catch]: whatever was thrown inside, two lines are logged and
    the fixed error is thrown. *)
Definition failed (content : ustring) : (Exn + T) * list LogLine :=
  (inl invalidJSON,
   [LogError "Failed to parse OpenRouter JSON response";
    LogErrorSample "Response content (first 500 chars): " (substring content 0 500)]).

(** [parseJSONResponse]: only the parse of the whole text has a [catch] of
    its own; the parse of a code block, of the text between braces and of
    the text between brackets is returned as it is, so that a failure
    there goes to the outer [catch]. *)
Definition parseJSONResponse (content : ustring) : (Exn + T) * list LogLine :=
  match codeBlockMatch content with
  | Some capture =>
      match JSON_parse (trim capture) with
      | inr v => (inr v, [])
      | inl _ => failed content
      end
  | None =>
      match JSON_parse (trim content) with
      | inr v => (inr v, [])
      | inl _ =>
          match between openBrace closeBrace content with
          | Some jsonString =>
              match JSON_parse jsonString with
              | inr v => (inr v, [])
              | inl _ => failed content
              end
          | None =>
              match between openBracket closeBracket content with
              | Some jsonString =>
                  match JSON_parse jsonString with
                  | inr v => (inr v, [])
                  | inl _ => failed content
                  end
              | None => failed content
              end
          end
      end
  end.
End Parse.

End OpenRouterService.

(** * Input validation (utils/validation.ts) *)
Module Validation.

Record ValidationResult := mkValidationResult { valid : bool; error : option string }.

(** The class of U+200B to U+200D and U+FEFF. *)
Definition isZeroWidth (c : N) : bool :=
  ((8203 <=? c) && (c <=? 8205) || (c =? 65279))%N.

(** [sanitizeInput]; [normalize] is [String.prototype.normalize('NFC')]. *)
Definition sanitizeInput (normalize : ustring → ustring) (input : ustring) : ustring :=
  match input with
  | [] => []
  | _ =>
      let sanitized := trim input in
      let sanitized := filter (λ c, isZeroWidth c = false) sanitized in
      normalize sanitized
  end.

Definition validateTopic (topic : ustring) : ValidationResult :=
  if bool_decide (topic = []) || (ulength (trim topic) =? 0)
  then mkValidationResult false (Some "Chủ đề không được để trống.")
  else if ulength topic <? 5
  then mkValidationResult false (Some "Chủ đề quá ngắn. Vui lòng nhập ít nhất 5 ký tự.")
  else if ulength topic >? 200
  then mkValidationResult false (Some "Chủ đề quá dài. Vui lòng nhập tối đa 200 ký tự.")
  else mkValidationResult true None.

End Validation.

(** * validation.ts: the choice of a title *)
Module TitleSelection.
Import Validation.

(** The value of a decimal digit, by its code unit. *)
Definition digitValue (c : N) : option Z :=
  if ((48 <=? c) && (c <=? 57))%N then Some (Z.of_N c - 48) else None.

(** The longest prefix of decimal digits read as a number, continuing from
    [acc]; [None] as long as no digit has been read. *)
Fixpoint digits (s : ustring) (acc : option Z) : option Z :=
  match s with
  | c :: rest =>
      match digitValue c with
      | Some d => digits rest (Some (default 0 acc * 10 + d))
      | None => acc
      end
  | [] => acc
  end.

(** The integer that the text denotes for [parseInt(s, 10)]: leading white
    space is skipped, one sign is read, then the longest prefix of digits;
    what follows is ignored.  [None]: there is no digit to read. *)
Definition mathInt (s : ustring) : option Z :=
  match trimStart s with
  | c :: rest =>
      if (c =? 45)%N then Z.opp <$> digits rest None
      else if (c =? 43)%N then digits rest None
      else digits (c :: rest) None
  | [] => None
  end.

(** A number value that [parseInt] can return: an integer that a double
    holds, or an infinity.  (A negative zero is not told apart from zero:
    no comparison below distinguishes them.) *)
Inductive Number :=
| Finite (z : Z)
| Infinity (negative : bool).

(** The double nearest to the integer [m >= 0], ties to even: up to 53
    bits are kept as they are; of a longer number the 53 leading bits are
    kept and rounded by the rest.  [None]: beyond the largest double. *)
Definition roundMagnitude (m : Z) : option Z :=
  let bits := Z.log2 m + 1 in
  if bits <=? 53 then Some m
  else
    let e := bits - 53 in
    let q := Z.shiftr m e in
    let r := m - Z.shiftl q e in
    let half := Z.shiftl 1 (e - 1) in
    let q' := if (half <? r) || ((r =? half) && Z.odd q) then q + 1 else q in
    let v := Z.shiftl q' e in
    if 2 ^ 1024 <=? v then None else Some v.

Definition toNumber (z : Z) : Number :=
  match roundMagnitude (Z.abs z) with
  | Some v => Finite (if z <? 0 then - v else v)
  | None => Infinity (z <? 0)
  end.

(** [parseInt(s, 10)]: the number value of the integer read; [None] is
    [NaN].  (For a numeral of more than 20 significant digits the language
    lets an engine replace the digits after the 20th by zeros before it
    rounds; the engine this program runs on rounds the exact integer, as
    here.) *)
Definition parseInt (s : ustring) : option Number := toNumber <$> mathInt s.

(** [x < k] and [x > k] for an integer [k]. *)
Definition lessThan (x : Number) (k : Z) : bool :=
  match x with
  | Finite z => z <? k
  | Infinity negative => negative
  end.

Definition greaterThan (x : Number) (k : Z) : bool :=
  match x with
  | Finite z => z >? k
  | Infinity negative => negb negative
  end.

Definition validateTitleSelection (selection : ustring) : ValidationResult :=
  match parseInt selection with
  | None => mkValidationResult false (Some "Vui lòng gửi một số từ 1-10.")
  | Some num =>
      if lessThan num 1 || greaterThan num 10
      then mkValidationResult false (Some "Vui lòng chọn số từ 1-10.")
      else mkValidationResult true None
  end.

End TitleSelection.

(** * validation.ts: the structure of an outline *)
Module OutlineValidation.
Import Validation.

Section Blank.
(** [s.trim().length === 0] on the text of a string value. *)
Context (isBlank : string → bool).

Definition isString (v : JSVal) : bool := String.eqb (typeof v) "string".

(** [Array.isArray]. *)
Definition isArray (v : JSVal) : bool :=
  match v with JArr _ => true | _ => false end.

Definition invalid (msg : string) : Exn + ValidationResult :=
  inr (mkValidationResult false (Some msg)).

(** The loop over the sections, from index [i] on.  Reading [heading] off
    a section that is [null] or [undefined] throws. *)
Fixpoint validateSections (i : Z) (sections : list JSVal) : Exn + ValidationResult :=
  match sections with
  | [] => inr (mkValidationResult true None)
  | section :: rest =>
      match section with
      | JNull =>
          inl (Error "TypeError: Cannot read properties of null (reading 'heading')")
      | JUndefined =>
          inl (Error "TypeError: Cannot read properties of undefined (reading 'heading')")
      | _ =>
          let heading := prop section "heading" in
          if negb (truthyV heading) || negb (isString heading)
          then invalid ("Section " +:+ pretty (i + 1) +:+ " thiếu heading.")
          else if match heading with JStr text => isBlank text | _ => false end
          then invalid ("Section " +:+ pretty (i + 1) +:+ " có heading rỗng.")
          else if truthyV (prop section "subheadings") &&
                  negb (isArray (prop section "subheadings"))
          then invalid ("Section " +:+ pretty (i + 1) +:+ " subheadings phải là array.")
          else validateSections (i + 1) rest
      end
  end.

Definition validateOutline (outline : JSVal) : Exn + ValidationResult :=
  if negb (truthyV outline) then invalid "Outline không tồn tại."
  else if negb (truthyV (prop outline "inference"))
  then invalid "Thiếu thông tin inference trong outline."
  else
    let inference := prop outline "inference" in
    if negb (truthyV (prop inference "targetKeyword")) ||
       negb (isString (prop inference "targetKeyword"))
    then invalid "Thiếu targetKeyword trong inference."
    else if negb (truthyV (prop inference "targetAudience")) ||
            negb (isString (prop inference "targetAudience"))
    then invalid "Thiếu targetAudience trong inference."
    else if negb (truthyV (prop inference "contentPurpose")) ||
            negb (isString (prop inference "contentPurpose"))
    then invalid "Thiếu contentPurpose trong inference."
    else if negb (truthyV (prop outline "outline")) || negb (isArray (prop outline "outline"))
    then invalid "Outline sections phải là một array."
    else
      match prop outline "outline" with
      | JArr sections =>
          if Z.of_nat (length sections) <? 3
          then invalid "Outline phải có ít nhất 3 sections."
          else validateSections 0 sections
      | _ => invalid "Outline sections phải là một array."
      end.

End Blank.

End OutlineValidation.

(** * Content pipeline, title stage (services/content/contentService.ts) *)
Module ContentService.

Record TitlesResponse := mkTitlesResponse {
  t_titles : option (list ArticleTitle);
  t_provider : Provider;
  t_tokensUsed : Z;
  t_inputTokens : Z;
  t_outputTokens : Z;
  t_cached : bool;
  t_processingTime : Z
}.

(** [response.data.titles], read through an unchecked cast. *)
Definition titlesOf (d : StageData) : option (list ArticleTitle) :=
  match d with TitlesData ts => Some ts | _ => None end.

Definition generateTitles (topic : ustring) (_userId : string) : M TitlesResponse :=
  r ← try_ (AIRouter.generateJSON (TitlePrompt topic) titles);
  match r with
  | inr response =>
      mret (mkTitlesResponse (titlesOf (AIRouter.r_data response))
              (AIRouter.r_provider response) (AIRouter.r_tokensUsed response)
              (AIRouter.r_inputTokens response) (AIRouter.r_outputTokens response)
              (AIRouter.r_cached response) (AIRouter.r_processingTime response))
  | inl error => throw (Error ("Failed to generate titles: " +:+ message error))
  end.

End ContentService.

(** * Dialogue controller, topic step (controllers/telegramController.ts) *)
Module TelegramController.

Definition withStore (f : ConversationManager.State → ConversationManager.State)
    (w : World) : World :=
  mkWorld (wnow w) (aiCalls w) (posts w) (f (store w)) (trace w).

Definition updateConversation (userId : string) (chatId : Z) (updates : Updates) : M unit :=
  onStore (λ now s, (tt, ConversationManager.updateConversation userId chatId updates now s)).

Definition resetConversation (userId : string) (chatId : Z) : M unit :=
  onStore (λ _ s, (tt, ConversationManager.resetConversation userId chatId s)).

(** [Math.round(ms / 60000)]. *)
Definition roundMinutes (ms : Z) : Z := (ms + 30000) / 60000.

Definition handleTopicInput (chatId : Z) (userId : string) (topic : ustring) : M unit :=
  env ← ask;
  let sanitizedTopic := Validation.sanitizeInput (nfc env) topic in
  let validation := Validation.validateTopic sanitizedTopic in
  if negb (Validation.valid validation) then
    sendMessage chatId (MsgTopicInvalid (default "undefined" (Validation.error validation)))
  else
    lockAcquired ← onStore (ConversationManager.tryAcquireLock userId chatId titles);
    if negb lockAcquired then
      conversation ← onStore (ConversationManager.getConversation userId chatId);
      sendMessage chatId (MsgBusy (processingTask conversation))
    else
      updateConversation userId chatId
        (mkUpdates None None (Some waiting_title_selection) (Some (Some sanitizedTopic))
                   None None None None None None None);;
      finally
        (r ← try_ (sendTypingAction chatId;;
                   sendMessage chatId (MsgTopicAccepted sanitizedTopic);;
                   result ← ContentService.generateTitles sanitizedTopic userId;
                   updateConversation userId chatId
                     (mkUpdates None None None None
                                (Some (ContentService.t_titles result))
                                None None None None None None);;
                   match ContentService.t_titles result with
                   | Some ts =>
                       sendMessage chatId
                         (MsgTitles ts (ContentService.t_provider result)
                                    (ContentService.t_tokensUsed result))
                   | None =>
                       throw (Error
                         "TypeError: Cannot read properties of undefined (reading 'forEach')")
                   end);
         match r with
         | inr _ => mret tt
         | inl error =>
             if includes "timeout" (message error) then
               sendMessage chatId
                 (MsgTimeout (roundMinutes (aiRequestTimeout (config env))));;
               resetConversation userId chatId
             else throw error
         end)
        (λ w, withStore (ConversationManager.releaseLock userId chatId (wnow w)) w)
  .

End TelegramController.

(** * Vocabulary of the statements

    The definitions below are not embedded code: they name the states,
    collaborators and event sequences that the theorems speak about. *)

(** The lock of [key] is held for [task] since [since], and the entry was
    last active at [last]. *)
Definition holdsAt (key : string) (task : Task) (since last : Z)
    (s : ConversationManager.State) : Prop :=
  ∃ conv, ConversationManager.conversations s !! key = Some conv ∧
          isProcessing conv = Some true ∧
          processingTask conv = Some task ∧
          lockAcquiredAt conv = Some since ∧
          lastActivity conv = last.

(** The last activity of [key] after a call made at [now]: a
    [getConversation], an [updateConversation] and a [tryAcquireLock] for
    that key refresh it. *)
Definition activity (key : string) (now : Z) (o : ConversationManager.Op) (last : Z) : Z :=
  match o with
  | ConversationManager.OpGet u c
  | ConversationManager.OpUpdate u c _
  | ConversationManager.OpTryAcquire u c _ =>
      if bool_decide (ConversationManager.getKey u c = key) then now else last
  | _ => last
  end.

(** The calls [ops], made at any times while the lock of [key] acquired at
    [since] is held, do not end the hold: none of them is a [releaseLock]
    or a [resetConversation] of that key or an update of its lock fields;
    a sweep of stale locks runs no later than ten minutes after the
    acquisition; a sweep of inactive conversations runs no later than one
    hour after the last activity of the key.  Nothing is asked of the
    times of the other calls. *)
Fixpoint quiet (key : string) (since last : Z) (ops : list (Z * ConversationManager.Op))
  : bool :=
  match ops with
  | [] => true
  | (now, o) :: rest =>
      ConversationManager.keeps key o &&
      match o with
      | ConversationManager.OpCleanupStaleLocks =>
          now - since <=? ConversationManager.lockTimeoutMs
      | ConversationManager.OpCleanup =>
          now - last <=? ConversationManager.inactivityTimeoutMs
      | _ => true
      end &&
      quiet key since (activity key now o last) rest
  end.

(** The user's window started at [t0] and has counted [k] requests. *)
Definition inWindow (limits : gmap string RateLimiter.RateLimitInfo) (u : string)
    (t0 k : Z) : Prop :=
  ∃ l, limits !! u = Some l ∧
       RateLimiter.requestCount l = k ∧ RateLimiter.windowStart l = t0.

(** A call at [t0] opens a window: nothing is recorded for the user, or the
    recorded window has run out. *)
Definition opensWindow (limits : gmap string RateLimiter.RateLimitInfo) (u : string)
    (t0 : Z) : Prop :=
  match limits !! u with
  | None => True
  | Some l => t0 - RateLimiter.windowStart l >= RateLimiter.windowDuration
  end.

(** The world after one POST of [body] to [url]. *)
Definition posted (url : string) (body : JSVal) (w : World) : World :=
  mkWorld (wnow w) (aiCalls w) (S (posts w)) (store w) (trace w ++ [EvPost url body]).

(** The world after a delay. *)
Definition delayed (ms : Z) (w : World) : World :=
  mkWorld (wnow w + ms) (aiCalls w) (posts w) (store w) (trace w ++ [EvDelay ms]).

(** The world after a message to the chat. *)
Definition notified (chatId : Z) (msg : Message) (w : World) : World :=
  mkWorld (wnow w) (aiCalls w) (posts w) (store w) (trace w ++ [EvSendMessage chatId msg]).

(** The endpoint answers the [n]-th POST with HTTP 200. *)
Definition accepted (env : Env) (n : nat) : Prop := http env n = HttpResponse 200.

(** The [n]-th POST meets a transport error or a response outside 2xx. *)
Definition rejected (env : Env) (n : nat) : Prop :=
  match http env n with
  | HttpResponse status => ¬ (200 ≤ status < 300)
  | HttpTransportError _ _ => True
  end.

(** The events of [n + 1] attempts: a POST, then [n] times a delay of
    [ms] and a POST. *)
Fixpoint schedule (url : string) (body : JSVal) (ms : Z) (n : nat) : list Event :=
  match n with
  | O => [EvPost url body]
  | S n' => schedule url body ms n' ++ [EvDelay ms; EvPost url body]
  end.

(** The options [sendWebhookWithRetry] hands to [withRetry]. *)
Definition options (tn : string) : Retry.RetryOptions :=
  Retry.mkRetryOptions (Some Webhook.maxRetries) (Some Webhook.delayMs)
                       (Some Webhook.delayMs) (Some tn).

Definition isPost (e : Event) : bool :=
  match e with EvPost _ _ => true | _ => false end.

Definition isNotice (e : Event) : bool :=
  match e with EvSendMessage _ _ => true | _ => false end.

Definition isDelay (e : Event) : bool :=
  match e with EvDelay _ => true | _ => false end.

Definition isCall (e : Event) : bool :=
  match e with EvProviderCall _ _ _ _ => true | _ => false end.

Definition countPosts (evs : list Event) : nat := length (List.filter isPost evs).

Definition countNotices (evs : list Event) : nat := length (List.filter isNotice evs).

Definition countCalls (evs : list Event) : nat := length (List.filter isCall evs).

(** The outline payload of the README's "Webhook Payload" section. *)
Definition readmeOutlinePayload : JSVal :=
  JObj [("type", JStr "outline");
        ("data", JObj [("outline",
           JObj [("inference",
                  JObj [("targetKeyword", JStr "keyword");
                        ("targetAudience", JStr "audience");
                        ("contentPurpose", JStr "purpose");
                        ("estimatedWordCount", JStr "2000-2500")]);
                 ("outline",
                  JArr [JObj [("heading", JStr "Heading");
                              ("subheadings", JArr [JStr "Sub 1"; JStr "Sub 2"]);
                              ("notes", JStr "Note")]])])]);
        ("userId", JStr "123456789");
        ("chatId", JNum 123456789)].

(** The payload the controller builds for an outline: [data] repeats the
    tag and the ids next to the outline and its metadata. *)
Definition controllerOutlinePayload : JSVal :=
  JObj [("type", JStr "outline");
        ("data", JObj [("type", JStr "outline");
                       ("userId", JStr "123456789");
                       ("chatId", JNum 123456789);
                       ("topic", JStr "topic");
                       ("selectedTitle", JStr "title");
                       ("outline", JObj [("inference", JObj []); ("outline", JArr [])]);
                       ("metadata", JObj [("provider", JStr "claude")])]);
        ("userId", JStr "123456789");
        ("chatId", JNum 123456789)].

(** The documented envelope: a [type] tag, the [data] with the member the
    tag names, a string [userId] and a numeric [chatId]. *)
Definition isEnvelope (body : JSVal) : bool :=
  (strict_eq_str (prop body "type") "outline" &&
     truthyV (prop (prop body "data") "outline") ||
   strict_eq_str (prop body "type") "article" &&
     truthyV (prop (prop body "data") "article")) &&
  String.eqb (typeof (prop body "userId")) "string" &&
  String.eqb (typeof (prop body "chatId")) "number".

Definition sampleConfig : AIConfig :=
  mkAIConfig claude true 1000 4000 16000 300000 None None None.

(** An endpoint that answers every POST with the given status; the model
    backends are not used. *)
Definition endpointAnswering (status : Z) : Env :=
  mkEnv (λ _ _, mkAiReply (inl (Error "unused")) 0) (λ _, HttpResponse status)
        (λ s, s) sampleConfig.

(** Backends on which every invocation fails with the given message. *)
Definition backendsFailing (msg : string) (backupOn : bool) : Env :=
  mkEnv (λ _ _, mkAiReply (inl (Error msg)) 100) (λ _, HttpResponse 200) (λ s, s)
        (mkAIConfig claude backupOn 1000 4000 16000 300000 None None None).

(** Backends whose first invocation fails with the given message and whose
    later invocations return the given data. *)
Definition backendsFlaky (msg : string) (d : StageData) : Env :=
  mkEnv (λ n _, match n with
                | O => mkAiReply (inl (Error msg)) 100
                | S _ => mkAiReply (inr (mkAiResult d 30 10 20)) 900
                end)
        (λ _, HttpResponse 200) (λ s, s)
        (mkAIConfig claude true 1000 4000 16000 300000 None None None).

Definition world0 : World := mkWorld 0 0 0 ConversationManager.init [].

(** The event of one provider invocation. *)
Definition callEvent (prompt : Prompt) (maxTokens timeout : Z) (p : Provider) : Event :=
  EvProviderCall p prompt maxTokens timeout.

(** The world after one invocation of provider [p]. *)
Definition called (prompt : Prompt) (maxTokens timeout : Z) (p : Provider)
    (env : Env) (w : World) : World :=
  mkWorld (wnow w + elapsed (ai env (aiCalls w) p)) (S (aiCalls w)) (posts w) (store w)
          (trace w ++ [callEvent prompt maxTokens timeout p]).

(** The outcome of the [i]-th invocation made from world [w] on. *)
Definition outcome (p : Provider) (env : Env) (w : World) (i : nat) : Exn + AiResult :=
  reply (ai env (aiCalls w + i)%nat p).

(** The events of a backup run in which [k] attempts failed and one more
    was made: the delay after the attempt number [i] is [2^i] seconds. *)
Fixpoint backupSchedule (prompt : Prompt) (maxTokens timeout : Z) (p : Provider)
    (k : nat) : list Event :=
  match k with
  | O => [callEvent prompt maxTokens timeout p]
  | S k' => backupSchedule prompt maxTokens timeout p k' ++
              [EvDelay (2 ^ Z.of_nat k * 1000); callEvent prompt maxTokens timeout p]
  end.


(** The spec's reading of [parseJSONResponse]: the candidates in order, the
    first one that parses wins. *)
Fixpoint firstParsed {T} (JSON_parse : ustring → string + T)
    (candidates : list (option ustring)) : option T :=
  match candidates with
  | [] => None
  | None :: rest => firstParsed JSON_parse rest
  | Some jsonString :: rest =>
      match JSON_parse jsonString with
      | inr v => Some v
      | inl _ => firstParsed JSON_parse rest
      end
  end.

(** The four candidate texts, in the order the strategies try them. *)
Definition candidates (content : ustring) : list (option ustring) :=
  [trim <$> ClaudeService.codeBlockMatch content;
   Some (trim content);
   ClaudeService.between ClaudeService.openBrace ClaudeService.closeBrace content;
   ClaudeService.between ClaudeService.openBracket ClaudeService.closeBracket content].





(** A stand-in for [JSON.parse] on the few texts of the examples below: it
    accepts the literals [null], [true], [false], [[]] and [{}] and rejects
    every other text, as [JSON.parse] rejects the ones it is given here. *)
Definition parseLiterals (text : ustring) : string + JSVal :=
  if bool_decide (text = u16 "null") then inr JNull
  else if bool_decide (text = u16 "true") then inr (JBool true)
  else if bool_decide (text = u16 "false") then inr (JBool false)
  else if bool_decide (text = u16 "[]") then inr (JArr [])
  else if bool_decide (text = u16 "{}") then inr (JObj [])
  else inl "Unexpected token".

(** ** Further vocabulary: the conversation store *)

Definition colon : Ascii.ascii := Ascii.ascii_of_nat 58.

Fixpoint hasColon (s : string) : bool :=
  match s with
  | EmptyString => false
  | String a rest => bool_decide (a = colon) || hasColon rest
  end.

(** The pair a call on the store is about, if it is about one. *)
Definition opPair (o : ConversationManager.Op) : option (string * Z) :=
  match o with
  | ConversationManager.OpGet u c
  | ConversationManager.OpUpdate u c _
  | ConversationManager.OpTryAcquire u c _
  | ConversationManager.OpRelease u c
  | ConversationManager.OpReset u c => Some (u, c)
  | _ => None
  end.

(** An update as the controller makes them: it leaves the identity and the
    lock fields of the entry alone. *)
Definition plainUpdate (o : ConversationManager.Op) : bool :=
  match o with
  | ConversationManager.OpUpdate _ _ upd =>
      negb (ConversationManager.touchesLock upd) &&
      match u_userId upd with None => true | Some _ => false end &&
      match u_chatId upd with None => true | Some _ => false end
  | _ => true
  end.

(** An entry sits under the key of its own pair, and when it is marked as
    processing it names the task and the time of the acquisition. *)
Definition coherent (key : string) (conv : ConversationState) : Prop :=
  ConversationManager.getKey (userId conv) (chatId conv) = key ∧
  (truthy (isProcessing conv) = true →
   is_Some (processingTask conv) ∧ is_Some (lockAcquiredAt conv)).

(** ** Further vocabulary: the rate limiter *)

(** The calls made on the limiter: by the handlers ([checkLimit]), by an
    administrator ([resetLimit]) and by the timer ([cleanup]). *)
Inductive LimiterOp :=
| LCheck (userId : string)
| LReset (userId : string)
| LCleanup.

Definition limiterExec (config : RateLimiter.Config) (now : Z) (o : LimiterOp)
    (limits : gmap string RateLimiter.RateLimitInfo)
  : option RateLimiter.CheckResult * gmap string RateLimiter.RateLimitInfo :=
  match o with
  | LCheck u =>
      let '(r, limits1) := RateLimiter.checkLimit config u now limits in (Some r, limits1)
  | LReset u => (None, RateLimiter.resetLimit u limits)
  | LCleanup => (None, RateLimiter.cleanup now limits)
  end.

Fixpoint limiterRun (config : RateLimiter.Config) (ops : list (Z * LimiterOp))
    (limits : gmap string RateLimiter.RateLimitInfo)
  : list (option RateLimiter.CheckResult) * gmap string RateLimiter.RateLimitInfo :=
  match ops with
  | [] => ([], limits)
  | (now, o) :: rest =>
      let '(r, limits1) := limiterExec config now o limits in
      let '(rs, limits2) := limiterRun config rest limits1 in
      (r :: rs, limits2)
  end.

(** Every record sits under its own user and counts between 0 and the limit. *)
Definition withinLimit (config : RateLimiter.Config)
    (limits : gmap string RateLimiter.RateLimitInfo) : Prop :=
  ∀ u l, limits !! u = Some l →
    RateLimiter.rl_userId l = u ∧
    0 ≤ RateLimiter.requestCount l ≤ RateLimiter.maxRequestsPerMinute config.

(** ** Further vocabulary: retries and delivery *)

(** [k] calls of [fn] in a row have failed, the first of them made in the
    world [w] as attempt number [a]; each was followed by the pause of its
    attempt number, and [w'] is the world in which the next call is made. *)
Fixpoint failedAttempts {T} (fn : M T) (env : Env) (baseDelay maxDelay : Z)
    (a : Z) (k : nat) (w w' : World) : Prop :=
  match k with
  | O => w' = w
  | S k' =>
      ∃ e w1, fn env w = (inl e, w1) ∧
        failedAttempts fn env baseDelay maxDelay (a + 1) k'
          (delayed (Retry.retryDelay baseDelay maxDelay a) w1) w'
  end.

(** An array or an object: what is truthy and has [typeof] equal to
    ['object']. *)
Definition isContainer (v : JSVal) : bool :=
  match v with JArr _ | JObj _ => true | _ => false end.

(** The error text of a failed delivery attempt, by what the network did
    with the POST. *)
Definition failureText (o : HttpOutcome) : string :=
  match o with
  | HttpResponse status =>
      if (200 <=? status) && (status <? 300)
      then "Webhook failed with status code " +:+ pretty status
      else "Request failed with status code " +:+ pretty status
  | HttpTransportError c msg =>
      if bool_decide (c = Some "ECONNREFUSED") then "Webhook server connection refused"
      else if bool_decide (c = Some "ETIMEDOUT") || bool_decide (c = Some "ECONNABORTED")
      then "Webhook request timeout"
      else msg
  end.

(** ** Further vocabulary: the router *)

(** The time a run has spent waiting between attempts. *)
Fixpoint sumDelays (evs : list Event) : Z :=
  match evs with
  | [] => 0
  | EvDelay ms :: rest => ms + sumDelays rest
  | _ :: rest => sumDelays rest
  end.

(** What the router may do: wait, or invoke a provider with the prompt and
    the budgets of the request. *)
Definition isRouterEvent (prompt : Prompt) (maxTokens timeout : Z) (e : Event) : Prop :=
  (∃ ms, e = EvDelay ms) ∨ (∃ p, e = callEvent prompt maxTokens timeout p).

(** ** Further vocabulary: the topic step *)

(** The lock of the pair is held: its entry exists and is marked as
    processing. *)
Definition held (userId : string) (chatId : Z) (s : ConversationManager.State) : bool :=
  match ConversationManager.conversations s !! ConversationManager.getKey userId chatId with
  | Some conv => truthy (isProcessing conv)
  | None => false
  end.

(** The update made once the lock is acquired: [{ topic, step }]. *)
Definition topicUpdate (topic : ustring) : Updates :=
  mkUpdates None None (Some waiting_title_selection) (Some (Some topic))
            None None None None None None None.

(** The world in which the titles are requested: the lock is acquired, the
    topic and the step are recorded, the typing action and the
    acknowledgement are sent. *)
Definition topicAccepted (chatId : Z) (userId : string) (topic : ustring) (w : World)
  : World :=
  let s1 := (ConversationManager.tryAcquireLock userId chatId titles (wnow w) (store w)).2 in
  let s2 := ConversationManager.updateConversation userId chatId (topicUpdate topic)
              (wnow w) s1 in
  mkWorld (wnow w) (aiCalls w) (posts w) s2
          (trace w ++ [EvTyping chatId; EvSendMessage chatId (MsgTopicAccepted topic)]).

(** Backends on which every invocation returns the given data. *)
Definition backendsReturning (d : StageData) : Env :=
  mkEnv (λ _ _, mkAiReply (inr (mkAiResult d 30 10 20)) 900) (λ _, HttpResponse 200)
        (λ s, s) sampleConfig.

(** A world in which the pair ("7", 7) is busy with an outline. *)
Definition worldBusy : World :=
  mkWorld 5 0 0
          (ConversationManager.tryAcquireLock "7" 7 outline 0 ConversationManager.init).2 [].

(** The [finally] block of the topic step. *)
Definition lockReleased (chatId : Z) (userId : string) (w : World) : World :=
  TelegramController.withStore
    (ConversationManager.releaseLock userId chatId (wnow w)) w.

(** ** Further vocabulary: the choice of a title *)

Definition isDigit (c : N) : bool := bool_decide (is_Some (TitleSelection.digitValue c)).

(** The text does not go on with a digit. *)
Definition noDigitAhead (s : ustring) : bool :=
  match s with
  | c :: _ => negb (isDigit c)
  | [] => true
  end.

(** ** Further vocabulary: the structure of an outline *)

(** A string value that is not empty. *)
Definition isText (v : JSVal) : Prop := ∃ s, v = JStr s ∧ s ≠ EmptyString.

(** A section the validator lets pass: not [null], with a heading that is
    a string, not empty and not blank, and with subheadings that are an
    array when they are there at all. *)
Definition goodSection (isBlank : string → bool) (section : JSVal) : Prop :=
  section ≠ JNull ∧ section ≠ JUndefined ∧
  (∃ h, prop section "heading" = JStr h ∧ h ≠ EmptyString ∧ isBlank h = false) ∧
  (truthyV (prop section "subheadings") = true →
   OutlineValidation.isArray (prop section "subheadings") = true).

Definition goodOutline (isBlank : string → bool) (outline : JSVal) : Prop :=
  isText (prop (prop outline "inference") "targetKeyword") ∧
  isText (prop (prop outline "inference") "targetAudience") ∧
  isText (prop (prop outline "inference") "contentPurpose") ∧
  ∃ sections, prop outline "outline" = JArr sections ∧
    (3 ≤ length sections)%nat ∧ Forall (goodSection isBlank) sections.

(** * Properties of the conversation store *)
Section ConversationStore.
Import ConversationManager.

Implicit Types (s : State) (key : string) (conv : ConversationState).

Lemma getConversation_lookup u c now s :
  conversations (getConversation u c now s).2 !! getKey u c =
    Some (touch now (default (fresh u c now) (conversations s !! getKey u c))).
Proof.
  unfold getConversation; simpl. rewrite lookup_insert_eq.
  by destruct (conversations s !! getKey u c).
Qed.

Lemma getConversation_result u c now s :
  (getConversation u c now s).1 =
    touch now (default (fresh u c now) (conversations s !! getKey u c)).
Proof.
  unfold getConversation; simpl. by destruct (conversations s !! getKey u c).
Qed.

Lemma getConversation_other u c now s key :
  getKey u c ≠ key →
  conversations (getConversation u c now s).2 !! key = conversations s !! key.
Proof. intros Hne. unfold getConversation; simpl. by rewrite lookup_insert_ne. Qed.

Lemma getConversation_locks u c now s :
  locks (getConversation u c now s).2 = locks s.
Proof. reflexivity. Qed.

Lemma updateConversation_lookup u c upd now s :
  conversations (updateConversation u c upd now s) !! getKey u c =
    Some (assign (touch now (default (fresh u c now) (conversations s !! getKey u c)))
                 upd now).
Proof.
  unfold updateConversation, getConversation; simpl. rewrite lookup_insert_eq.
  by destruct (conversations s !! getKey u c).
Qed.

Lemma updateConversation_other u c upd now s key :
  getKey u c ≠ key →
  conversations (updateConversation u c upd now s) !! key = conversations s !! key.
Proof.
  intros Hne. unfold updateConversation, getConversation; simpl.
  by rewrite !lookup_insert_ne.
Qed.

Lemma tryAcquireLock_result u c task now s :
  (tryAcquireLock u c task now s).1 =
    negb (truthy (isProcessing (default (fresh u c now) (conversations s !! getKey u c)))).
Proof.
  unfold tryAcquireLock, getConversation.
  destruct (locks s !! getKey u c); simpl;
    destruct (conversations s !! getKey u c) as [conv|]; simpl;
    try destruct (truthy (isProcessing conv)); reflexivity.
Qed.

Lemma tryAcquireLock_lookup u c task now s :
  conversations (tryAcquireLock u c task now s).2 !! getKey u c =
    let conv := touch now (default (fresh u c now) (conversations s !! getKey u c)) in
    Some (if truthy (isProcessing conv) then conv else acquire task now conv).
Proof.
  unfold tryAcquireLock, getConversation.
  destruct (locks s !! getKey u c); simpl;
    destruct (conversations s !! getKey u c) as [conv|]; simpl;
    try destruct (truthy (isProcessing conv)); simpl;
    rewrite ?lookup_insert_eq; reflexivity.
Qed.

Lemma tryAcquireLock_other u c task now s key :
  getKey u c ≠ key →
  conversations (tryAcquireLock u c task now s).2 !! key = conversations s !! key.
Proof.
  intros Hne. unfold tryAcquireLock, getConversation.
  destruct (locks s !! getKey u c); simpl;
    destruct (conversations s !! getKey u c) as [conv|]; simpl;
    try destruct (truthy (isProcessing conv)); simpl;
    by rewrite ?lookup_insert_ne.
Qed.

Lemma releaseLock_other u c now s key :
  getKey u c ≠ key →
  conversations (releaseLock u c now s) !! key = conversations s !! key.
Proof.
  intros Hne. unfold releaseLock; simpl.
  destruct (conversations s !! getKey u c); by rewrite ?lookup_insert_ne.
Qed.

Lemma cleanup_lookup now s key conv :
  conversations s !! key = Some conv → inactive now conv = false →
  conversations (cleanup now s) !! key = Some conv.
Proof.
  intros Hk Hin. unfold cleanup; simpl.
  apply map_lookup_filter_Some. by split.
Qed.

Lemma cleanupStaleLocks_lookup now s key :
  conversations (cleanupStaleLocks now s) !! key =
    (λ conv, if stale now conv then release now conv else conv) <$> conversations s !! key.
Proof. unfold cleanupStaleLocks; simpl. by rewrite lookup_fmap. Qed.

(** No call inserts into [locks]: from the initial state on, the map stays
    empty, so that [tryAcquireLock] never has a pending entry to wait for. *)
Lemma exec_locks_empty now o s : locks s = ∅ → locks (exec now o s).2 = ∅.
Proof.
  intros He. destruct o as [u c|u c upd|u c t|u c|u c| | |]; simpl.
  - done.
  - unfold updateConversation, getConversation; simpl. done.
  - destruct (tryAcquireLock u c t now s) as [b s'] eqn:E; simpl.
    unfold tryAcquireLock, getConversation in E. rewrite He, lookup_empty in E.
    simpl in E.
    destruct (truthy _) in E; inversion E; subst; simpl; done.
  - unfold releaseLock; simpl. rewrite He. apply delete_empty.
  - unfold resetConversation; simpl. rewrite He. apply delete_empty.
  - unfold cleanup; simpl. rewrite He. apply map_filter_empty.
  - unfold cleanupStaleLocks; simpl. rewrite He. apply map_filter_empty.
  - unfold cleanupOldLockPromises; simpl. rewrite He. apply map_filter_empty.
Qed.

Lemma locks_stay_empty ops : locks (run ops init).2 = ∅.
Proof.
  assert (H : ∀ s, locks s = ∅ → locks (run ops s).2 = ∅).
  { induction ops as [|[now o] rest IH]; intros s Hs; simpl; [done|].
    destruct (exec now o s) as [r s1] eqn:E1.
    destruct (run rest s1) as [rs s2] eqn:E2. simpl.
    change s2 with (run rest s1, s2).2. rewrite E2. simpl.
    specialize (IH s1). rewrite E2 in IH. apply IH.
    change s1 with (r, s1).2. rewrite <- E1. by apply exec_locks_empty. }
  by apply H.
Qed.

Lemma touch_fresh u c now : touch now (fresh u c now) = fresh u c now.
Proof. reflexivity. Qed.




(** C9.  When the lock of a conversation has been held for more than ten
    minutes, [cleanupStaleLocks] clears [isProcessing], [processingTask] and
    [lockAcquiredAt] of its entry (and refreshes [lastActivity]); [userId],
    [chatId], [step], [topic], [generatedTitles], [selectedTitle] and
    [generatedOutline] are as before; the next [tryAcquireLock] for that
    key succeeds; and an entry whose lock is not stale is left as it is. *)
Theorem stale_lock_reclaimed_rest_preserved
    (s : State) (now : Z) (key : string) (conv : ConversationState) (since : Z) :
  conversations s !! key = Some conv →
  isProcessing conv = Some true →
  lockAcquiredAt conv = Some since →
  now - since > 600000 →
  let s' := cleanupStaleLocks now s in
  (∃ conv', conversations s' !! key = Some conv' ∧
      isProcessing conv' = Some false ∧
      processingTask conv' = None ∧
      lockAcquiredAt conv' = None ∧
      lastActivity conv' = now ∧
      userId conv' = userId conv ∧ chatId conv' = chatId conv ∧
      step conv' = step conv ∧ topic conv' = topic conv ∧
      generatedTitles conv' = generatedTitles conv ∧
      selectedTitle conv' = selectedTitle conv ∧
      generatedOutline conv' = generatedOutline conv) ∧
  (∀ u c task now', getKey u c = key → (tryAcquireLock u c task now' s').1 = true) ∧
  (∀ key2 conv2, conversations s !! key2 = Some conv2 → stale now conv2 = false →
      conversations s' !! key2 = Some conv2) ∧
  (∀ key2, conversations s !! key2 = None → conversations s' !! key2 = None).
Proof.
  intros Hk Hp Hl Hlong s'.
  assert (Hst : stale now conv = true).
  { unfold stale, lockTimeoutMs. rewrite Hp, Hl. simpl.
    apply bool_decide_eq_true_2. lia. }
  assert (Hk' : conversations s' !! key = Some (release now conv)).
  { unfold s'. rewrite cleanupStaleLocks_lookup, Hk. simpl. by rewrite Hst. }
  split; [|split; [|split]].
  - exists (release now conv). by repeat split.
  - intros u c task now' <-. rewrite tryAcquireLock_result, Hk'. reflexivity.
  - intros key2 conv2 H2 Hns. unfold s'.
    rewrite cleanupStaleLocks_lookup, H2. simpl. by rewrite Hns.
  - intros key2 H2. unfold s'. by rewrite cleanupStaleLocks_lookup, H2.
Qed.

Lemma stale_lock_witness :
  let s := (tryAcquireLock "7" 1 titles 0 init).2 in
  (tryAcquireLock "7" 1 outline 700000 (cleanupStaleLocks 600001 s)).1 = true.
Proof.
  intros s.
  assert (Hk : conversations s !! getKey "7" 1 = Some (acquire titles 0 (fresh "7" 1 0)))
    by (vm_compute; reflexivity).
  assert (Hlong : 600001 - 0 > 600000) by lia.
  exact (proj1 (proj2 (stale_lock_reclaimed_rest_preserved
                         s 600001 (getKey "7" 1) _ 0 Hk eq_refl eq_refl Hlong))
           "7" 1 outline 700000 eq_refl).
Defined.

Lemma holdsAt_heldBy key task since last s :
  holdsAt key task since last s → heldBy key task since s.
Proof. intros (conv & ? & ? & ? & ? & ?). exists conv. by repeat split. Qed.

Lemma holdsAt_refuses key task since last s u c task' now :
  getKey u c = key → holdsAt key task since last s →
  (tryAcquireLock u c task' now s).1 = false.
Proof.
  intros <- (conv & Hk & Hp & _). rewrite tryAcquireLock_result, Hk. simpl.
  by rewrite Hp.
Qed.

Lemma touchesLock_false upd :
  touchesLock upd = false →
  u_isProcessing upd = None ∧ u_processingTask upd = None ∧ u_lockAcquiredAt upd = None.
Proof.
  unfold touchesLock. intros H.
  apply orb_false_elim in H as [H H3]. apply orb_false_elim in H as [H1 H2].
  apply bool_decide_eq_false in H1, H2, H3.
  repeat split; match goal with |- ?x = None => destruct x; [|done] end;
    exfalso; eauto.
Qed.

Local Ltac close_hold := repeat split; simpl in *; try done.

(** One call that does not end the hold: the lock stays with its holder,
    the last activity moves as [activity] says, and an attempt on the key
    is refused. *)
Lemma exec_keeps_hold key task since last now o s :
  keeps key o = true →
  match o with
  | OpCleanupStaleLocks => now - since ≤ lockTimeoutMs
  | OpCleanup => now - last ≤ inactivityTimeoutMs
  | _ => True
  end →
  holdsAt key task since last s →
  holdsAt key task since (activity key now o last) (exec now o s).2 ∧
  (∀ u c t, o = OpTryAcquire u c t → getKey u c = key → (exec now o s).1 = Some false).
Proof.
  intros Hkeep Hsweep Hold.
  pose proof Hold as (conv & Hk & Hp & Ht & Hl & Hact).
  destruct o as [u c|u c upd|u c t|u c|u c| | |]; cbn [exec keeps activity fst snd] in *.
  - split; [|discriminate].
    destruct (decide (getKey u c = key)) as [<-|Hne].
    + rewrite bool_decide_eq_true_2 by done.
      exists (touch now conv). rewrite getConversation_lookup, Hk. close_hold.
    + rewrite bool_decide_eq_false_2 by done.
      exists conv. rewrite getConversation_other by done. close_hold.
  - split; [|discriminate].
    destruct (decide (getKey u c = key)) as [<-|Hne].
    + rewrite bool_decide_eq_true_2 in Hkeep |- * by done. simpl in Hkeep.
      apply negb_true_iff, touchesLock_false in Hkeep as (H1 & H2 & H3).
      exists (assign (touch now conv) upd now).
      rewrite updateConversation_lookup, Hk. simpl.
      rewrite H1, H2, H3. close_hold.
    + rewrite bool_decide_eq_false_2 by done.
      exists conv. rewrite updateConversation_other by done. close_hold.
  - destruct (tryAcquireLock u c t now s) as [b s'] eqn:E. simpl.
    assert (Hb : b = (tryAcquireLock u c t now s).1) by (by rewrite E).
    assert (Hs : s' = (tryAcquireLock u c t now s).2) by (by rewrite E).
    split.
    + destruct (decide (getKey u c = key)) as [<-|Hne].
      * rewrite bool_decide_eq_true_2 by done.
        exists (touch now conv). subst s'.
        rewrite tryAcquireLock_lookup, Hk. simpl. rewrite Hp. close_hold.
      * rewrite bool_decide_eq_false_2 by done.
        exists conv. subst s'. rewrite tryAcquireLock_other by done. close_hold.
    + intros u' c' t' [= -> -> ->] Hkey. f_equal. subst b.
      by eapply holdsAt_refuses.
  - split; [|discriminate].
    apply negb_true_iff, bool_decide_eq_false in Hkeep.
    exists conv. rewrite releaseLock_other by done. close_hold.
  - split; [|discriminate].
    apply negb_true_iff, bool_decide_eq_false in Hkeep.
    exists conv. unfold resetConversation; simpl.
    rewrite lookup_delete_ne by done. close_hold.
  - split; [|discriminate].
    exists conv. rewrite (cleanup_lookup now s key conv); [close_hold|done|].
    unfold inactive. apply bool_decide_eq_false_2. lia.
  - split; [|discriminate].
    exists conv. rewrite cleanupStaleLocks_lookup, Hk. simpl.
    assert (Hns : stale now conv = false).
    { unfold stale. rewrite Hp, Hl. simpl. apply bool_decide_eq_false_2. lia. }
    rewrite Hns. close_hold.
  - split; [|discriminate].
    exists conv. unfold cleanupOldLockPromises; simpl. close_hold.
Qed.

Lemma run_keeps_hold key task since last (mid : list (Z * Op)) s :
  quiet key since last mid = true →
  holdsAt key task since last s →
  (∃ last', holdsAt key task since last' (run mid s).2) ∧
  (∀ i now u c t, mid !! i = Some (now, OpTryAcquire u c t) → getKey u c = key →
     (run mid s).1 !! i = Some (Some false)).
Proof.
  revert last s. induction mid as [|[now o] rest IH]; intros last s Hq Hold; simpl.
  - split; [by eauto|]. intros i ? ? ? ? Hi. by rewrite lookup_nil in Hi.
  - simpl in Hq. apply andb_true_iff in Hq as [Hq Hrest].
    apply andb_true_iff in Hq as [Hkeep Hsweep].
    assert (Hsweep' : match o with
                      | OpCleanupStaleLocks => now - since ≤ lockTimeoutMs
                      | OpCleanup => now - last ≤ inactivityTimeoutMs
                      | _ => True
                      end).
    { destruct o; try done; by apply Z.leb_le. }
    destruct (exec_keeps_hold key task since last now o s Hkeep Hsweep' Hold)
      as [Hold1 Hres].
    destruct (exec now o s) as [r s1] eqn:E1. simpl in *.
    destruct (IH _ s1 Hrest Hold1) as [Hold2 Hlater].
    destruct (run rest s1) as [rs s2] eqn:E2. simpl in *.
    split; [done|].
    intros [|i] now' u c t Hi Hkey; simpl in *.
    + injection Hi as -> ->. f_equal. by eapply Hres.
    + by eapply Hlater.
Qed.

(** C1, as the code has it.  From any state the store reaches, once
    [tryAcquireLock] has returned true for a key at time [since], the lock
    stays with the call that won along every sequence of further calls on
    the store, for any keys, at any times however late, in which the hold
    is not ended: no [releaseLock] and no [resetConversation] of that key,
    no update that overwrites its lock fields, no sweep of stale locks
    later than ten minutes after the acquisition and no sweep of inactive
    conversations later than one hour after the last activity of the key.
    Every [tryAcquireLock] for that key in the sequence returns false; the
    conversation has [isProcessing = true] with the one [processingTask]
    of the call that won; a further attempt, at any time, is refused as
    well.  The bound on the sweep is sharp: a sweep of stale locks that
    does run later than ten minutes after the acquisition hands the lock
    to the next caller. *)
Theorem lock_exclusive_until_release
    (before mid : list (Z * Op)) (u : string) (c : Z) (task : Task) (since : Z) :
  let s0 := (run before init).2 in
  (tryAcquireLock u c task since s0).1 = true →
  quiet (getKey u c) since since mid = true →
  let s1 := (tryAcquireLock u c task since s0).2 in
  (∀ i now u' c' task', mid !! i = Some (now, OpTryAcquire u' c' task') →
     getKey u' c' = getKey u c → (run mid s1).1 !! i = Some (Some false)) ∧
  heldBy (getKey u c) task since (run mid s1).2 ∧
  (∀ task' now', (tryAcquireLock u c task' now' (run mid s1).2).1 = false) ∧
  (∀ task' now', now' - since > lockTimeoutMs →
     (tryAcquireLock u c task' now' (cleanupStaleLocks now' (run mid s1).2)).1 = true).
Proof.
  intros s0 Hwon Hmid s1.
  assert (Hold : holdsAt (getKey u c) task since since s1).
  { unfold s1. rewrite tryAcquireLock_result in Hwon.
    apply negb_true_iff in Hwon.
    eexists. rewrite tryAcquireLock_lookup. simpl. rewrite Hwon.
    split; [reflexivity|]. close_hold. }
  destruct (run_keeps_hold _ _ _ _ mid s1 Hmid Hold) as [[last' Hold2] Hres].
  split; [exact Hres|]. split; [by eapply holdsAt_heldBy|].
  split; [intros task' now'; by eapply holdsAt_refuses|].
  intros task' now' Hlate. destruct Hold2 as (conv & Hk & Hp & Ht & Hl & _).
  rewrite tryAcquireLock_result, cleanupStaleLocks_lookup, Hk. simpl.
  assert (Hst : stale now' conv = true).
  { unfold stale. rewrite Hp, Hl. simpl. by apply bool_decide_eq_true_2. }
  by rewrite Hst.
Qed.

Lemma lock_exclusive_witness :
  let mid := [(10, OpTryAcquire "7" 1 outline); (20, OpCleanupStaleLocks);
              (700000, OpUpdate "7" 1 no_updates); (700001, OpCleanup);
              (900000, OpTryAcquire "7" 1 article)] in
  (run mid (tryAcquireLock "7" 1 titles 0 (run [] init).2).2).1 !! 4%nat = Some (Some false).
Proof.
  intros mid.
  assert (Hwon : (tryAcquireLock "7" 1 titles 0 (run [] init).2).1 = true)
    by (vm_compute; reflexivity).
  assert (Hmid : quiet (getKey "7" 1) 0 0 mid = true) by (vm_compute; reflexivity).
  exact (proj1 (lock_exclusive_until_release [] mid "7" 1 titles 0 Hwon Hmid)
           4%nat 900000 "7" 1 article eq_refl eq_refl).
Defined.

(** C1 as stated fails: a second [tryAcquireLock] for the same key returns
    true with no [releaseLock] in between, after [resetConversation] (the
    cancel command) and after the sweep has reclaimed a lock held for more
    than ten minutes. *)
Lemma lock_reopened_without_release :
  (run [(0, OpTryAcquire "7" 1 titles); (10, OpReset "7" 1);
        (20, OpTryAcquire "7" 1 titles)] init).1
    = [Some true; None; Some true] ∧
  (run [(0, OpTryAcquire "7" 1 titles); (600001, OpCleanupStaleLocks);
        (600002, OpTryAcquire "7" 1 outline)] init).1
    = [Some true; None; Some true].
Proof. split; vm_compute; reflexivity. Qed.

End ConversationStore.

(** * Properties of the rate limiter *)
Section RateLimit.
Import RateLimiter.

Variable config : Config.
Variable N : nat.
Hypothesis limiting : enabled config = true.
Hypothesis limit : maxRequestsPerMinute config = Z.of_nat N.

Implicit Types (limits : gmap string RateLimitInfo) (u : string).

Lemma ceil_seconds_pos ms : 0 < ms → 0 < ceil_seconds ms.
Proof.
  intros H. unfold ceil_seconds.
  apply Z.div_str_pos. lia.
Qed.

Lemma rollWindow_expired now l :
  now - windowStart l >= windowDuration →
  rollWindow now l = mkRateLimitInfo (rl_userId l) 0 now.
Proof. intros H. unfold rollWindow. by rewrite bool_decide_eq_true_2. Qed.

Lemma rollWindow_live now l :
  now - windowStart l < windowDuration → rollWindow now l = l.
Proof. intros H. unfold rollWindow. rewrite bool_decide_eq_false_2; [done|lia]. Qed.

Lemma checkLimit_opening limits u t0 :
  (1 ≤ N)%nat → opensWindow limits u t0 →
  allowed (checkLimit config u t0 limits).1 = true ∧
  inWindow (checkLimit config u t0 limits).2 u t0 1.
Proof.
  intros HN Hopen. unfold checkLimit, opensWindow in *. rewrite limiting, limit. simpl.
  destruct (limits !! u) as [l|].
  - rewrite rollWindow_expired by done. simpl.
    rewrite bool_decide_eq_false_2 by lia. simpl.
    split; [done|]. eexists. rewrite lookup_insert_eq. by repeat split.
  - rewrite rollWindow_live by (unfold windowDuration; simpl; lia). simpl.
    rewrite bool_decide_eq_false_2 by lia. simpl.
    split; [done|]. eexists. rewrite lookup_insert_eq. by repeat split.
Qed.

Lemma checkLimit_within limits u t0 k now :
  inWindow limits u t0 k → now - t0 < windowDuration → k < Z.of_nat N →
  allowed (checkLimit config u now limits).1 = true ∧
  inWindow (checkLimit config u now limits).2 u t0 (k + 1).
Proof.
  intros (l & Hl & Hk & Ht) Hnow Hlt. unfold checkLimit.
  rewrite limiting, limit, Hl. simpl.
  rewrite rollWindow_live by lia.
  rewrite bool_decide_eq_false_2 by lia. simpl.
  split; [done|]. eexists. rewrite lookup_insert_eq.
  repeat split; simpl; [lia|done].
Qed.

Lemma checkLimit_exceeded limits u t0 k now :
  inWindow limits u t0 k → now - t0 < windowDuration → Z.of_nat N ≤ k →
  allowed (checkLimit config u now limits).1 = false ∧
  (∃ r, retryAfter (checkLimit config u now limits).1 = Some r ∧ 0 < r) ∧
  inWindow (checkLimit config u now limits).2 u t0 k.
Proof.
  intros (l & Hl & Hk & Ht) Hnow Hge. unfold checkLimit.
  rewrite limiting, limit, Hl. simpl.
  rewrite rollWindow_live by lia.
  rewrite bool_decide_eq_true_2 by lia. simpl.
  split; [done|]. split.
  - eexists. split; [reflexivity|]. apply ceil_seconds_pos. lia.
  - exists l. by rewrite lookup_insert_eq.
Qed.

Lemma checkLimit_rollover limits u t0 k now :
  (1 ≤ N)%nat → inWindow limits u t0 k → now - t0 >= windowDuration →
  (∀ l, limits !! u = Some l →
     requestCount (rollWindow now l) = 0 ∧ windowStart (rollWindow now l) = now) ∧
  allowed (checkLimit config u now limits).1 = true ∧
  inWindow (checkLimit config u now limits).2 u now 1.
Proof.
  intros HN (l & Hl & Hk & Ht) Hnow. split.
  - intros l' Hl'. rewrite Hl in Hl'. injection Hl' as <-.
    by rewrite rollWindow_expired by lia.
  - unfold checkLimit. rewrite limiting, limit, Hl. simpl.
    rewrite rollWindow_expired by lia. simpl.
    rewrite bool_decide_eq_false_2 by lia. simpl.
    split; [done|]. eexists. rewrite lookup_insert_eq. by repeat split.
Qed.

Lemma calls_within limits u t0 k (times : list Z) :
  inWindow limits u t0 k →
  Forall (λ t, t - t0 < windowDuration) times →
  k + Z.of_nat (length times) ≤ Z.of_nat N →
  Forall (λ r, allowed r = true) (calls config u times limits).1 ∧
  length (calls config u times limits).1 = length times ∧
  inWindow (calls config u times limits).2 u t0 (k + Z.of_nat (length times)).
Proof.
  revert limits k. induction times as [|t rest IH]; intros limits k Hin Hall Hle; simpl.
  - split; [constructor|]. split; [done|]. by rewrite Z.add_0_r.
  - apply Forall_cons in Hall as [Ht Hall]. simpl in Hle.
    destruct (checkLimit_within limits u t0 k t Hin Ht) as [Hal Hin1]; [lia|].
    destruct (checkLimit config u t limits) as [r limits1]. simpl in *.
    destruct (IH limits1 (k + 1) Hin1 Hall) as (Hrs & Hlen & Hin2); [lia|].
    destruct (calls config u rest limits1) as [rs limits2]. simpl in *.
    split; [by constructor|]. split; [by f_equal|].
    replace (k + Z.of_nat (S (length rest)))
      with (k + 1 + Z.of_nat (length rest)) by lia.
    done.
Qed.

(** C6.  Rate limiting is enabled with a limit of [N >= 1] requests per
    minute (the range the configuration accepts).  For every user, when a
    call at [t0] opens a window, the first [N] calls made within 60 seconds
    of [t0] are all allowed; the next call within those 60 seconds is
    refused with a positive [retryAfter]; and a call made once 60 seconds
    have passed since [t0] finds the counter reset to 0 with the window
    restarted at that call, and is allowed (it is the first request counted
    in the new window). *)
Theorem rate_limit_window
    (limits : gmap string RateLimitInfo) (u : string) (t0 : Z) (later : list Z)
    (tNext tAfter : Z) :
  (1 ≤ N)%nat →
  opensWindow limits u t0 →
  length (t0 :: later) = N →
  Forall (λ t, t - t0 < 60000) later →
  tNext - t0 < 60000 →
  tAfter - t0 >= 60000 →
  let first := calls config u (t0 :: later) limits in
  let next := checkLimit config u tNext first.2 in
  let after := checkLimit config u tAfter next.2 in
  (length first.1 = N ∧ Forall (λ r, allowed r = true) first.1) ∧
  (allowed next.1 = false ∧ ∃ r, retryAfter next.1 = Some r ∧ 0 < r) ∧
  ((∀ l, next.2 !! u = Some l →
      requestCount (rollWindow tAfter l) = 0 ∧ windowStart (rollWindow tAfter l) = tAfter) ∧
   allowed after.1 = true ∧
   inWindow after.2 u tAfter 1).
Proof.
  intros HN Hopen Hlen Hlater Hnext Hafter first next after.
  destruct (checkLimit_opening limits u t0 HN Hopen) as [Hal0 Hin0].
  assert (Hfirst : Forall (λ r, allowed r = true) first.1 ∧ length first.1 = N ∧
                   inWindow first.2 u t0 (Z.of_nat N)).
  { unfold first. simpl in *.
    destruct (checkLimit config u t0 limits) as [r0 limits0]. simpl in *.
    destruct (calls_within limits0 u t0 1 later Hin0 Hlater) as (Hrs & Hl & Hin); [lia|].
    destruct (calls config u later limits0) as [rs limits1]. simpl in *.
    split; [by constructor|]. split; [lia|].
    replace (Z.of_nat N) with (1 + Z.of_nat (length later)) by lia. done. }
  destruct Hfirst as (Hall & HlenN & HinN).
  destruct (checkLimit_exceeded first.2 u t0 (Z.of_nat N) tNext HinN Hnext)
    as (Hrej & Hretry & HinN'); [lia|].
  destruct (checkLimit_rollover next.2 u t0 (Z.of_nat N) tAfter HN HinN' Hafter)
    as (Hreset & Hal & Hin1).
  split; [done|]. split; [done|]. split; [done|]. by split.
Qed.

End RateLimit.

Lemma rate_limit_window_witness :
  let config := RateLimiter.mkConfig true 2 in
  let first := RateLimiter.calls config "7" [1000; 2000] ∅ in
  let next := RateLimiter.checkLimit config "7" 3000 first.2 in
  RateLimiter.allowed next.1 = false ∧
  ∃ r, RateLimiter.retryAfter next.1 = Some r ∧ 0 < r.
Proof.
  intros config first next.
  refine (proj1 (proj2 (rate_limit_window config 2 eq_refl eq_refl ∅ "7" 1000 [2000]
                          3000 61000 _ _ _ _ _ _))).
  - lia.
  - vm_compute; exact I.
  - reflexivity.
  - repeat constructor.
  - lia.
  - lia.
Defined.

(** * Properties of the retry helper and of the delivery sender *)
Section Delivery.
Import Webhook.

Variables (url taskName : string) (chatId : Z).

Local Abbreviation posted := (posted url).
Local Abbreviation notified := (notified chatId).
Local Abbreviation schedule := (schedule url).

Lemma accepted_dec env n : {accepted env n} + {¬ accepted env n}.
Proof.
  unfold accepted. destruct (http env n) as [status|c msg].
  - destruct (decide (status = 200)) as [->|Hne]; [by left|right; congruence].
  - right; discriminate.
Defined.

Lemma attempt_accepted payload env w :
  accepted env (posts w) →
  attempt url payload env w = (inr 200, posted (prop payload "data") w).
Proof.
  unfold accepted. intros H.
  unfold attempt, mbind, M_bind, try_, axios_post. rewrite H. reflexivity.
Qed.

Lemma attempt_not_accepted payload env w :
  ¬ accepted env (posts w) →
  ∃ e, attempt url payload env w = (inl e, posted (prop payload "data") w).
Proof.
  unfold accepted. intros H.
  unfold attempt, mbind, M_bind, try_, axios_post.
  destruct (http env (posts w)) as [status|c msg]; simpl.
  - destruct ((200 <=? status) && (status <? 300)) eqn:E2xx; simpl.
    + destruct (status =? 200) eqn:E200; simpl.
      * apply Z.eqb_eq in E200. subst. done.
      * unfold throw. simpl. eauto.
    + unfold throw. repeat case_match; eauto.
  - unfold throw. repeat case_match; simpl; eauto.
Qed.

(** A response outside 2xx and a transport error are failed attempts. *)
Lemma rejected_not_accepted env n : rejected env n → ¬ accepted env n.
Proof.
  unfold rejected, accepted. intros H E. rewrite E in H. lia.
Qed.

Lemma loop_returns {T} fuel a mr bd md tn (fn : M T) le env w v w1 :
  fn env w = (inr v, w1) →
  Retry.loop (S fuel) a mr bd md tn fn le env w = (inr v, w1).
Proof.
  intros H. simpl. unfold mbind, M_bind, try_. rewrite H. reflexivity.
Qed.

Lemma loop_retries {T} fuel a mr bd md tn (fn : M T) le env w e w1 :
  fn env w = (inl e, w1) →
  Retry.loop (S fuel) a mr bd md tn fn le env w =
    Retry.loop fuel (a + 1) mr bd md tn fn (Some e) env
      (if a <? mr then delayed (Retry.retryDelay bd md a) w1 else w1).
Proof.
  intros H. simpl. unfold mbind, M_bind, try_. rewrite H.
  destruct (a <? mr); reflexivity.
Qed.

Lemma loop_gives_up {T} a mr bd md tn (fn : M T) e env w :
  Retry.loop 0 a mr bd md tn fn (Some e) env w = (inl e, w).
Proof. reflexivity. Qed.

(** What [withRetry] does with the delivery attempt: [k] failed attempts,
    each followed by a 3000 ms delay and a further attempt, for some
    [k <= 3]; then either the attempt number [k + 1] is accepted, or
    [k = 3], the fourth attempt has failed too and its error is thrown. *)
Lemma withRetry_attempts payload tn env w :
  let body := prop payload "data" in
  let out := Retry.withRetry (attempt url payload) (options tn) env w in
  ∃ k : nat, (k ≤ 3)%nat ∧
    (∀ i, (i < k)%nat → ¬ accepted env (posts w + i)) ∧
    trace out.2 = trace w ++ schedule body 3000 k ∧
    posts out.2 = (posts w + k + 1)%nat ∧
    store out.2 = store w ∧
    ((accepted env (posts w + k) ∧ out.1 = inr 200) ∨
     (k = 3%nat ∧ ¬ accepted env (posts w + 3) ∧ ∃ e, out.1 = inl e)).
Proof.
  intros body out. unfold out, Retry.withRetry, options, maxRetries, delayMs.
  cbn [Retry.maxRetries Retry.baseDelay Retry.maxDelay Retry.taskName default from_option].
  unfold id.
  change (Z.to_nat (3 + 1)) with 4%nat.
  assert (Hi : ∀ (P : nat → Prop) k, (∀ i, (i < S k)%nat → P i) ↔ (∀ i, (i < k)%nat → P i) ∧ P k).
  { intros P k. split.
    - intros H. split; [intros i Hi; apply H; lia|apply H; lia].
    - intros [H Hk] i Hi. destruct (decide (i = k)) as [->|]; [done|apply H; lia]. }
  destruct (accepted_dec env (posts w)) as [A0|A0].
  { exists 0%nat. rewrite (loop_returns _ _ _ _ _ _ _ _ _ _ _ _ (attempt_accepted payload env w A0)).
    rewrite !Nat.add_0_r. simpl. repeat split; try done; try lia. by left. }
  destruct (attempt_not_accepted payload env w A0) as [e0 E0].
  rewrite (loop_retries _ _ _ _ _ _ _ _ _ _ _ _ E0).
  change (0 <? 3) with true. cbv iota. change (Retry.retryDelay 3000 3000 0) with 3000.
  set (w1 := delayed 3000 (posted body w)).
  destruct (accepted_dec env (posts w1)) as [A1|A1].
  { exists 1%nat. rewrite (loop_returns _ _ _ _ _ _ _ _ _ _ _ _ (attempt_accepted payload env w1 A1)).
    simpl in *. rewrite <- !app_assoc. simpl. rewrite !Nat.add_1_r.
    repeat split; try done; try lia.
    - intros i Hi'. assert (i = 0%nat) as -> by lia. by rewrite Nat.add_0_r.
    - by left. }
  destruct (attempt_not_accepted payload env w1 A1) as [e1 E1].
  rewrite (loop_retries _ _ _ _ _ _ _ _ _ _ _ _ E1).
  change (0 + 1 <? 3) with true. cbv iota.
  change (Retry.retryDelay 3000 3000 (0 + 1)) with 3000.
  set (w2 := delayed 3000 (posted body w1)).
  destruct (accepted_dec env (posts w2)) as [A2|A2].
  { exists 2%nat. rewrite (loop_returns _ _ _ _ _ _ _ _ _ _ _ _ (attempt_accepted payload env w2 A2)).
    simpl in *. rewrite <- !app_assoc. simpl.
    replace (posts w + 2)%nat with (S (S (posts w))) by lia.
    repeat split; try done; try lia.
    - intros i Hi'. destruct i as [|[|i]]; [by rewrite Nat.add_0_r|by rewrite Nat.add_1_r|lia].
    - by left. }
  destruct (attempt_not_accepted payload env w2 A2) as [e2 E2].
  rewrite (loop_retries _ _ _ _ _ _ _ _ _ _ _ _ E2).
  change (0 + 1 + 1 <? 3) with true. cbv iota.
  change (Retry.retryDelay 3000 3000 (0 + 1 + 1)) with 3000.
  set (w3 := delayed 3000 (posted body w2)).
  assert (Hfirst : ∀ i, (i < 3)%nat → ¬ accepted env (posts w + i)).
  { intros i Hi'. destruct i as [|[|[|i]]]; simpl in *;
      [by rewrite Nat.add_0_r|by rewrite Nat.add_1_r| |lia].
    by replace (posts w + 2)%nat with (S (S (posts w))) by lia. }
  exists 3%nat.
  replace (posts w + 3)%nat with (S (S (S (posts w)))) by lia.
  destruct (accepted_dec env (posts w3)) as [A3|A3].
  { rewrite (loop_returns _ _ _ _ _ _ _ _ _ _ _ _ (attempt_accepted payload env w3 A3)).
    simpl in *. rewrite <- !app_assoc. simpl.
    repeat split; try done; try lia. by left. }
  destruct (attempt_not_accepted payload env w3 A3) as [e3 E3].
  rewrite (loop_retries _ _ _ _ _ _ _ _ _ _ _ _ E3).
  change (0 + 1 + 1 + 1 <? 3) with false. cbv iota.
  rewrite loop_gives_up.
  simpl in *. rewrite <- !app_assoc. simpl.
  repeat split; try done; try lia. right. eauto.
Qed.

Lemma validated_is_defined payload :
  validateWebhookPayload payload = inr tt → payload ≠ JNull ∧ payload ≠ JUndefined.
Proof. intros H. split; intros ->; discriminate H. Qed.

Lemma send_validated payload env w :
  validateWebhookPayload payload = inr tt →
  sendWebhookWithRetry url payload taskName chatId env w =
    match Retry.withRetry (attempt url payload) (options ("Gửi webhook " +:+ taskName)) env w with
    | (inr _, w1) => (inr tt, w1)
    | (inl error, w1) =>
        (inr tt, notified (MsgDeliveryFailed taskName url 3 (message error)) w1)
    end.
Proof.
  intros Hv. destruct (validated_is_defined payload Hv) as [Hn Hu].
  unfold sendWebhookWithRetry.
  destruct payload; try done; rewrite Hv;
    unfold mbind, M_bind, try_, options;
    destruct (Retry.withRetry _ _ env w) as [[e|v] w1]; reflexivity.
Qed.

Lemma countPosts_schedule body ms k : countPosts (schedule body ms k) = S k.
Proof.
  unfold countPosts. induction k as [|k IH]; simpl; [done|].
  rewrite List.filter_app, length_app, IH. simpl. lia.
Qed.

Lemma countNotices_schedule body ms k : countNotices (schedule body ms k) = 0%nat.
Proof.
  unfold countNotices. induction k as [|k IH]; simpl; [done|].
  rewrite List.filter_app, length_app, IH. reflexivity.
Qed.

(** Every delay of the schedule is the given one. *)
Lemma delays_schedule body ms k e :
  e ∈ schedule body ms k → isDelay e = true → e = EvDelay ms.
Proof.
  induction k as [|k IH]; simpl.
  - intros ->%list_elem_of_singleton. discriminate.
  - rewrite elem_of_app. intros [H|H]; [by apply IH|].
    apply elem_of_cons in H as [->|H]; [done|].
    apply list_elem_of_singleton in H as ->. discriminate.
Qed.

(** C3, as the code has it.  For every payload that passes validation,
    whatever the endpoint does: [sendWebhookWithRetry] returns normally (no
    exception reaches the caller); it makes at most 4 delivery attempts (a
    first one and up to 3 retries), each POSTing [payload.data]; between
    consecutive attempts there is exactly one delay, always of 3000 ms; an
    attempt is followed by another one exactly when it failed and fewer
    than 4 have been made; when the fourth attempt fails too, exactly one
    failure notice is sent to the user, after the last attempt, and no
    notice is sent otherwise.  An attempt counts as accepted only when the
    endpoint answers 200: a response outside 2xx and a transport error are
    failed attempts. *)
Theorem delivery_four_attempts_fixed_delay (payload : JSVal) (env : Env) (w : World) :
  validateWebhookPayload payload = inr tt →
  let body := prop payload "data" in
  let out := sendWebhookWithRetry url payload taskName chatId env w in
  out.1 = inr tt ∧
  (∀ n, rejected env n → ¬ accepted env n) ∧
  ∃ (k : nat) (evs : list Event),
    trace out.2 = trace w ++ evs ∧
    (k ≤ 3)%nat ∧ countPosts evs = S k ∧ (countPosts evs ≤ 4)%nat ∧
    (∀ i, (i < k)%nat → ¬ accepted env (posts w + i)) ∧
    ((accepted env (posts w + k) ∧ evs = schedule body 3000 k ∧ countNotices evs = 0%nat) ∨
     (k = 3%nat ∧ ¬ accepted env (posts w + 3) ∧
      (∃ err, evs = schedule body 3000 3 ++
                    [EvSendMessage chatId (MsgDeliveryFailed taskName url 3 err)]) ∧
      countNotices evs = 1%nat)).
Proof.
  intros Hv body out. unfold out. rewrite (send_validated payload env w Hv).
  destruct (withRetry_attempts payload ("Gửi webhook " +:+ taskName) env w)
    as (k & Hk & Hfail & Htrace & Hposts & Hstore & Hend).
  fold body in Htrace.
  destruct (Retry.withRetry _ _ env w) as [[e|v] w1]; simpl in *.
  - split; [done|]. split; [apply rejected_not_accepted|].
    destruct Hend as [[_ [=]]|(-> & Hlast & _)].
    exists 3%nat, (schedule body 3000 3 ++
                   [EvSendMessage chatId (MsgDeliveryFailed taskName url 3 (message e))]).
    rewrite Htrace, <- app_assoc.
    assert (Hc : countPosts (schedule body 3000 3 ++
              [EvSendMessage chatId (MsgDeliveryFailed taskName url 3 (message e))]) = 4%nat)
      by reflexivity.
    repeat split; try done; try lia.
    right. repeat split; try done. eauto.
  - split; [done|]. split; [apply rejected_not_accepted|].
    destruct Hend as [[Hacc _]|(_ & _ & e & [=])].
    exists k, (schedule body 3000 k).
    rewrite countPosts_schedule, countNotices_schedule.
    repeat split; try done; try lia. by left.
Qed.

End Delivery.

(** ** Concrete runs of the delivery sender *)

Lemma delivery_four_attempts_witness :
  (Webhook.sendWebhookWithRetry "http://hook" readmeOutlinePayload "outline" 7
     (endpointAnswering 503) world0).1 = inr tt.
Proof.
  exact (proj1 (delivery_four_attempts_fixed_delay "http://hook" "outline" 7
                  readmeOutlinePayload (endpointAnswering 503) world0 eq_refl)).
Defined.

(** C3 as stated fails: against an endpoint that always answers 503 the
    sender POSTs four times, not at most three. *)
Lemma delivery_makes_a_fourth_attempt :
  let out := Webhook.sendWebhookWithRetry "http://hook" readmeOutlinePayload "outline" 7
               (endpointAnswering 503) world0 in
  Webhook.validateWebhookPayload readmeOutlinePayload = inr tt ∧
  countPosts (trace out.2) = 4%nat ∧
  ¬ (countPosts (trace out.2) ≤ 3)%nat.
Proof.
  assert (H : countPosts (trace (Webhook.sendWebhookWithRetry "http://hook"
                readmeOutlinePayload "outline" 7 (endpointAnswering 503) world0).2) = 4%nat)
    by (vm_compute; reflexivity).
  cbv zeta. rewrite H. split; [reflexivity|]. split; [reflexivity|lia].
Qed.

(** C2 on the code.  The README's own outline payload is the documented
    envelope and passes validation, and the one POST made to an endpoint
    that answers 200 carries [payload.data] alone, which is not the
    envelope: it has no [type], no [userId] and no [chatId].  The payload
    the controller builds fares no better: its body repeats the tag and
    the ids, but flat, next to [outline], without the [data] member. *)
Theorem delivery_posts_inner_data_only :
  let out := Webhook.sendWebhookWithRetry "http://hook" readmeOutlinePayload "outline" 7
               (endpointAnswering 200) world0 in
  let out' := Webhook.sendWebhookWithRetry "http://hook" controllerOutlinePayload "outline" 7
               (endpointAnswering 200) world0 in
  (Webhook.validateWebhookPayload readmeOutlinePayload = inr tt ∧
   isEnvelope readmeOutlinePayload = true ∧
   trace out.2 = [EvPost "http://hook" (prop readmeOutlinePayload "data")] ∧
   isEnvelope (prop readmeOutlinePayload "data") = false ∧
   prop (prop readmeOutlinePayload "data") "type" = JUndefined ∧
   prop (prop readmeOutlinePayload "data") "userId" = JUndefined ∧
   prop (prop readmeOutlinePayload "data") "chatId" = JUndefined) ∧
  (Webhook.validateWebhookPayload controllerOutlinePayload = inr tt ∧
   trace out'.2 = [EvPost "http://hook" (prop controllerOutlinePayload "data")] ∧
   isEnvelope (prop controllerOutlinePayload "data") = false ∧
   prop (prop controllerOutlinePayload "data") "data" = JUndefined).
Proof. vm_compute. repeat split; reflexivity. Qed.

(** * Properties of the provider router *)
Section Router.
Import AIRouter.

Variables (prompt : Prompt) (maxTokens timeout : Z).

Local Abbreviation callEvent := (callEvent prompt maxTokens timeout).
Local Abbreviation called := (called prompt maxTokens timeout).
Local Abbreviation backupSchedule := (backupSchedule prompt maxTokens timeout).

Lemma generateJSONCompletion_run p env w :
  generateJSONCompletion p prompt maxTokens timeout env w =
    (outcome p env w 0, called p env w).
Proof. unfold generateJSONCompletion, outcome, called. by rewrite Nat.add_0_r. Qed.

Lemma outcome_called p env w i :
  outcome p env (called p env w) i = outcome p env w (S i).
Proof. unfold outcome, called. simpl. f_equal. f_equal. lia. Qed.

Lemma outcome_delayed p env w ms i : outcome p env (delayed ms w) i = outcome p env w i.
Proof. reflexivity. Qed.

Lemma primaryLoop_step fuel attempt p env w :
  primaryLoop (S fuel) attempt p prompt maxTokens timeout env w =
    match outcome p env w 0 with
    | inr result => (inr (Some result), called p env w)
    | inl error =>
        if (attempt =? 1) && isTransientError (message error)
        then primaryLoop fuel (attempt + 1) p prompt maxTokens timeout env
               (delayed 2000 (called p env w))
        else (inl error, called p env w)
    end.
Proof.
  simpl. unfold mbind, M_bind, try_. rewrite generateJSONCompletion_run.
  destruct (outcome p env w 0) as [e|res]; [|reflexivity].
  destruct ((attempt =? 1) && isTransientError (message e)); reflexivity.
Qed.


Lemma retryLoop_step fuel attempt maxRetries p le env w :
  retryLoop (S fuel) attempt maxRetries p prompt maxTokens timeout le env w =
    match outcome p env w 0 with
    | inr result => (inr result, called p env w)
    | inl error =>
        retryLoop fuel (attempt + 1) maxRetries p prompt maxTokens timeout (Some error) env
          (if attempt <? maxRetries
           then delayed (2 ^ attempt * 1000) (called p env w)
           else called p env w)
    end.
Proof.
  simpl. unfold mbind, M_bind, try_. rewrite generateJSONCompletion_run.
  destruct (outcome p env w 0) as [e|res]; [|reflexivity].
  destruct (attempt <? maxRetries); reflexivity.
Qed.

(** [tryProviderWithRetry] with its budget of 3: [k <= 2] attempts fail, of
    whatever kind, each followed by its delay and a further attempt; the
    attempt after them succeeds, or it is the third and its error is
    thrown. *)
Lemma backup_attempts p env w :
  let out := tryProviderWithRetry p prompt maxTokens timeout 3 env w in
  ∃ k : nat, (k ≤ 2)%nat ∧
    (∀ i, (i < k)%nat → ∃ e, outcome p env w i = inl e) ∧
    trace out.2 = trace w ++ backupSchedule p k ∧
    store out.2 = store w ∧
    ((∃ res, outcome p env w k = inr res ∧ out.1 = inr res) ∨
     (k = 2%nat ∧ ∃ e, outcome p env w 2 = inl e ∧ out.1 = inl e)).
Proof.
  intros out. unfold out, tryProviderWithRetry. change (Z.to_nat 3) with 3%nat.
  rewrite retryLoop_step.
  destruct (outcome p env w 0) as [e0|res0] eqn:E0.
  2:{ exists 0%nat. simpl. repeat split; try done; try lia. left. eauto. }
  change (1 <? 3) with true. cbv iota.
  rewrite retryLoop_step, outcome_delayed, outcome_called.
  destruct (outcome p env w 1) as [e1|res1] eqn:E1.
  2:{ exists 1%nat. simpl. rewrite <- !app_assoc. simpl.
      repeat split; try done; try lia.
      - intros i Hi. assert (i = 0%nat) as -> by lia. eauto.
      - left. eauto. }
  change (1 + 1 <? 3) with true. cbv iota.
  rewrite retryLoop_step, outcome_delayed, outcome_called, outcome_delayed, outcome_called.
  exists 2%nat.
  assert (Hfail : ∀ i, (i < 2)%nat → ∃ e, outcome p env w i = inl e).
  { intros [|[|i]] Hi; [eauto|eauto|lia]. }
  destruct (outcome p env w 2) as [e2|res2] eqn:E2.
  - change (1 + 1 + 1 <? 3) with false. cbv iota. simpl.
    rewrite <- !app_assoc. simpl.
    repeat split; try done; try lia. right. eauto.
  - simpl. rewrite <- !app_assoc. simpl.
    repeat split; try done; try lia. left. eauto.
Qed.

End Router.

Lemma prefix_append (n c : string) : String.prefix n (n +:+ c) = true.
Proof.
  induction n as [|a n IH]; simpl; [by destruct c|].
  destruct (Ascii.ascii_dec a a); [exact IH|done].
Qed.

Lemma includes_prefix (n h : string) : String.prefix n h = true → includes n h = true.
Proof. intros H. destruct h; simpl in *; by rewrite H. Qed.

Lemma includes_append (n a c : string) : includes n (a +:+ n +:+ c) = true.
Proof.
  induction a as [|x a IH].
  - change (includes n (n +:+ c) = true). apply includes_prefix, prefix_append.
  - change (includes n (String x (a +:+ n +:+ c)) = true). simpl.
    rewrite IH. apply orb_true_r.
Qed.

Lemma append_assoc (a b c : string) : (a +:+ b) +:+ c = a +:+ b +:+ c.
Proof.
  induction a as [|x a IH]; [done|].
  change (String x ((a +:+ b) +:+ c) = String x (a +:+ b +:+ c)). by f_equal.
Qed.

Lemma append_empty (a : string) : a +:+ EmptyString = a.
Proof.
  induction a as [|x a IH]; [done|].
  change (String x (a +:+ EmptyString) = String x a). by f_equal.
Qed.

(** The combined error carries both messages. *)
Lemma combinedMessage_embeds p b (pm bm : string) :
  includes pm (AIRouter.combinedMessage p b pm bm) = true ∧
  includes bm (AIRouter.combinedMessage p b pm bm) = true.
Proof.
  unfold AIRouter.combinedMessage. split.
  - rewrite <- (append_assoc _ ": " (pm +:+ _)), <- (append_assoc _ (_ +:+ ": ") (pm +:+ _)).
    apply includes_append.
  - replace ("All AI providers failed. " +:+ AIRouter.providerName p +:+ ": " +:+ pm +:+ ", "
               +:+ AIRouter.providerName b +:+ ": " +:+ bm)
      with (("All AI providers failed. " +:+ AIRouter.providerName p +:+ ": " +:+ pm +:+ ", "
               +:+ AIRouter.providerName b +:+ ": ") +:+ bm +:+ EmptyString).
    + apply includes_append.
    + rewrite !append_assoc, append_empty. reflexivity.
Qed.

(** What [isTransientError] makes of the messages the provider clients
    produce: of the 5xx statuses it knows 500, 502 and 503. *)
Example transient_classification :
  AIRouter.isTransientError "Claude API error: Connection error." = true ∧
  AIRouter.isTransientError "OpenRouter request error: socket hang up" = true ∧
  AIRouter.isTransientError "OpenRouter request error: terminated" = true ∧
  AIRouter.isTransientError "OpenRouter API error: 429" = true ∧
  AIRouter.isTransientError "OpenRouter API error: 500" = true ∧
  AIRouter.isTransientError "OpenRouter API error: 503" = true ∧
  AIRouter.isTransientError "OpenRouter API error: 504" = false ∧
  AIRouter.isTransientError "OpenRouter API error: 400" = false ∧
  AIRouter.isTransientError "Claude API timeout after 300s" = false ∧
  AIRouter.isTransientError "Invalid JSON response from Claude" = false.
Proof. vm_compute. repeat split; reflexivity. Qed.


(** A transient first failure: one retry after 2000 ms, and the result is
    tagged with the primary provider. *)
Example primary_retried_once :
  let out := AIRouter.generateJSON (TitlePrompt (u16 "topic")) titles
               (backendsFlaky "Claude API error: Connection error." (TitlesData [])) world0 in
  match out.1 with
  | inr r => AIRouter.r_provider r = claude ∧ AIRouter.r_processingTime r = 3000
  | inl _ => False
  end ∧
  trace out.2 = [EvProviderCall claude (TitlePrompt (u16 "topic")) 1000 300000;
                 EvDelay 2000;
                 EvProviderCall claude (TitlePrompt (u16 "topic")) 1000 300000].
Proof. vm_compute. repeat split; reflexivity. Qed.

(** A first failure that is not transient: no retry, the backup is tried at
    once and the result is tagged with the backup provider. *)
Example backup_after_terminal_failure :
  let out := AIRouter.generateJSON (TitlePrompt (u16 "topic")) titles
               (backendsFlaky "Claude API error: 400 invalid request" (TitlesData [])) world0 in
  match out.1 with
  | inr r => AIRouter.r_provider r = openrouter
  | inl _ => False
  end ∧
  trace out.2 = [EvProviderCall claude (TitlePrompt (u16 "topic")) 1000 300000;
                 EvProviderCall openrouter (TitlePrompt (u16 "topic")) 1000 300000].
Proof. vm_compute. repeat split; reflexivity. Qed.

Section Failover.
Import AIRouter.

Variables (prompt : Prompt) (taskType : Task) (env : Env).

Local Abbreviation cfg := (config env).
Local Abbreviation primary := (defaultProvider cfg).
Local Abbreviation backup :=
  (match primary with claude => openrouter | openrouter => claude end).
Local Abbreviation maxTokens := (getMaxTokens cfg taskType).
Local Abbreviation timeout := (getTimeout cfg taskType).

Lemma backupSchedule_delays p :
  backupSchedule prompt maxTokens timeout p 2 =
    [callEvent prompt maxTokens timeout p; EvDelay 2000;
     callEvent prompt maxTokens timeout p; EvDelay 4000;
     callEvent prompt maxTokens timeout p].
Proof. reflexivity. Qed.

(** C5.  Let the primary path of a request end in a terminal failure with
    error [pe].  If the backup is disabled, [generateJSON] throws [pe]
    itself and does nothing more.  If it is enabled, the backup provider is
    invoked up to 3 times: every failed attempt, of any kind, is followed by
    a delay (2000 ms after the first, 4000 ms after the second) and a
    further attempt while the budget lasts; a success is returned tagged
    with the backup provider; and when the third attempt fails too, the
    error thrown is the combined one, whose message contains the message of
    [pe] and the message of the last backup error. *)
Theorem failover_backup_policy (w w1 : World) (pe : Exn) :
  tryPrimaryProvider primary prompt maxTokens timeout env w = (inl pe, w1) →
  let out := generateJSON prompt taskType env w in
  (backupAI cfg = false → out = (inl pe, w1)) ∧
  (backupAI cfg = true →
   ∃ k : nat, (k ≤ 2)%nat ∧
     (∀ i, (i < k)%nat → ∃ e, outcome backup env w1 i = inl e) ∧
     trace out.2 = trace w1 ++ backupSchedule prompt maxTokens timeout backup k ∧
     countCalls (backupSchedule prompt maxTokens timeout backup k) = S k ∧
     ((∃ res, outcome backup env w1 k = inr res ∧
              out.1 = inr (respond res backup (wnow out.2 - wnow w))) ∨
      (k = 2%nat ∧
       ∃ be, outcome backup env w1 2 = inl be ∧
             out.1 = inl (Error (combinedMessage primary backup (message pe) (message be))) ∧
             (∀ thrown, out.1 = inl thrown →
                includes (message pe) (message thrown) = true ∧
                includes (message be) (message thrown) = true)))).
Proof.
  intros Hprimary out.
  assert (Hout : out =
    if backupAI cfg then
      match tryProviderWithRetry backup prompt maxTokens timeout 3 env w1 with
      | (inr backupResult, w2) => (inr (respond backupResult backup (wnow w2 - wnow w)), w2)
      | (inl backupError, w2) =>
          (inl (Error (combinedMessage primary backup (message pe) (message backupError))), w2)
      end
    else (inl pe, w1)).
  { unfold out, generateJSON, mbind, M_bind, dateNow, ask, try_.
    fold cfg. fold primary. fold backup. fold maxTokens. fold timeout.
    rewrite Hprimary. destruct (backupAI cfg); [|reflexivity].
    destruct (tryProviderWithRetry backup prompt maxTokens timeout 3 env w1)
      as [[e|res] w2]; reflexivity. }
  split.
  - intros Hoff. by rewrite Hout, Hoff.
  - intros Hon. rewrite Hout, Hon.
    destruct (backup_attempts prompt maxTokens timeout backup env w1)
      as (k & Hk & Hfail & Htrace & _ & Hend).
    exists k.
    assert (Hcount : countCalls (backupSchedule prompt maxTokens timeout backup k) = S k).
    { destruct k as [|[|[|k]]]; [reflexivity..|lia]. }
    destruct (tryProviderWithRetry backup prompt maxTokens timeout 3 env w1)
      as [[e|res] w2]; simpl in *.
    + destruct Hend as [(res & _ & [=])|(-> & be & Hbe & [= ->])].
      split; [done|]. split; [done|]. split; [done|]. split; [done|].
      right. split; [done|]. exists be. split; [done|]. split; [done|].
      intros thrown [= <-]. apply combinedMessage_embeds.
    + destruct Hend as [(res' & Hres & [= ->])|(_ & be & _ & [=])].
      split; [done|]. split; [done|]. split; [done|]. split; [done|].
      left. eauto.
Qed.

End Failover.

Lemma failover_backup_witness :
  let env := backendsFailing "Claude API error: 400 invalid request" false in
  ∃ w1, AIRouter.generateJSON (TitlePrompt (u16 "topic")) titles env world0 =
          (inl (Error "Claude API error: 400 invalid request"), w1).
Proof.
  intros env.
  set (run := AIRouter.tryPrimaryProvider claude (TitlePrompt (u16 "topic")) 1000 300000
                env world0).
  assert (H : run = (inl (Error "Claude API error: 400 invalid request"), run.2))
    by (vm_compute; reflexivity).
  exists run.2.
  exact (proj1 (failover_backup_policy (TitlePrompt (u16 "topic")) titles env
                  world0 run.2 _ H) eq_refl).
Defined.

(** * Properties of the structured-output parser *)

Section Parser.
Import ClaudeService.
Context {T : Type} (JSON_parse : ustring → string + T).














End Parser.

(** The strategies on concrete model output. *)
Example parse_code_block :
  (ClaudeService.parseJSONResponse parseLiterals
     (u16 "Here you go: ```json" ++ [10%N] ++ u16 "true" ++ [10%N] ++ u16 "``` bye")).1
  = inr (JBool true).
Proof. vm_compute. reflexivity. Qed.

Example parse_whole_text :
  (ClaudeService.parseJSONResponse parseLiterals (u16 "  null ")).1 = inr JNull.
Proof. vm_compute. reflexivity. Qed.

Example parse_braces :
  (ClaudeService.parseJSONResponse parseLiterals (u16 "The answer is {} I think")).1
  = inr (JObj []).
Proof. vm_compute. reflexivity. Qed.

Example parse_brackets :
  (ClaudeService.parseJSONResponse parseLiterals (u16 "list: [] end")).1 = inr (JArr []).
Proof. vm_compute. reflexivity. Qed.


(** * Properties of the topic step *)
Section TopicStep.
Import Validation TelegramController.

Lemma validateTopic_rejects (topic : ustring) :
  ulength topic < 5 ∨ ulength topic > 200 →
  valid (validateTopic topic) = false ∧ is_Some (error (validateTopic topic)).
Proof.
  intros Hlen. unfold validateTopic.
  destruct (bool_decide (topic = []) || (ulength (trim topic) =? 0)); [by eauto|].
  destruct (ulength topic <? 5) eqn:E5; [by eauto|].
  destruct (ulength topic >? 200) eqn:E200; [by eauto|].
  apply Z.ltb_ge in E5. rewrite Z.gtb_ltb in E200. apply Z.ltb_ge in E200. lia.
Qed.

(** C8.  When the sanitized text of a message (trimmed, zero-width
    characters stripped, NFC-normalized) has fewer than 5 or more than 200
    code units, [handleTopicInput] sends the validation error to the chat
    and returns: that message is its only effect.  No provider is invoked,
    the conversation store is exactly as before, so no lock has been
    acquired and a conversation in step [waiting_topic] is still in
    [waiting_topic], with its lock fields as they were. *)
Theorem short_or_long_topic_rejected
    (chatId : Z) (userId : string) (topic : ustring) (env : Env) (w : World) :
  let sanitizedTopic := sanitizeInput (nfc env) topic in
  ulength sanitizedTopic < 5 ∨ ulength sanitizedTopic > 200 →
  let out := handleTopicInput chatId userId topic env w in
  out.1 = inr tt ∧
  (∃ err, error (validateTopic sanitizedTopic) = Some err ∧
          trace out.2 = trace w ++ [EvSendMessage chatId (MsgTopicInvalid err)]) ∧
  aiCalls out.2 = aiCalls w ∧
  store out.2 = store w ∧
  (∀ conv,
     ConversationManager.conversations (store w)
       !! ConversationManager.getKey userId chatId = Some conv →
     step conv = waiting_topic →
     ∃ conv', ConversationManager.conversations (store out.2)
                !! ConversationManager.getKey userId chatId = Some conv' ∧
              step conv' = waiting_topic ∧
              isProcessing conv' = isProcessing conv ∧
              processingTask conv' = processingTask conv).
Proof.
  intros sanitizedTopic Hlen out.
  destruct (validateTopic_rejects sanitizedTopic Hlen) as [Hinvalid [err Herr]].
  assert (Hout : out = (inr tt, mkWorld (wnow w) (aiCalls w) (posts w) (store w)
                                  (trace w ++ [EvSendMessage chatId (MsgTopicInvalid err)]))).
  { unfold out, handleTopicInput, mbind, M_bind, ask. fold sanitizedTopic.
    rewrite Hinvalid, Herr. reflexivity. }
  rewrite Hout. simpl.
  split; [done|]. split; [eauto|]. split; [done|]. split; [done|].
  intros conv Hconv Hstep. exists conv. by repeat split.
Qed.

End TopicStep.

Lemma short_topic_witness :
  (TelegramController.handleTopicInput 7 "7" (u16 "abc") (endpointAnswering 200) world0).1
  = inr tt.
Proof.
  refine (proj1 (short_or_long_topic_rejected 7 "7" (u16 "abc") (endpointAnswering 200)
                   world0 _)).
  left. vm_compute. reflexivity.
Defined.

(** The other branch does reach the lock and the provider: a valid topic
    acquires the lock for [titles] and invokes the primary provider. *)
Example valid_topic_reaches_provider :
  let out := TelegramController.handleTopicInput 7 "7" (u16 "a valid topic")
               (backendsFailing "Claude API error: 400 invalid request" false) world0 in
  aiCalls out.2 = 1%nat ∧
  (ConversationManager.conversations (store out.2) !! ConversationManager.getKey "7" 7)
    ≫= isProcessing = Some false.
Proof. vm_compute. split; reflexivity. Qed.

(** * Further properties of the conversation store *)
Section StoreMore.
Import ConversationManager.

Lemma append_cons (a : Ascii.ascii) (s t : string) : String a s +:+ t = String a (s +:+ t).
Proof. reflexivity. Qed.

Lemma hasColon_append (s t : string) : hasColon (s +:+ ":" +:+ t) = true.
Proof.
  induction s as [|a s IH]; [reflexivity|].
  rewrite append_cons. simpl. rewrite IH. apply orb_true_r.
Qed.

Lemma pretty_N_go_hasColon (x : N) (s : string) :
  hasColon s = false → hasColon (pretty_N_go x s) = false.
Proof.
  revert s. induction (N.lt_wf_0 x) as [x _ IH]; intros s Hs.
  assert (x = 0 ∨ 0 < x)%N as [->|Hpos] by lia.
  - by rewrite pretty_N_go_0.
  - rewrite pretty_N_go_step by done. apply IH; [by apply N.div_lt|].
    simpl. rewrite Hs. unfold pretty_N_char. by repeat case_match.
Qed.

Lemma pretty_N_hasColon (x : N) : hasColon (pretty x) = false.
Proof.
  unfold pretty, pretty_N. case_decide; [reflexivity|].
  by apply pretty_N_go_hasColon.
Qed.

Lemma pretty_Z_hasColon (z : Z) : hasColon (pretty z) = false.
Proof.
  destruct z as [|p|p]; [reflexivity| |].
  - apply (pretty_N_hasColon (N.pos p)).
  - change (hasColon (String (Ascii.ascii_of_nat 45) (pretty (N.pos p))) = false).
    cbn [hasColon]. rewrite bool_decide_eq_false_2 by done. simpl.
    apply (pretty_N_hasColon (N.pos p)).
Qed.

Lemma key_split (u u' t t' : string) :
  hasColon t = false → hasColon t' = false →
  u +:+ ":" +:+ t = u' +:+ ":" +:+ t' → u = u' ∧ t = t'.
Proof.
  intros Ht Ht'. revert u'. induction u as [|a u IH]; intros [|a' u'] H.
  - change (String colon t = String colon t') in H. by injection H.
  - change (String colon t = String a' (u' +:+ ":" +:+ t')) in H. injection H as _ H.
    rewrite H, hasColon_append in Ht. discriminate.
  - change (String a (u +:+ ":" +:+ t) = String colon t') in H. injection H as _ H.
    rewrite <- H, hasColon_append in Ht'. discriminate.
  - change (String a (u +:+ ":" +:+ t) = String a' (u' +:+ ":" +:+ t')) in H.
    injection H as -> H. destruct (IH _ H) as [-> ->]. done.
Qed.

Lemma getKey_inj u c u' c' : getKey u c = getKey u' c' → u = u' ∧ c = c'.
Proof.
  unfold getKey. intros H.
  apply key_split in H as [-> H]; [|apply pretty_Z_hasColon..].
  split; [done|]. by apply (inj pretty).
Qed.

(** X1.  Two different pairs (userId, chatId) never share a key, whatever
    the user id looks like, so that a call made for one pair
    ([getConversation], [updateConversation], [tryAcquireLock],
    [releaseLock], [resetConversation]) leaves the entry of every other
    pair exactly as it was. *)
Theorem pairs_are_isolated :
  (∀ u c u' c', getKey u c = getKey u' c' → u = u' ∧ c = c') ∧
  (∀ o now s u c u' c',
     opPair o = Some (u, c) → (u, c) ≠ (u', c') →
     conversations (exec now o s).2 !! getKey u' c' = conversations s !! getKey u' c').
Proof.
  split; [apply getKey_inj|].
  intros o now s u c u' c' Hpair Hne.
  assert (Hkey : getKey u c ≠ getKey u' c').
  { intros H. apply getKey_inj in H as [-> ->]. done. }
  destruct o as [u0 c0|u0 c0 upd|u0 c0 t|u0 c0|u0 c0| | |];
    simpl in Hpair; try discriminate; injection Hpair as -> ->; cbn [exec snd].
  - by apply getConversation_other.
  - by apply updateConversation_other.
  - destruct (tryAcquireLock u c t now s) as [b s'] eqn:E. cbn [snd].
    replace s' with (tryAcquireLock u c t now s).2 by (by rewrite E).
    by apply tryAcquireLock_other.
  - by apply releaseLock_other.
  - unfold resetConversation; simpl. by rewrite lookup_delete_ne.
Qed.

(** X2.  [releaseLock] frees the lock and keeps the content: on an existing
    entry it clears the three lock fields and leaves the identity, the
    step, the topic, the titles, the selected title and the outline as they
    were; a [tryAcquireLock] that follows succeeds, whoever held the lock;
    and releasing twice is the same as releasing once. *)
Theorem release_frees_and_keeps_content
    (u : string) (c : Z) (t1 t2 : Z) (task : Task) (s : State) :
  (∀ conv, conversations s !! getKey u c = Some conv →
     ∃ conv', conversations (releaseLock u c t1 s) !! getKey u c = Some conv' ∧
        isProcessing conv' = Some false ∧ processingTask conv' = None ∧
        lockAcquiredAt conv' = None ∧ lastActivity conv' = t1 ∧
        userId conv' = userId conv ∧ chatId conv' = chatId conv ∧
        step conv' = step conv ∧ topic conv' = topic conv ∧
        generatedTitles conv' = generatedTitles conv ∧
        selectedTitle conv' = selectedTitle conv ∧
        generatedOutline conv' = generatedOutline conv) ∧
  (tryAcquireLock u c task t2 (releaseLock u c t1 s)).1 = true ∧
  releaseLock u c t2 (releaseLock u c t1 s) = releaseLock u c t2 s.
Proof.
  split; [|split].
  - intros conv Hconv. exists (release t1 conv). unfold releaseLock; simpl.
    rewrite Hconv, lookup_insert_eq. by repeat split.
  - rewrite tryAcquireLock_result. unfold releaseLock; simpl.
    destruct (conversations s !! getKey u c) as [conv|] eqn:E.
    + by rewrite lookup_insert_eq.
    + by rewrite E.
  - unfold releaseLock; simpl. rewrite delete_delete_eq.
    destruct (conversations s !! getKey u c) as [conv|] eqn:E.
    + rewrite lookup_insert_eq, insert_insert_eq. reflexivity.
    + rewrite E. reflexivity.
Qed.

(** X3.  [resetConversation] returns a pair to the baseline: its entry and
    its lock bookkeeping are gone, every other entry is untouched,
    resetting twice is resetting once; the next [getConversation] answers
    with a fresh entry in step [idle], and the next [tryAcquireLock]
    succeeds even when the lock was held before the reset. *)
Theorem reset_returns_to_baseline
    (u : string) (c : Z) (now : Z) (task : Task) (s : State) :
  let s' := resetConversation u c s in
  conversations s' !! getKey u c = None ∧
  locks s' !! getKey u c = None ∧
  (∀ key, key ≠ getKey u c → conversations s' !! key = conversations s !! key) ∧
  resetConversation u c s' = s' ∧
  (getConversation u c now s').1 = fresh u c now ∧
  (tryAcquireLock u c task now s').1 = true ∧
  isProcessing <$> conversations (tryAcquireLock u c task now s').2 !! getKey u c
    = Some (Some true).
Proof.
  intros s'. unfold s', resetConversation.
  split; [apply lookup_delete_eq|]. split; [apply lookup_delete_eq|].
  split; [intros key Hne; by apply lookup_delete_ne|].
  split; [simpl; by rewrite !delete_delete_eq|].
  split; [rewrite getConversation_result; simpl; by rewrite lookup_delete_eq|].
  split.
  - rewrite tryAcquireLock_result. simpl. by rewrite lookup_delete_eq.
  - rewrite tryAcquireLock_lookup. simpl. by rewrite lookup_delete_eq.
Qed.

Lemma exec_coherent now o s :
  plainUpdate o = true →
  (∀ key conv, conversations s !! key = Some conv → coherent key conv) →
  ∀ key conv, conversations (exec now o s).2 !! key = Some conv → coherent key conv.
Proof.
  intros Hplain Hs key conv.
  assert (Hfresh : ∀ u c t, coherent (getKey u c) (fresh u c t)) by (by split).
  assert (Hdef : ∀ u c t, coherent (getKey u c)
                   (default (fresh u c t) (conversations s !! getKey u c))).
  { intros u c t. destruct (conversations s !! getKey u c) as [conv0|] eqn:E; simpl; eauto. }
  destruct o as [u c|u c upd|u c t|u c|u c| | |]; cbn [exec snd plainUpdate] in *.
  - destruct (decide (getKey u c = key)) as [<-|Hne].
    + rewrite getConversation_lookup. intros [= <-]. apply (Hdef u c now).
    + rewrite getConversation_other by done. apply Hs.
  - destruct (decide (getKey u c = key)) as [<-|Hne].
    + rewrite updateConversation_lookup. intros [= <-].
      apply andb_true_iff in Hplain as [Hplain Hc]. apply andb_true_iff in Hplain as [Hl Hu].
      apply negb_true_iff, touchesLock_false in Hl as (H1 & H2 & H3).
      destruct (u_userId upd) eqn:Eu; [done|]. destruct (u_chatId upd) eqn:Ec; [done|].
      destruct (Hdef u c now) as [Hk Hp]. split; simpl.
      * rewrite Eu, Ec. simpl. done.
      * rewrite H1, H2, H3. simpl. done.
    + rewrite updateConversation_other by done. apply Hs.
  - destruct (tryAcquireLock u c t now s) as [b s'] eqn:E. cbn [snd].
    replace s' with (tryAcquireLock u c t now s).2 by (by rewrite E).
    destruct (decide (getKey u c = key)) as [<-|Hne].
    + rewrite tryAcquireLock_lookup. cbv zeta. intros [= <-].
      destruct (Hdef u c now) as [Hk Hp].
      change (isProcessing (touch now
                 (default (fresh u c now) (conversations s !! getKey u c))))
        with (isProcessing (default (fresh u c now) (conversations s !! getKey u c))).
      destruct (truthy (isProcessing
                 (default (fresh u c now) (conversations s !! getKey u c)))) eqn:Et.
      * split; [exact Hk|intros _; exact (Hp eq_refl)].
      * split; [exact Hk|]. intros _. split; by eexists.
    + rewrite tryAcquireLock_other by done. apply Hs.
  - destruct (decide (getKey u c = key)) as [<-|Hne].
    + unfold releaseLock; simpl.
      destruct (conversations s !! getKey u c) as [conv0|] eqn:E.
      * rewrite lookup_insert_eq. intros [= <-].
        destruct (Hs _ _ E) as [Hk _]. split; [done|]. simpl. done.
      * by rewrite E.
    + rewrite releaseLock_other by done. apply Hs.
  - unfold resetConversation; simpl. intros H.
    apply lookup_delete_Some in H as [_ H]. by apply Hs.
  - unfold cleanup; simpl. intros H.
    apply map_lookup_filter_Some in H as [H _]. by apply Hs.
  - rewrite cleanupStaleLocks_lookup.
    destruct (conversations s !! key) as [conv0|] eqn:E; [|done]. simpl.
    intros [= <-]. destruct (Hs _ _ E) as [Hk Hp].
    destruct (stale now conv0); [split; [done|]; simpl; done|by split].
  - unfold cleanupOldLockPromises; simpl. apply Hs.
Qed.

Lemma run_coherent (ops : list (Z * Op)) s :
  Forall (λ x, plainUpdate x.2 = true) ops →
  (∀ key conv, conversations s !! key = Some conv → coherent key conv) →
  ∀ key conv, conversations (run ops s).2 !! key = Some conv → coherent key conv.
Proof.
  revert s. induction ops as [|[now o] rest IH]; intros s Hall Hs; simpl; [done|].
  apply Forall_cons in Hall as [Hplain Hall]. simpl in Hplain.
  pose proof (exec_coherent now o s Hplain Hs) as Hs1.
  destruct (exec now o s) as [r s1]. simpl in Hs1.
  specialize (IH s1 Hall Hs1).
  destruct (run rest s1) as [rs s2]. simpl in *. exact IH.
Qed.

(** X4.  Along every sequence of calls on the store whose updates leave the
    identity and the lock fields alone (as all updates of the controller
    do), every entry sits under the key of its own pair, and an entry that
    is marked as processing carries its task and the time of acquisition:
    so no lock can leak for good, a sweep run more than ten minutes after
    that time releases it. *)
Theorem held_lock_is_always_reclaimable (ops : list (Z * Op)) :
  Forall (λ x, plainUpdate x.2 = true) ops →
  ∀ key conv, conversations (run ops init).2 !! key = Some conv →
    getKey (userId conv) (chatId conv) = key ∧
    (truthy (isProcessing conv) = true →
     ∃ task since, processingTask conv = Some task ∧ lockAcquiredAt conv = Some since ∧
       ∀ now, now - since > 600000 →
         isProcessing <$> conversations (cleanupStaleLocks now (run ops init).2) !! key
           = Some (Some false)).
Proof.
  intros Hall key conv Hconv.
  destruct (run_coherent ops init Hall) with (key := key) (conv := conv) as [Hk Hp];
    [intros k0 c0 H0; unfold init in H0; simpl in H0; by rewrite lookup_empty in H0|done|].
  split; [done|]. intros Ht. destruct (Hp Ht) as [[task Htask] [since Hsince]].
  exists task, since. split; [done|]. split; [done|].
  intros now Hnow. rewrite cleanupStaleLocks_lookup, Hconv. simpl.
  unfold stale, lockTimeoutMs. rewrite Ht, Hsince. simpl.
  rewrite bool_decide_eq_true_2 by lia. reflexivity.
Qed.

Lemma held_lock_witness :
  getKey "7" 1 = getKey "7" 1 ∧
  (truthy (Some true) = true →
   ∃ task since, Some titles = Some task ∧ Some 5 = Some since ∧
     ∀ now, now - since > 600000 →
       isProcessing <$> conversations
         (cleanupStaleLocks now (run [(5, OpTryAcquire "7" 1 titles)] init).2) !! getKey "7" 1
         = Some (Some false)).
Proof.
  assert (Hall : Forall (λ x : Z * Op, plainUpdate x.2 = true)
                        [(5, OpTryAcquire "7" 1 titles)]) by (by repeat constructor).
  assert (Hconv : conversations (run [(5, OpTryAcquire "7" 1 titles)] init).2 !! getKey "7" 1
                  = Some (acquire titles 5 (fresh "7" 1 5))) by (vm_compute; reflexivity).
  exact (held_lock_is_always_reclaimable _ Hall _ _ Hconv).
Defined.

(** X5.  The lock-synchronisation map is dead bookkeeping: no call ever
    puts an entry into it, so from the initial state on it is empty after
    every sequence of calls, [tryAcquireLock] never finds a pending entry
    to wait for, and its answer is decided by the [isProcessing] flag of
    the entry alone. *)
Theorem lock_bookkeeping_stays_empty (ops : list (Z * Op)) (u : string) (c : Z)
    (task : Task) (now : Z) :
  let s := (run ops init).2 in
  locks s = ∅ ∧
  locks s !! getKey u c = None ∧
  (tryAcquireLock u c task now s).1 =
    negb (truthy (default None (isProcessing <$> conversations s !! getKey u c))) ∧
  locks (tryAcquireLock u c task now s).2 = ∅.
Proof.
  intros s. pose proof (locks_stay_empty ops) as He. fold s in He.
  split; [done|]. split; [by rewrite He|]. split.
  - rewrite tryAcquireLock_result. by destruct (conversations s !! getKey u c).
  - pose proof (exec_locks_empty now (OpTryAcquire u c task) s He) as H.
    cbn [exec] in H. by destruct (tryAcquireLock u c task now s).
Qed.

End StoreMore.

(** * Further properties of the rate limiter *)
Section LimiterMore.
Import RateLimiter.

Implicit Types (limits : gmap string RateLimitInfo) (u : string).

Lemma roll_expired now (l : RateLimitInfo) :
  now - windowStart l >= 60000 → rollWindow now l = mkRateLimitInfo (rl_userId l) 0 now.
Proof. intros H. unfold rollWindow, windowDuration. by rewrite bool_decide_eq_true_2. Qed.

Lemma roll_live now (l : RateLimitInfo) :
  now - windowStart l < 60000 → rollWindow now l = l.
Proof.
  intros H. unfold rollWindow, windowDuration. rewrite bool_decide_eq_false_2; [done|lia].
Qed.

Lemma checkLimit_withinLimit config u now limits :
  0 ≤ maxRequestsPerMinute config →
  withinLimit config limits → withinLimit config (checkLimit config u now limits).2.
Proof.
  intros HN Hin. unfold checkLimit.
  destruct (enabled config); simpl; [|done].
  assert (Hroll : ∀ l, rl_userId l = u →
            0 ≤ requestCount l ≤ maxRequestsPerMinute config →
            rl_userId (rollWindow now l) = u ∧
            0 ≤ requestCount (rollWindow now l) ≤ maxRequestsPerMinute config).
  { intros l Hu Hc. unfold rollWindow. case_bool_decide; simpl; [split; [done|lia]|done]. }
  assert (Hcur : rl_userId (rollWindow now
                   match limits !! u with Some l => l | None => mkRateLimitInfo u 0 now end) = u ∧
                 0 ≤ requestCount (rollWindow now
                   match limits !! u with Some l => l | None => mkRateLimitInfo u 0 now end)
                   ≤ maxRequestsPerMinute config).
  { destruct (limits !! u) as [l|] eqn:E.
    - destruct (Hin _ _ E). by apply Hroll.
    - apply Hroll; simpl; [done|lia]. }
  destruct Hcur as [Hu Hc].
  case_bool_decide as Hfull; simpl; intros u' l' Hl'.
  - destruct (decide (u = u')) as [<-|Hne].
    + rewrite lookup_insert_eq in Hl'. injection Hl' as <-. done.
    + rewrite lookup_insert_ne in Hl' by done. by apply Hin.
  - destruct (decide (u = u')) as [<-|Hne].
    + rewrite lookup_insert_eq in Hl'. injection Hl' as <-. simpl. split; [done|lia].
    + rewrite lookup_insert_ne in Hl' by done. by apply Hin.
Qed.

Lemma limiterExec_withinLimit config now o limits :
  0 ≤ maxRequestsPerMinute config →
  withinLimit config limits → withinLimit config (limiterExec config now o limits).2.
Proof.
  intros HN Hin. destruct o as [u|u|]; simpl.
  - pose proof (checkLimit_withinLimit config u now limits HN Hin) as H.
    by destruct (checkLimit config u now limits).
  - intros u' l' Hl'. unfold resetLimit in Hl'.
    apply lookup_delete_Some in Hl' as [_ Hl']. by apply Hin.
  - intros u' l' Hl'. unfold cleanup in Hl'.
    apply map_lookup_filter_Some in Hl' as [Hl' _]. by apply Hin.
Qed.

Lemma limiterRun_withinLimit config ops limits :
  0 ≤ maxRequestsPerMinute config →
  withinLimit config limits → withinLimit config (limiterRun config ops limits).2.
Proof.
  intros HN. revert limits. induction ops as [|[now o] rest IH]; intros limits Hin; simpl; [done|].
  pose proof (limiterExec_withinLimit config now o limits HN Hin) as H1.
  destruct (limiterExec config now o limits) as [r limits1]. simpl in H1.
  specialize (IH limits1 H1).
  by destruct (limiterRun config rest limits1).
Qed.

(** X6.  With a limit that is not negative, the limiter never counts past
    it: starting from the empty table, after any sequence of [checkLimit],
    [resetLimit] and [cleanup] calls of any users at any clock readings,
    every record is stored under its own user id and its request count
    lies between 0 and [maxRequestsPerMinute]. *)
Theorem limiter_never_counts_past_limit
    (config : Config) (ops : list (Z * LimiterOp)) (u : string) (l : RateLimitInfo) :
  0 ≤ maxRequestsPerMinute config →
  (limiterRun config ops ∅).2 !! u = Some l →
  rl_userId l = u ∧ 0 ≤ requestCount l ≤ maxRequestsPerMinute config.
Proof.
  intros HN Hl.
  apply (limiterRun_withinLimit config ops ∅ HN); [|done].
  intros u' l' H'. by rewrite lookup_empty in H'.
Qed.

Lemma limiter_never_counts_past_limit_witness :
  rl_userId (mkRateLimitInfo "7" 2 0) = "7" ∧
  0 ≤ requestCount (mkRateLimitInfo "7" 2 0) ≤ maxRequestsPerMinute (mkConfig true 2).
Proof.
  apply (limiter_never_counts_past_limit (mkConfig true 2)
           [(0, LCheck "7"); (10, LCheck "7"); (20, LCleanup); (30, LCheck "7")]).
  - simpl. lia.
  - vm_compute. reflexivity.
Defined.

(** X7.  The [retryAfter] of a refusal is honest.  With a limit of at least
    one request, when [checkLimit] answers with [retryAfter = r] at time
    [now], the call was refused, [r] is at least one second, at most sixty
    when the clock has not run backwards since the window opened, and any
    call of the same user made [r] seconds later, or later still, is
    allowed. *)
Theorem retry_after_is_honest
    (config : Config) (limits : gmap string RateLimitInfo) (u : string) (now r : Z) :
  1 ≤ maxRequestsPerMinute config →
  retryAfter (checkLimit config u now limits).1 = Some r →
  allowed (checkLimit config u now limits).1 = false ∧
  1 ≤ r ∧
  ((∀ l, limits !! u = Some l → windowStart l ≤ now) → r ≤ 60) ∧
  ∀ t, now + 1000 * r ≤ t →
    (checkLimit config u t (checkLimit config u now limits).2).1 = mkCheckResult true None.
Proof.
  intros HN Hr. unfold checkLimit in *.
  destruct (enabled config) eqn:Een; simpl in *; [|discriminate].
  set (l0 := match limits !! u with Some l => l | None => mkRateLimitInfo u 0 now end) in *.
  destruct (bool_decide (requestCount (rollWindow now l0) >= maxRequestsPerMinute config))
    eqn:Efull; simpl in *; [|discriminate].
  injection Hr as Hr. apply bool_decide_eq_true_1 in Efull.
  assert (Hlive : now - windowStart l0 < 60000).
  { destruct (decide (now - windowStart l0 < 60000)) as [|Hexp]; [done|].
    rewrite roll_expired in Efull by lia. simpl in Efull. lia. }
  rewrite (roll_live now l0 Hlive) in Efull, Hr |- *.
  unfold ceil_seconds, windowDuration in *.
  split; [done|]. split; [|split].
  - subst r. apply Z.div_le_lower_bound; lia.
  - intros Hclock. assert (windowStart l0 ≤ now).
    { unfold l0. destruct (limits !! u) as [l|] eqn:E; [by apply Hclock|simpl; lia]. }
    subst r. apply Z.lt_succ_r. apply Z.div_lt_upper_bound; lia.
  - intros t Ht. rewrite lookup_insert_eq.
    assert (60000 - (now - windowStart l0) ≤ 1000 * r).
    { subst r. pose proof (Z.div_mod (60000 - (now - windowStart l0) + 999) 1000).
      pose proof (Z.mod_pos_bound (60000 - (now - windowStart l0) + 999) 1000). lia. }
    rewrite roll_expired by lia. simpl.
    rewrite bool_decide_eq_false_2 by lia. reflexivity.
Qed.

Lemma retry_after_is_honest_witness :
  allowed (checkLimit (mkConfig true 1) "7" 1500
             (checkLimit (mkConfig true 1) "7" 0 ∅).2).1 = false ∧
  1 ≤ 59 ∧
  ((∀ l, (checkLimit (mkConfig true 1) "7" 0 ∅).2 !! "7" = Some l → windowStart l ≤ 1500)
   → 59 ≤ 60) ∧
  ∀ t, 1500 + 1000 * 59 ≤ t →
    (checkLimit (mkConfig true 1) "7" t
       (checkLimit (mkConfig true 1) "7" 1500
          (checkLimit (mkConfig true 1) "7" 0 ∅).2).2).1 = mkCheckResult true None.
Proof.
  apply (retry_after_is_honest (mkConfig true 1) (checkLimit (mkConfig true 1) "7" 0 ∅).2
           "7" 1500 59).
  - simpl. lia.
  - vm_compute. reflexivity.
Defined.

(** X8.  The timer's [cleanup] evicts exactly the records whose window
    started 120 seconds or more before the sweep, and leaves every other
    record as it is; and it cannot be observed through [checkLimit]: a
    call made at or after the sweep gets the same answer, and leaves the
    same count and window for the user, whether the sweep ran or not (a
    record that old is one whose window the call would restart anyway). *)
Theorem cleanup_is_unobservable
    (config : Config) (limits : gmap string RateLimitInfo) (u : string) (tc t : Z) :
  tc ≤ t →
  cleanup tc limits !! u =
    match limits !! u with
    | Some l => if bool_decide (tc - windowStart l >= 120000) then None else Some l
    | None => None
    end ∧
  (checkLimit config u t (cleanup tc limits)).1 = (checkLimit config u t limits).1 ∧
  (enabled config = true →
   (λ l, (requestCount l, windowStart l)) <$> (checkLimit config u t (cleanup tc limits)).2 !! u
   = (λ l, (requestCount l, windowStart l)) <$> (checkLimit config u t limits).2 !! u).
Proof.
  intros Hle.
  assert (Hevict : cleanup tc limits !! u =
            match limits !! u with
            | Some l => if bool_decide (tc - windowStart l >= 120000) then None else Some l
            | None => None
            end).
  { destruct (limits !! u) as [l|] eqn:E.
    - case_bool_decide as Hold.
      + apply map_lookup_filter_None_2. right. intros l' Hl'.
        rewrite E in Hl'. injection Hl' as <-. simpl. unfold windowDuration.
        by rewrite bool_decide_eq_true_2.
      + apply map_lookup_filter_Some_2; [done|]. simpl. unfold windowDuration.
        by rewrite bool_decide_eq_false_2.
    - apply map_lookup_filter_None_2. by left. }
  split; [exact Hevict|].
  unfold checkLimit.
  destruct (enabled config); simpl; [|split; [done|discriminate]].
  assert (Hsame : ∃ l1 l2,
    rollWindow t match cleanup tc limits !! u with
                 | Some l => l | None => mkRateLimitInfo u 0 t end = l1 ∧
    rollWindow t match limits !! u with
                 | Some l => l | None => mkRateLimitInfo u 0 t end = l2 ∧
    requestCount l1 = requestCount l2 ∧ windowStart l1 = windowStart l2).
  { rewrite Hevict. destruct (limits !! u) as [l|] eqn:E.
    - case_bool_decide as Hold.
      + do 2 eexists. split; [reflexivity|]. split; [reflexivity|].
        rewrite (roll_expired t l) by lia.
        rewrite roll_live by (simpl; lia). done.
      + by exists (rollWindow t l), (rollWindow t l).
    - by exists (rollWindow t (mkRateLimitInfo u 0 t)), (rollWindow t (mkRateLimitInfo u 0 t)). }
  destruct Hsame as (l1 & l2 & -> & -> & Hc & Hw). rewrite Hc, Hw.
  case_bool_decide; simpl; (split; [done|]); intros _; rewrite !lookup_insert_eq; simpl;
    by rewrite ?Hc, ?Hw.
Qed.

Lemma cleanup_is_unobservable_witness :
  cleanup 125000 (checkLimit (mkConfig true 1) "7" 0 ∅).2 !! "7" = None ∧
  (checkLimit (mkConfig true 1) "7" 130000
     (cleanup 125000 (checkLimit (mkConfig true 1) "7" 0 ∅).2)).1
  = (checkLimit (mkConfig true 1) "7" 130000 (checkLimit (mkConfig true 1) "7" 0 ∅).2).1.
Proof.
  assert (Hle : 125000 ≤ 130000) by lia.
  pose proof (cleanup_is_unobservable (mkConfig true 1)
                (checkLimit (mkConfig true 1) "7" 0 ∅).2 "7" 125000 130000 Hle)
    as (H1 & H2 & _).
  split; [exact H1|exact H2].
Defined.

(** X9.  Users do not share a quota: a [checkLimit] or a [resetLimit] for
    one user leaves the record of every other user as it was, and so does
    not change the answer the other user gets next. *)
Theorem users_have_separate_quotas
    (config : Config) (limits : gmap string RateLimitInfo) (u u' : string) (t t' : Z) :
  u ≠ u' →
  (checkLimit config u t limits).2 !! u' = limits !! u' ∧
  resetLimit u limits !! u' = limits !! u' ∧
  (checkLimit config u' t' (checkLimit config u t limits).2).1
    = (checkLimit config u' t' limits).1 ∧
  (checkLimit config u' t' (resetLimit u limits)).1 = (checkLimit config u' t' limits).1.
Proof.
  intros Hne.
  assert (H1 : (checkLimit config u t limits).2 !! u' = limits !! u').
  { unfold checkLimit. destruct (enabled config); simpl; [|done].
    case_bool_decide; simpl; by rewrite lookup_insert_ne. }
  assert (H2 : resetLimit u limits !! u' = limits !! u').
  { unfold resetLimit. by rewrite lookup_delete_ne. }
  split; [done|]. split; [done|].
  split.
  - unfold checkLimit at 1 3. destruct (enabled config); simpl; [|done].
    rewrite H1. by case_bool_decide.
  - unfold checkLimit. destruct (enabled config); simpl; [|done].
    rewrite H2. by case_bool_decide.
Qed.

Lemma users_have_separate_quotas_witness :
  (checkLimit (mkConfig true 1) "7" 0 ∅).2 !! "8" = (∅ : gmap string RateLimitInfo) !! "8" ∧
  resetLimit "7" ∅ !! "8" = (∅ : gmap string RateLimitInfo) !! "8" ∧
  (checkLimit (mkConfig true 1) "8" 5 (checkLimit (mkConfig true 1) "7" 0 ∅).2).1
    = (checkLimit (mkConfig true 1) "8" 5 ∅).1 ∧
  (checkLimit (mkConfig true 1) "8" 5 (resetLimit "7" ∅)).1
    = (checkLimit (mkConfig true 1) "8" 5 ∅).1.
Proof.
  apply (users_have_separate_quotas (mkConfig true 1) ∅ "7" "8" 0 5). done.
Defined.

End LimiterMore.

(** * Further properties of retries and of the delivery sender *)
Section RetryMore.

(** The loop with [f + 1] iterations left, the last of them being attempt
    number [mr]: some calls fail, each followed by its pause, and the call
    after them decides. *)
Lemma loop_chain {T} (f : nat) a mr bd md tn (fn : M T) le env w :
  a + Z.of_nat (S f) = mr + 1 →
  let out := Retry.loop (S f) a mr bd md tn fn le env w in
  ∃ (k : nat) (w' : World), (k ≤ f)%nat ∧
    failedAttempts fn env bd md a k w w' ∧
    ((∃ v, fn env w' = (inr v, out.2) ∧ out.1 = inr v) ∨
     (k = f ∧ ∃ e, fn env w' = (inl e, out.2) ∧ out.1 = inl e)).
Proof.
  revert a le w. induction f as [|f IH]; intros a le w Ha out; unfold out.
  - destruct (fn env w) as [[e|v] w1] eqn:E.
    + rewrite (loop_retries _ _ _ _ _ _ _ _ _ _ _ _ E).
      rewrite (proj2 (Z.ltb_ge a mr)) by lia. rewrite loop_gives_up.
      exists 0%nat, w. split; [done|]. split; [done|]. right. split; [done|].
      exists e. by rewrite E.
    + rewrite (loop_returns _ _ _ _ _ _ _ _ _ _ _ _ E).
      exists 0%nat, w. split; [lia|]. split; [done|]. left. exists v. by rewrite E.
  - destruct (fn env w) as [[e|v] w1] eqn:E.
    + rewrite (loop_retries _ _ _ _ _ _ _ _ _ _ _ _ E).
      rewrite (proj2 (Z.ltb_lt a mr)) by lia.
      destruct (IH (a + 1) (Some e) (delayed (Retry.retryDelay bd md a) w1))
        as (k & w' & Hk & Hchain & Hend); [lia|].
      exists (S k), w'. split; [lia|]. split; [simpl; by eauto|].
      destruct Hend as [Hok|[-> Hfail]]; [by left|by right].
    + rewrite (loop_returns _ _ _ _ _ _ _ _ _ _ _ _ E).
      exists 0%nat, w. split; [lia|]. split; [done|]. left. exists v. by rewrite E.
Qed.

(** X10.  [withRetry] adds nothing of its own to the outcome of the
    function it retries.  With a retry budget [n] that is not negative, it
    calls the function in the world it is started in; as long as a call
    fails and fewer than [n + 1] calls have been made, it pauses and calls
    again in the world the failed call and the pause have left; the
    outcome and the final world are those of the last call made: its value
    if it returned, its error if it was call number [n + 1] and failed.  A
    first call that succeeds is passed through with no further effect.
    Only with a negative budget is the function never called, and the
    error is the synthesized one. *)
Theorem withRetry_passes_outcomes_through {T} (fn : M T) (options : Retry.RetryOptions)
    (env : Env) (w : World) :
  let n := default 3 (Retry.maxRetries options) in
  let baseDelay := default 3000 (Retry.baseDelay options) in
  let maxDelay := default 3000 (Retry.maxDelay options) in
  let out := Retry.withRetry fn options env w in
  (0 ≤ n →
   ∃ (k : nat) (w' : World), Z.of_nat k ≤ n ∧
     failedAttempts fn env baseDelay maxDelay 0 k w w' ∧
     ((∃ v, fn env w' = (inr v, out.2) ∧ out.1 = inr v) ∨
      (Z.of_nat k = n ∧ ∃ e, fn env w' = (inl e, out.2) ∧ out.1 = inl e))) ∧
  (∀ v w1, 0 ≤ n → fn env w = (inr v, w1) → out = (inr v, w1)) ∧
  (n < 0 →
   out = (inl (Error (default "operation" (Retry.taskName options) +:+ " failed after " +:+
                      pretty (n + 1) +:+ " attempts")), w)).
Proof.
  intros n baseDelay maxDelay out. unfold out, Retry.withRetry.
  fold n. fold baseDelay. fold maxDelay.
  set (tn := default "operation" (Retry.taskName options)).
  split; [|split].
  - intros Hn. replace (Z.to_nat (n + 1)) with (S (Z.to_nat n)) by lia.
    destruct (loop_chain (Z.to_nat n) 0 n baseDelay maxDelay tn fn None env w)
      as (k & w' & Hk & Hchain & Hend); [lia|].
    exists k, w'. split; [lia|]. split; [done|].
    destruct Hend as [Hok|[-> Hfail]]; [by left|right]. split; [lia|done].
  - intros v w1 Hn Hfn.
    replace (Z.to_nat (n + 1)) with (S (Z.to_nat n)) by lia.
    simpl. unfold mbind, M_bind, try_. by rewrite Hfn.
  - intros Hn. replace (Z.to_nat (n + 1)) with 0%nat by lia. reflexivity.
Qed.

(** X11.  The pause between two attempts of [withRetry] is capped and never
    shrinks: with [0 <= baseDelay <= maxDelay], the delay after attempt
    number [a >= 0] lies between [baseDelay] and [maxDelay], it is
    [baseDelay] after the first attempt, it does not decrease from one
    attempt to the next, and it is exactly [baseDelay * 2^a] as long as
    that stays below [maxDelay]. *)
Theorem backoff_is_capped_and_monotone (baseDelay maxDelay a a' : Z) :
  0 ≤ baseDelay ≤ maxDelay → 0 ≤ a ≤ a' →
  baseDelay ≤ Retry.retryDelay baseDelay maxDelay a ≤ maxDelay ∧
  Retry.retryDelay baseDelay maxDelay 0 = baseDelay ∧
  Retry.retryDelay baseDelay maxDelay a ≤ Retry.retryDelay baseDelay maxDelay a' ∧
  (baseDelay * 2 ^ a ≤ maxDelay → Retry.retryDelay baseDelay maxDelay a = baseDelay * 2 ^ a).
Proof.
  intros Hb Ha. unfold Retry.retryDelay.
  assert (H1 : 1 ≤ 2 ^ a) by (apply (Z.pow_le_mono_r 2 0 a); lia).
  assert (H2 : 2 ^ a ≤ 2 ^ a') by (apply Z.pow_le_mono_r; lia).
  destruct (baseDelay =? maxDelay) eqn:E.
  - apply Z.eqb_eq in E. repeat split; try lia. intros H. nia.
  - change (2 ^ 0) with 1. rewrite Z.mul_1_r.
    repeat split; try lia; try nia.
Qed.

Lemma backoff_witness :
  1000 ≤ Retry.retryDelay 1000 30000 2 ≤ 30000 ∧
  Retry.retryDelay 1000 30000 0 = 1000 ∧
  Retry.retryDelay 1000 30000 2 ≤ Retry.retryDelay 1000 30000 7 ∧
  (1000 * 2 ^ 2 ≤ 30000 → Retry.retryDelay 1000 30000 2 = 1000 * 2 ^ 2).
Proof. apply (backoff_is_capped_and_monotone 1000 30000 2 7); lia. Defined.

End RetryMore.

Section DeliveryMore.
Import Webhook.

Variables (url taskName : string) (chatId : Z).

Lemma strict_eq_str_true v s : strict_eq_str v s = true → v = JStr s.
Proof.
  destruct v; simpl; try discriminate. by intros ->%String.eqb_eq.
Qed.

Lemma truthy_object v : truthyV v = true → typeof v = "object" → isContainer v = true.
Proof. by destruct v. Qed.

Lemma truthy_string v : truthyV v = true → typeof v = "string" → ∃ s, v = JStr s ∧ s ≠ EmptyString.
Proof.
  destruct v as [| | | |s| |]; simpl; try discriminate. intros H _. exists s. split; [done|].
  intros ->. discriminate.
Qed.

Lemma truthy_number v : truthyV v = true → typeof v = "number" → ∃ n, v = JNum n ∧ n ≠ 0.
Proof.
  destruct v as [| | |n| | |]; simpl; try discriminate. intros H _. exists n. split; [done|].
  intros ->. discriminate.
Qed.

(** X12.  What passes [validateWebhookPayload], and what happens to the
    rest.  A validated payload is an object whose [type] is ['outline'] or
    ['article'], whose [userId] is a non-empty string, whose [chatId] is a
    number other than 0, and whose [data] holds an array or an object under
    the name its [type] gives.  A payload that does not pass is never
    posted: [sendWebhookWithRetry] throws, and, unless the payload is
    [null] or [undefined], it has first told the user once, and the error
    is ['Invalid webhook payload: '] followed by the reason. *)
Theorem only_validated_payloads_are_posted (payload : JSVal) (env : Env) (w : World) :
  let out := sendWebhookWithRetry url payload taskName chatId env w in
  (validateWebhookPayload payload = inr tt →
   (∃ fields, payload = JObj fields) ∧
   (∃ s, prop payload "userId" = JStr s ∧ s ≠ EmptyString) ∧
   (∃ n, prop payload "chatId" = JNum n ∧ n ≠ 0) ∧
   ((prop payload "type" = JStr "outline" ∧
     isContainer (prop (prop payload "data") "outline") = true) ∨
    (prop payload "type" = JStr "article" ∧
     isContainer (prop (prop payload "data") "article") = true))) ∧
  (∀ reason, validateWebhookPayload payload = inl reason →
   posts out.2 = posts w ∧ store out.2 = store w ∧ wnow out.2 = wnow w ∧
   (∃ e, out.1 = inl e) ∧
   (payload = JNull ∨ payload = JUndefined → trace out.2 = trace w) ∧
   (payload ≠ JNull → payload ≠ JUndefined →
    out = (inl (Error ("Invalid webhook payload: " +:+ reason)),
           notified chatId (MsgInternalError taskName reason) w))).
Proof.
  intros out. split.
  - unfold validateWebhookPayload. intros H.
    destruct (truthyV payload) eqn:Ep; simpl in H; [|discriminate].
    destruct (truthyV (prop payload "type")) eqn:Et; simpl in H; [|discriminate].
    destruct (strict_eq_str (prop payload "type") "outline") eqn:Eo; simpl in H.
    + destruct (truthyV (prop payload "data")) eqn:Ed; simpl in H; [|discriminate].
      destruct (truthyV (prop payload "userId")) eqn:Eu; simpl in H; [|discriminate].
      destruct (String.eqb (typeof (prop payload "userId")) "string") eqn:Eus;
        simpl in H; [|discriminate].
      destruct (truthyV (prop payload "chatId")) eqn:Ec; simpl in H; [|discriminate].
      destruct (String.eqb (typeof (prop payload "chatId")) "number") eqn:Ecn;
        simpl in H; [|discriminate].
      destruct (truthyV (prop (prop payload "data") "outline")) eqn:Eoo;
        simpl in H; [|discriminate].
      destruct (String.eqb (typeof (prop (prop payload "data") "outline")) "object") eqn:Eot;
        simpl in H; [|discriminate].
      apply String.eqb_eq in Eus, Ecn, Eot.
      split; [destruct payload; try discriminate; by eauto|].
      split; [by apply truthy_string|]. split; [by apply truthy_number|].
      left. split; [by apply strict_eq_str_true|by apply truthy_object].
    + destruct (strict_eq_str (prop payload "type") "article") eqn:Ea; simpl in H;
        [|discriminate].
      destruct (truthyV (prop payload "data")) eqn:Ed; simpl in H; [|discriminate].
      destruct (truthyV (prop payload "userId")) eqn:Eu; simpl in H; [|discriminate].
      destruct (String.eqb (typeof (prop payload "userId")) "string") eqn:Eus;
        simpl in H; [|discriminate].
      destruct (truthyV (prop payload "chatId")) eqn:Ec; simpl in H; [|discriminate].
      destruct (String.eqb (typeof (prop payload "chatId")) "number") eqn:Ecn;
        simpl in H; [|discriminate].
      destruct (truthyV (prop (prop payload "data") "article")) eqn:Eoo;
        simpl in H; [|discriminate].
      destruct (String.eqb (typeof (prop (prop payload "data") "article")) "object") eqn:Eot;
        simpl in H; [|discriminate].
      apply String.eqb_eq in Eus, Ecn, Eot.
      split; [destruct payload; try discriminate; by eauto|].
      split; [by apply truthy_string|]. split; [by apply truthy_number|].
      right. split; [by apply strict_eq_str_true|by apply truthy_object].
  - intros reason Hr. unfold out, sendWebhookWithRetry.
    destruct payload; try (rewrite Hr; unfold mbind, M_bind, sendMessage, emit, throw; simpl);
      repeat split; try done; eauto; intros [|]; done.
Qed.

Lemma attempt_fails payload env w :
  ¬ accepted env (posts w) →
  ∃ e, attempt url payload env w = (inl e, posted url (prop payload "data") w) ∧
       message e = failureText (http env (posts w)).
Proof.
  unfold accepted. intros H.
  unfold attempt, mbind, M_bind, try_, axios_post, failureText.
  destruct (http env (posts w)) as [status|c msg]; simpl.
  - destruct ((200 <=? status) && (status <? 300)) eqn:E2xx; simpl.
    + destruct (status =? 200) eqn:E200; simpl.
      * apply Z.eqb_eq in E200. subst. done.
      * unfold throw. simpl. eauto.
    + unfold throw. repeat case_match; simpl; eauto; simplify_eq.
  - unfold throw. repeat case_match; simpl; eauto; simplify_eq.
Qed.

(** X13.  When all four delivery attempts fail, the notice sent to the
    user carries the error text of the last attempt only: connection
    refused and timeouts are named as such, a 2xx answer other than 200 is
    reported as ['Webhook failed with status code ...'], any other answer
    with the HTTP client's own message; the run has posted four times, has
    waited three times 3000 ms, and returns normally. *)
Theorem failure_notice_reports_last_attempt (payload : JSVal) (env : Env) (w : World) :
  validateWebhookPayload payload = inr tt →
  (∀ i, (i < 4)%nat → ¬ accepted env (posts w + i)) →
  let body := prop payload "data" in
  let out := sendWebhookWithRetry url payload taskName chatId env w in
  out.1 = inr tt ∧
  trace out.2 = trace w ++ schedule url body 3000 3 ++
    [EvSendMessage chatId
       (MsgDeliveryFailed taskName url 3 (failureText (http env (posts w + 3))))] ∧
  posts out.2 = (posts w + 4)%nat ∧
  wnow out.2 = wnow w + 9000 ∧
  store out.2 = store w.
Proof.
  intros Hv Hfail body out. unfold out.
  rewrite (send_validated url taskName chatId payload env w Hv).
  unfold Retry.withRetry, options, maxRetries, delayMs.
  cbn [Retry.maxRetries Retry.baseDelay Retry.maxDelay Retry.taskName default from_option].
  unfold id. change (Z.to_nat (3 + 1)) with 4%nat.
  destruct (attempt_fails payload env w) as (e0 & E0 & _).
  { specialize (Hfail 0%nat). rewrite Nat.add_0_r in Hfail. apply Hfail. lia. }
  rewrite (loop_retries _ _ _ _ _ _ _ _ _ _ _ _ E0).
  change (0 <? 3) with true. cbv iota. change (Retry.retryDelay 3000 3000 0) with 3000.
  set (w1 := delayed 3000 (posted url body w)).
  destruct (attempt_fails payload env w1) as (e1 & E1 & _).
  { specialize (Hfail 1%nat). rewrite Nat.add_1_r in Hfail. apply Hfail. lia. }
  rewrite (loop_retries _ _ _ _ _ _ _ _ _ _ _ _ E1).
  change (0 + 1 <? 3) with true. cbv iota.
  change (Retry.retryDelay 3000 3000 (0 + 1)) with 3000.
  set (w2 := delayed 3000 (posted url body w1)).
  destruct (attempt_fails payload env w2) as (e2 & E2 & _).
  { specialize (Hfail 2%nat). replace (posts w + 2)%nat with (S (S (posts w))) in Hfail by lia.
    apply Hfail. lia. }
  rewrite (loop_retries _ _ _ _ _ _ _ _ _ _ _ _ E2).
  change (0 + 1 + 1 <? 3) with true. cbv iota.
  change (Retry.retryDelay 3000 3000 (0 + 1 + 1)) with 3000.
  set (w3 := delayed 3000 (posted url body w2)).
  destruct (attempt_fails payload env w3) as (e3 & E3 & M3).
  { specialize (Hfail 3%nat). replace (posts w + 3)%nat with (S (S (S (posts w)))) in Hfail by lia.
    apply Hfail. lia. }
  rewrite (loop_retries _ _ _ _ _ _ _ _ _ _ _ _ E3).
  change (0 + 1 + 1 + 1 <? 3) with false. cbv iota.
  rewrite loop_gives_up. rewrite M3.
  replace (posts w + 3)%nat with (S (S (S (posts w)))) by lia.
  simpl. rewrite <- !app_assoc. simpl.
  repeat split; try done; try lia.
Qed.

End DeliveryMore.

Lemma failure_notice_witness :
  let env := endpointAnswering 201 in
  let out := Webhook.sendWebhookWithRetry "http://hook" readmeOutlinePayload "outline" 7 env world0 in
  out.1 = inr tt ∧
  trace out.2 = trace world0 ++
    schedule "http://hook" (prop readmeOutlinePayload "data") 3000 3 ++
    [EvSendMessage 7
       (MsgDeliveryFailed "outline" "http://hook" 3
          (failureText (http env (posts world0 + 3))))] ∧
  posts out.2 = (posts world0 + 4)%nat ∧
  wnow out.2 = wnow world0 + 9000 ∧
  store out.2 = store world0.
Proof.
  apply (failure_notice_reports_last_attempt "http://hook" "outline" 7
           readmeOutlinePayload (endpointAnswering 201) world0).
  - reflexivity.
  - intros i _. unfold accepted. simpl. discriminate.
Defined.

(** * Further properties of the router *)
Section RouterMore.
Import AIRouter.

Variables (prompt : Prompt) (taskType : Task) (env : Env).

Local Abbreviation cfg := (config env).
Local Abbreviation primary := (defaultProvider cfg).
Local Abbreviation backup :=
  (match primary with claude => openrouter | openrouter => claude end).
Local Abbreviation maxTokens := (getMaxTokens cfg taskType).
Local Abbreviation timeout := (getTimeout cfg taskType).
Local Abbreviation callEvent := (callEvent prompt maxTokens timeout).
Local Abbreviation called := (called prompt maxTokens timeout).

Lemma generateJSON_unfold w :
  generateJSON prompt taskType env w =
    match tryPrimaryProvider primary prompt maxTokens timeout env w with
    | (inr (Some result), w1) => (inr (respond result primary (wnow w1 - wnow w)), w1)
    | (r, w1) =>
        if backupAI cfg then
          match tryProviderWithRetry backup prompt maxTokens timeout 3 env w1 with
          | (inr backupResult, w2) =>
              (inr (respond backupResult backup (wnow w2 - wnow w)), w2)
          | (inl backupError, w2) =>
              match r with
              | inl primaryError =>
                  (inl (Error (combinedMessage primary backup (message primaryError)
                                 (message backupError))), w2)
              | inr _ => (inl undefinedMessage, w2)
              end
          end
        else
          match r with
          | inl primaryError => (inl primaryError, w1)
          | inr _ => (inl undefinedMessage, w1)
          end
    end.
Proof.
  unfold generateJSON, mbind, M_bind, dateNow, ask, try_.
  destruct (tryPrimaryProvider primary prompt maxTokens timeout env w) as [[pe|[res|]] w1];
    try reflexivity;
    destruct (backupAI cfg); try reflexivity;
    destruct (tryProviderWithRetry backup prompt maxTokens timeout 3 env w1)
      as [[be|bres] w2]; reflexivity.
Qed.

Lemma countCalls_app evs1 evs2 :
  countCalls (evs1 ++ evs2) = (countCalls evs1 + countCalls evs2)%nat.
Proof. unfold countCalls. by rewrite List.filter_app, length_app. Qed.

Lemma sumDelays_app evs1 evs2 : sumDelays (evs1 ++ evs2) = sumDelays evs1 + sumDelays evs2.
Proof.
  induction evs1 as [|e evs1 IH]; simpl; [done|]. destruct e; rewrite IH; lia.
Qed.

Lemma routerEvent_call p : isRouterEvent prompt maxTokens timeout (callEvent p).
Proof. right. by exists p. Qed.

Lemma routerEvent_delay ms : isRouterEvent prompt maxTokens timeout (EvDelay ms).
Proof. left. by exists ms. Qed.

Local Ltac normalise_calls :=
  unfold outcome in *;
  repeat match goal with
  | H : context [(?n + 0)%nat] |- _ => rewrite Nat.add_0_r in H
  | H : context [(?n + 1)%nat] |- _ => rewrite Nat.add_1_r in H
  | H : context [(?n + 2)%nat] |- _ => replace (n + 2)%nat with (S (S n)) in H by lia
  end.

Local Ltac close_run :=
  simpl; rewrite <- ?app_assoc; simpl;
  repeat lazymatch goal with
  | |- _ ∧ _ => split
  end;
  try (repeat (apply Forall_cons_2;
               [first [apply routerEvent_call|apply routerEvent_delay]|]);
       by apply Forall_nil);
  try done; try (unfold countCalls, callEvent; simpl; lia).

(** One run of the primary path: its events, its counters, and the reply
    of the last invocation, which decides the outcome. *)
Lemma primary_runs w :
  let out := tryPrimaryProvider primary prompt maxTokens timeout env w in
  ∃ evs : list Event,
    trace out.2 = trace w ++ evs ∧
    Forall (isRouterEvent prompt maxTokens timeout) evs ∧
    (1 ≤ countCalls evs ≤ 2)%nat ∧
    aiCalls out.2 = (aiCalls w + countCalls evs)%nat ∧
    0 ≤ sumDelays evs ≤ 2000 ∧
    posts out.2 = posts w ∧ store out.2 = store w ∧
    last evs = Some (callEvent primary) ∧
    match out.1 with
    | inr (Some res) => reply (ai env (pred (aiCalls out.2)) primary) = inr res
    | inr None => False
    | inl e => reply (ai env (pred (aiCalls out.2)) primary) = inl e
    end.
Proof.
  intros out. unfold out, tryPrimaryProvider.
  rewrite primaryLoop_step.
  destruct (outcome primary env w 0) as [e0|r0] eqn:E0.
  - change (1 =? 1) with true. cbn [andb].
    destruct (isTransientError (message e0)).
    + rewrite primaryLoop_step, outcome_delayed, outcome_called.
      exists [callEvent primary; EvDelay 2000; callEvent primary].
      destruct (outcome primary env w 1) as [e1|r1] eqn:E1; normalise_calls.
      * change (1 + 1 =? 1) with false. cbn [andb]. close_run.
      * close_run.
    + exists [callEvent primary]. normalise_calls. close_run.
  - exists [callEvent primary]. normalise_calls. close_run.
Qed.

(** One run of the backup path, with its budget of 3. *)
Lemma retry_runs p w :
  let out := tryProviderWithRetry p prompt maxTokens timeout 3 env w in
  ∃ evs : list Event,
    trace out.2 = trace w ++ evs ∧
    Forall (isRouterEvent prompt maxTokens timeout) evs ∧
    (1 ≤ countCalls evs ≤ 3)%nat ∧
    aiCalls out.2 = (aiCalls w + countCalls evs)%nat ∧
    0 ≤ sumDelays evs ≤ 6000 ∧
    posts out.2 = posts w ∧ store out.2 = store w ∧
    last evs = Some (callEvent p) ∧
    match out.1 with
    | inr res => reply (ai env (pred (aiCalls out.2)) p) = inr res
    | inl e => reply (ai env (pred (aiCalls out.2)) p) = inl e
    end.
Proof.
  intros out. unfold out, tryProviderWithRetry. change (Z.to_nat 3) with 3%nat.
  rewrite retryLoop_step.
  destruct (outcome p env w 0) as [e0|r0] eqn:E0.
  2:{ exists [callEvent p]. normalise_calls. close_run. }
  change (1 <? 3) with true. cbv iota.
  rewrite retryLoop_step, outcome_delayed, outcome_called.
  destruct (outcome p env w 1) as [e1|r1] eqn:E1.
  2:{ exists [callEvent p; EvDelay 2000; callEvent p]. normalise_calls. close_run. }
  change (1 + 1 <? 3) with true. cbv iota.
  rewrite retryLoop_step, outcome_delayed, outcome_called, outcome_delayed, outcome_called.
  exists [callEvent p; EvDelay 2000; callEvent p; EvDelay 4000; callEvent p].
  destruct (outcome p env w 2) as [e2|r2] eqn:E2; normalise_calls.
  - change (1 + 1 + 1 <? 3) with false. cbv iota. close_run.
  - close_run.
Qed.

Lemma generateJSON_runs w :
  let out := generateJSON prompt taskType env w in
  ∃ (evs : list Event) (p : Provider),
    trace out.2 = trace w ++ evs ∧
    Forall (isRouterEvent prompt maxTokens timeout) evs ∧
    (1 ≤ countCalls evs ≤ 5)%nat ∧
    (backupAI cfg = false → (countCalls evs ≤ 2)%nat ∧ sumDelays evs ≤ 2000) ∧
    aiCalls out.2 = (aiCalls w + countCalls evs)%nat ∧
    0 ≤ sumDelays evs ≤ 8000 ∧
    posts out.2 = posts w ∧ store out.2 = store w ∧
    last evs = Some (callEvent p) ∧
    (p = primary ∨ (backupAI cfg = true ∧ p = backup)) ∧
    match out.1 with
    | inr r =>
        ∃ res, reply (ai env (pred (aiCalls out.2)) p) = inr res ∧
               r = respond res p (wnow out.2 - wnow w)
    | inl e => ∃ e', reply (ai env (pred (aiCalls out.2)) p) = inl e'
    end.
Proof.
  intros out. unfold out. rewrite generateJSON_unfold.
  destruct (primary_runs w) as (evs1 & Ht1 & Hf1 & Hc1 & Ha1 & Hd1 & Hp1 & Hs1 & Hl1 & Hr1).
  destruct (tryPrimaryProvider primary prompt maxTokens timeout env w) as [r w1].
  simpl in Ht1, Ha1, Hp1, Hs1, Hr1.
  pose proof (retry_runs backup w1) as Hretry.
  destruct (tryProviderWithRetry backup prompt maxTokens timeout 3 env w1) as [b w2].
  simpl in Hretry.
  destruct Hretry as (evs2 & Ht2 & Hf2 & Hc2 & Ha2 & Hd2 & Hp2 & Hs2 & Hl2 & Hr2).
  assert (Hboth : backupAI cfg = true →
    trace w2 = trace w ++ (evs1 ++ evs2) ∧
    Forall (isRouterEvent prompt maxTokens timeout) (evs1 ++ evs2) ∧
    (1 ≤ countCalls (evs1 ++ evs2) ≤ 5)%nat ∧
    (backupAI cfg = false →
     (countCalls (evs1 ++ evs2) ≤ 2)%nat ∧ sumDelays (evs1 ++ evs2) ≤ 2000) ∧
    aiCalls w2 = (aiCalls w + countCalls (evs1 ++ evs2))%nat ∧
    0 ≤ sumDelays (evs1 ++ evs2) ≤ 8000 ∧
    posts w2 = posts w ∧ store w2 = store w ∧
    last (evs1 ++ evs2) = Some (callEvent backup) ∧
    (backup = primary ∨ (backupAI cfg = true ∧ backup = backup))).
  { intros Hon. rewrite countCalls_app, sumDelays_app, last_app, Hl2.
    split; [by rewrite Ht2, Ht1, <- app_assoc|]. split; [by apply Forall_app|].
    split; [lia|]. split; [intros Hoff; congruence|]. split; [lia|]. split; [lia|].
    split; [congruence|]. split; [congruence|]. split; [done|]. by right. }
  assert (Hone :
    trace w1 = trace w ++ evs1 ∧
    Forall (isRouterEvent prompt maxTokens timeout) evs1 ∧
    (1 ≤ countCalls evs1 ≤ 5)%nat ∧
    (backupAI cfg = false → (countCalls evs1 ≤ 2)%nat ∧ sumDelays evs1 ≤ 2000) ∧
    aiCalls w1 = (aiCalls w + countCalls evs1)%nat ∧
    0 ≤ sumDelays evs1 ≤ 8000 ∧
    posts w1 = posts w ∧ store w1 = store w ∧
    last evs1 = Some (callEvent primary) ∧
    (primary = primary ∨ (backupAI cfg = true ∧ primary = backup))).
  { split; [done|]. split; [done|]. split; [lia|]. split; [intros _; lia|].
    split; [done|]. split; [lia|]. split; [done|]. split; [done|]. split; [done|]. by left. }
  destruct r as [pe|[res|]]; [| |done].
  - destruct (backupAI cfg) eqn:Eb.
    + exists (evs1 ++ evs2), backup.
      destruct (Hboth eq_refl) as (H1 & H2 & H3 & H4 & H5 & H6 & H7 & H8 & H9 & H10).
      destruct b as [be|bres]; simpl;
        (split; [exact H1|]); (split; [exact H2|]); (split; [exact H3|]);
        (split; [exact H4|]); (split; [exact H5|]); (split; [exact H6|]);
        (split; [exact H7|]); (split; [exact H8|]); (split; [exact H9|]);
        (split; [exact H10|]); eauto.
    + exists evs1, primary.
      destruct Hone as (H1 & H2 & H3 & H4 & H5 & H6 & H7 & H8 & H9 & H10). simpl.
      (split; [exact H1|]); (split; [exact H2|]); (split; [exact H3|]);
        (split; [exact H4|]); (split; [exact H5|]); (split; [exact H6|]);
        (split; [exact H7|]); (split; [exact H8|]); (split; [exact H9|]);
        (split; [exact H10|]); eauto.
  - exists evs1, primary.
    destruct Hone as (H1 & H2 & H3 & H4 & H5 & H6 & H7 & H8 & H9 & H10). simpl.
    (split; [exact H1|]); (split; [exact H2|]); (split; [exact H3|]);
      (split; [exact H4|]); (split; [exact H5|]); (split; [exact H6|]);
      (split; [exact H7|]); (split; [exact H8|]); (split; [exact H9|]);
      (split; [exact H10|]); eauto.
Qed.

(** X14.  The work of one request is bounded, whatever the backends do:
    [generateJSON] invokes the providers at least once and at most five
    times (at most twice when the backup is switched off), always with the
    prompt, the token budget and the timeout of the request; it waits at
    most 8000 ms in all between attempts (2000 ms without backup); and it
    does nothing else: no message, no POST, no change to the conversation
    store. *)
Theorem request_work_is_bounded (w : World) :
  let out := generateJSON prompt taskType env w in
  ∃ evs : list Event,
    trace out.2 = trace w ++ evs ∧
    Forall (isRouterEvent prompt maxTokens timeout) evs ∧
    (1 ≤ countCalls evs ≤ 5)%nat ∧
    (backupAI cfg = false → (countCalls evs ≤ 2)%nat ∧ sumDelays evs ≤ 2000) ∧
    aiCalls out.2 = (aiCalls w + countCalls evs)%nat ∧
    0 ≤ sumDelays evs ≤ 8000 ∧
    posts out.2 = posts w ∧ store out.2 = store w.
Proof.
  intros out.
  destruct (generateJSON_runs w) as (evs & p & H1 & H2 & H3 & H4 & H5 & H6 & H7 & H8 & _).
  exists evs. by repeat (split; [done|]).
Qed.

(** X15.  The outcome of a request is the outcome of the last invocation
    made.  When [generateJSON] returns, the last provider invoked has
    returned, and the response carries that reply's data and token counts,
    is tagged with that provider (the primary one, or the other one when
    the backup is on), is never marked as cached, and reports as
    processing time the time elapsed since the request started.  When it
    throws, the last invocation made has failed.  In particular the
    [return null] of the primary path is never reached. *)
Theorem response_comes_from_last_invocation (w : World) :
  let out := generateJSON prompt taskType env w in
  (tryPrimaryProvider primary prompt maxTokens timeout env w).1 ≠ inr None ∧
  ∃ (evs : list Event) (p : Provider),
    trace out.2 = trace w ++ evs ∧
    last evs = Some (callEvent p) ∧
    (p = primary ∨ (backupAI cfg = true ∧ p = backup)) ∧
    match out.1 with
    | inr r =>
        ∃ res, reply (ai env (pred (aiCalls out.2)) p) = inr res ∧
          r_provider r = p ∧ r_data r = data res ∧
          r_tokensUsed r = tokensUsed res ∧ r_inputTokens r = inputTokens res ∧
          r_outputTokens r = outputTokens res ∧ r_cached r = false ∧
          r_processingTime r = wnow out.2 - wnow w
    | inl e => ∃ e', reply (ai env (pred (aiCalls out.2)) p) = inl e'
    end.
Proof.
  intros out. split.
  - destruct (primary_runs w) as (evs1 & _ & _ & _ & _ & _ & _ & _ & _ & Hr1).
    intros H. by rewrite H in Hr1.
  - destruct (generateJSON_runs w)
      as (evs & p & H1 & _ & _ & _ & _ & _ & _ & _ & H9 & H10 & H11).
    exists evs, p. fold out in H11. do 3 (split; [done|]).
    destruct out.1 as [e|r]; [done|].
    destruct H11 as (res & Hres & ->). exists res. by repeat split.
Qed.

End RouterMore.

(** * The two parsers compared *)
Section ParserMore.
Context {T : Type} (JSON_parse : ustring → string + T).

(** X16.  Whatever the OpenRouter client extracts from a reply, the Claude
    client extracts too: when [OpenRouterService.parseJSONResponse]
    returns a value, [ClaudeService.parseJSONResponse] returns the same
    value on the same text.  And when the OpenRouter parser fails, it
    throws the fixed error ['Invalid JSON response from OpenRouter'] and
    the reply itself goes to the log only (its first 500 code units). *)
Theorem openrouter_result_is_claude_result (content : ustring) :
  let o := OpenRouterService.parseJSONResponse JSON_parse content in
  let c := ClaudeService.parseJSONResponse JSON_parse content in
  (∀ v, o.1 = inr v → c.1 = inr v) ∧
  (∀ e, o.1 = inl e →
     e = Error "Invalid JSON response from OpenRouter" ∧
     last o.2 = Some (ClaudeService.LogErrorSample "Response content (first 500 chars): "
                                                   (substring content 0 500))) ∧
  (∀ v, o.1 = inr v → o.2 = []).
Proof.
  unfold OpenRouterService.parseJSONResponse, ClaudeService.parseJSONResponse,
    ClaudeService.strategy, OpenRouterService.failed.
  destruct (ClaudeService.codeBlockMatch content) as [capture|]; simpl.
  - destruct (JSON_parse (trim capture)) as [m|v0]; simpl.
    + split; [intros v [=]|]. split; [by intros e [= <-]|intros v [=]].
    + split; [done|]. split; [intros e [=]|done].
  - destruct (JSON_parse (trim content)) as [m2|v0]; simpl;
      [|split; [done|]; split; [intros e [=]|done]].
    destruct (ClaudeService.between ClaudeService.openBrace ClaudeService.closeBrace content)
      as [j3|]; simpl.
    + destruct (JSON_parse j3) as [m3|v0]; simpl;
        [|split; [done|]; split; [intros e [=]|done]].
      split; [intros v [=]|]. split; [by intros e [= <-]|intros v [=]].
    + destruct (ClaudeService.between ClaudeService.openBracket ClaudeService.closeBracket
                  content) as [j4|]; simpl.
      * destruct (JSON_parse j4) as [m4|v0]; simpl;
          [|split; [done|]; split; [intros e [=]|done]].
        split; [intros v [=]|]. split; [by intros e [= <-]|intros v [=]].
      * split; [intros v [=]|]. split; [by intros e [= <-]|intros v [=]].
Qed.

End ParserMore.

(** X17.  The OpenRouter parser stops at the first candidate it finds.  A
    code block that does not parse makes it fail at once, and so does text
    between braces that does not parse once the whole text has failed: the
    later candidates are not tried.  The Claude parser goes on in both
    cases, so there are replies that the Claude client accepts and the
    OpenRouter client rejects: for one, a reply whose code block is not
    JSON and that holds an object after it. *)
Theorem openrouter_stops_at_first_candidate :
  (∀ (T : Type) (JSON_parse : ustring → string + T) content capture m,
     ClaudeService.codeBlockMatch content = Some capture →
     JSON_parse (trim capture) = inl m →
     (OpenRouterService.parseJSONResponse JSON_parse content).1
       = inl (Error "Invalid JSON response from OpenRouter") ∧
     (ClaudeService.parseJSONResponse JSON_parse content).1 =
       match firstParsed JSON_parse
               [Some (trim content);
                ClaudeService.between ClaudeService.openBrace ClaudeService.closeBrace content;
                ClaudeService.between ClaudeService.openBracket ClaudeService.closeBracket
                  content] with
       | Some v => inr v
       | None => inl (Error "Invalid JSON response from Claude")
       end) ∧
  (∀ (T : Type) (JSON_parse : ustring → string + T) content j m2 m3,
     ClaudeService.codeBlockMatch content = None →
     JSON_parse (trim content) = inl m2 →
     ClaudeService.between ClaudeService.openBrace ClaudeService.closeBrace content = Some j →
     JSON_parse j = inl m3 →
     (OpenRouterService.parseJSONResponse JSON_parse content).1
       = inl (Error "Invalid JSON response from OpenRouter") ∧
     (ClaudeService.parseJSONResponse JSON_parse content).1 =
       match firstParsed JSON_parse
               [ClaudeService.between ClaudeService.openBracket ClaudeService.closeBracket
                  content] with
       | Some v => inr v
       | None => inl (Error "Invalid JSON response from Claude")
       end) ∧
  (let content := u16 "```x``` {}" in
   (ClaudeService.parseJSONResponse parseLiterals content).1 = inr (JObj []) ∧
   (OpenRouterService.parseJSONResponse parseLiterals content).1
     = inl (Error "Invalid JSON response from OpenRouter")).
Proof.
  split; [|split].
  - intros T JSON_parse content capture m Hc Hp.
    unfold OpenRouterService.parseJSONResponse, ClaudeService.parseJSONResponse,
      ClaudeService.strategy.
    rewrite Hc. simpl. rewrite Hp. simpl. split; [done|].
    destruct (JSON_parse (trim content)); [|done].
    destruct (ClaudeService.between ClaudeService.openBrace ClaudeService.closeBrace content)
      as [j3|]; simpl; [destruct (JSON_parse j3); [|done]|];
      (destruct (ClaudeService.between ClaudeService.openBracket ClaudeService.closeBracket
                   content) as [j4|]; simpl; [by destruct (JSON_parse j4)|done]).
  - intros T JSON_parse content j m2 m3 Hc H2 Hb H3.
    unfold OpenRouterService.parseJSONResponse, ClaudeService.parseJSONResponse,
      ClaudeService.strategy.
    rewrite Hc. simpl. rewrite H2, Hb. simpl. rewrite H3. simpl. split; [done|].
    destruct (ClaudeService.between ClaudeService.openBracket ClaudeService.closeBracket
                content) as [j4|]; simpl; [by destruct (JSON_parse j4)|done].
  - cbv zeta. split; vm_compute; reflexivity.
Qed.

(** * Further properties of the topic step *)
Section TopicStepMore.
Import Validation TelegramController.

Variables (chatId : Z) (userId : string) (text : ustring) (env : Env).

Local Abbreviation sanitizedTopic := (sanitizeInput (nfc env) text).
Local Abbreviation key := (ConversationManager.getKey userId chatId).

Lemma held_result task now s :
  (ConversationManager.tryAcquireLock userId chatId task now s).1 = negb (held userId chatId s).
Proof.
  rewrite tryAcquireLock_result. unfold held.
  by destruct (ConversationManager.conversations s !! key).
Qed.

(** The handler once the topic is valid and the lock is free: the request
    for titles, the two ways it can end, and the release. *)
Lemma handleTopicInput_accepted w :
  valid (validateTopic sanitizedTopic) = true →
  held userId chatId (store w) = false →
  handleTopicInput chatId userId text env w =
    match ContentService.generateTitles sanitizedTopic userId env
            (topicAccepted chatId userId sanitizedTopic w) with
    | (inr result, w3) =>
        let w4 := withStore
                    (ConversationManager.updateConversation userId chatId
                       (mkUpdates None None None None
                                  (Some (ContentService.t_titles result))
                                  None None None None None None) (wnow w3)) w3 in
        match ContentService.t_titles result with
        | Some ts =>
            (inr tt,
             lockReleased chatId userId
               (notified chatId (MsgTitles ts (ContentService.t_provider result)
                                           (ContentService.t_tokensUsed result)) w4))
        | None =>
            (inl (Error "TypeError: Cannot read properties of undefined (reading 'forEach')"),
             lockReleased chatId userId w4)
        end
    | (inl error, w3) =>
        if includes "timeout" (message error) then
          (inr tt,
           lockReleased chatId userId
             (withStore (ConversationManager.resetConversation userId chatId)
                (notified chatId (MsgTimeout (roundMinutes (aiRequestTimeout (config env))))
                          w3)))
        else (inl error, lockReleased chatId userId w3)
    end.
Proof.
  intros Hvalid Hfree.
  unfold handleTopicInput, mbind, M_bind, ask. rewrite Hvalid. cbn [negb].
  unfold onStore at 1.
  pose proof (held_result titles (wnow w) (store w)) as Hacq. rewrite Hfree in Hacq.
  unfold topicAccepted.
  destruct (ConversationManager.tryAcquireLock userId chatId titles (wnow w) (store w))
    as [b s1]. simpl in Hacq. subst b. cbn [negb snd].
  unfold finally, try_, mbind, M_bind, updateConversation, onStore, sendTypingAction,
    sendMessage, emit, topicUpdate. simpl.
  rewrite <- !app_assoc. simpl.
  destruct (ContentService.generateTitles _ _ _ _) as [[error|result] w3]; simpl.
  - destruct (includes "timeout" (message error)); reflexivity.
  - destruct (ContentService.t_titles result) as [ts|]; reflexivity.
Qed.

Lemma generateTitles_runs (t : ustring) w :
  let out := ContentService.generateTitles t userId env w in
  store out.2 = store w ∧ posts out.2 = posts w ∧
  (aiCalls w + 1 ≤ aiCalls out.2 ≤ aiCalls w + 5)%nat ∧
  (∃ evs, trace out.2 = trace w ++ evs ∧
          Forall (isRouterEvent (TitlePrompt t)
                    (AIRouter.getMaxTokens (config env) titles)
                    (AIRouter.getTimeout (config env) titles)) evs) ∧
  (∀ e, out.1 = inl e → ∃ m, message e = "Failed to generate titles: " +:+ m).
Proof.
  intros out. unfold out, ContentService.generateTitles, mbind, M_bind, try_.
  destruct (generateJSON_runs (TitlePrompt t) titles env w)
    as (evs & p & H1 & H2 & H3 & _ & H5 & _ & H7 & H8 & _).
  destruct (AIRouter.generateJSON (TitlePrompt t) titles env w) as [[e|r] w1]; simpl in *.
  - split; [done|]. split; [done|]. split; [lia|]. split; [by eauto|].
    intros e' [= <-]. by eexists.
  - split; [done|]. split; [done|]. split; [lia|]. split; [by eauto|]. intros e' [=].
Qed.


Lemma topicAccepted_other w k :
  k ≠ key →
  ConversationManager.conversations (store (topicAccepted chatId userId sanitizedTopic w)) !! k
  = ConversationManager.conversations (store w) !! k.
Proof.
  intros Hne. unfold topicAccepted. cbn [store].
  rewrite updateConversation_other by done. by rewrite tryAcquireLock_other.
Qed.


Lemma released_not_held now s :
  held userId chatId (ConversationManager.releaseLock userId chatId now s) = false.
Proof.
  unfold held, ConversationManager.releaseLock; simpl.
  destruct (ConversationManager.conversations s !! key) as [conv|] eqn:E.
  - by rewrite lookup_insert_eq.
  - by rewrite E.
Qed.

(** X18.  A topic that arrives while the lock of the pair is held is only
    answered: the handler sends the busy notice naming the task in
    progress and returns; no provider is invoked, nothing is posted, the
    lock stays with its holder, and the entry is unchanged but for its
    refreshed [lastActivity]. *)
Theorem busy_topic_is_only_answered (w : World) (conv : ConversationState) :
  valid (validateTopic sanitizedTopic) = true →
  ConversationManager.conversations (store w) !! key = Some conv →
  truthy (isProcessing conv) = true →
  let out := handleTopicInput chatId userId text env w in
  out.1 = inr tt ∧
  trace out.2 = trace w ++ [EvSendMessage chatId (MsgBusy (processingTask conv))] ∧
  aiCalls out.2 = aiCalls w ∧ posts out.2 = posts w ∧ wnow out.2 = wnow w ∧
  ConversationManager.conversations (store out.2) !! key
    = Some (ConversationManager.touch (wnow w) conv) ∧
  (∀ k, k ≠ key →
     ConversationManager.conversations (store out.2) !! k
     = ConversationManager.conversations (store w) !! k).
Proof.
  intros Hvalid Hconv Hheld out.
  assert (Hb : held userId chatId (store w) = true) by (unfold held; by rewrite Hconv).
  pose proof (held_result titles (wnow w) (store w)) as Hacq. rewrite Hb in Hacq.
  pose proof (tryAcquireLock_lookup userId chatId titles (wnow w) (store w)) as Hl.
  pose proof (λ k, tryAcquireLock_other userId chatId titles (wnow w) (store w) k) as Ho.
  rewrite Hconv in Hl. simpl in Hl. rewrite Hheld in Hl.
  assert (Hout : ∃ s2, out = (inr tt, mkWorld (wnow w) (aiCalls w) (posts w) s2
                     (trace w ++ [EvSendMessage chatId (MsgBusy (processingTask conv))])) ∧
            ConversationManager.conversations s2 !! key
              = Some (ConversationManager.touch (wnow w) conv) ∧
            (∀ k, k ≠ key →
               ConversationManager.conversations s2 !! k
               = ConversationManager.conversations (store w) !! k)).
  { unfold out, handleTopicInput, mbind, M_bind, ask. rewrite Hvalid. cbn [negb].
    unfold onStore at 1.
    destruct (ConversationManager.tryAcquireLock userId chatId titles (wnow w) (store w))
      as [b s1]. simpl in Hacq, Hl, Ho. subst b. cbn [negb].
    unfold onStore, sendMessage, emit. simpl.
    rewrite Hl. eexists. split; [reflexivity|]. simpl. split.
    - by rewrite lookup_insert_eq.
    - intros k Hne. rewrite lookup_insert_ne by done. by apply Ho. }
  destruct Hout as (s2 & -> & Hl2 & Ho2). simpl.
  split; [done|]. split; [done|]. split; [done|]. split; [done|]. split; [done|].
  split; [done|]. exact Ho2.
Qed.

Lemma lockReleased_other w k :
  k ≠ key →
  ConversationManager.conversations (store (lockReleased chatId userId w)) !! k
  = ConversationManager.conversations (store w) !! k.
Proof.
  intros Hne. unfold lockReleased, withStore. cbn [store]. by rewrite releaseLock_other.
Qed.

Lemma lockReleased_not_held w : held userId chatId (store (lockReleased chatId userId w)) = false.
Proof. unfold lockReleased, withStore. cbn [store]. apply released_not_held. Qed.

(** X19.  The topic step never leaves the lock held.  When the topic is
    valid and the lock is free, then however the generation ends (titles
    shown, timeout reported, error rethrown), the lock of the pair is free
    again when [handleTopicInput] is left; between 1 and 5 provider
    invocations were made, nothing was posted, the entries of other pairs
    are untouched, and an error that leaves the handler never mentions a
    timeout (those are reported to the user instead). *)
Theorem topic_step_releases_the_lock (w : World) :
  valid (validateTopic sanitizedTopic) = true →
  held userId chatId (store w) = false →
  let out := handleTopicInput chatId userId text env w in
  held userId chatId (store out.2) = false ∧
  posts out.2 = posts w ∧
  (aiCalls w + 1 ≤ aiCalls out.2 ≤ aiCalls w + 5)%nat ∧
  (∀ e, out.1 = inl e → includes "timeout" (message e) = false) ∧
  (∀ k, k ≠ key →
     ConversationManager.conversations (store out.2) !! k
     = ConversationManager.conversations (store w) !! k).
Proof.
  intros Hvalid Hfree out. unfold out. rewrite (handleTopicInput_accepted w Hvalid Hfree).
  destruct (generateTitles_runs sanitizedTopic (topicAccepted chatId userId sanitizedTopic w))
    as (Hs & Hp & Hc & _ & _).
  pose proof (topicAccepted_other w) as Hother.
  destruct (ContentService.generateTitles sanitizedTopic userId env
              (topicAccepted chatId userId sanitizedTopic w)) as [[error|result] w3];
    cbn [fst snd] in Hs, Hp, Hc.
  - destruct (includes "timeout" (message error)) eqn:Et; cbn [fst snd].
    + split; [apply lockReleased_not_held|]. split; [exact Hp|]. split; [exact Hc|].
      split; [intros e [=]|].
      intros k Hne. rewrite lockReleased_other by done.
      unfold withStore, notified, ConversationManager.resetConversation. cbn [store].
      cbn [ConversationManager.conversations].
      rewrite lookup_delete_ne by done. rewrite Hs. by apply Hother.
    + split; [apply lockReleased_not_held|]. split; [exact Hp|]. split; [exact Hc|].
      split; [by intros e [= <-]|].
      intros k Hne. rewrite lockReleased_other by done. rewrite Hs. by apply Hother.
  - cbv zeta.
    destruct (ContentService.t_titles result) as [ts|]; cbn [fst snd].
    + split; [apply lockReleased_not_held|]. split; [exact Hp|]. split; [exact Hc|].
      split; [intros e [=]|].
      intros k Hne. rewrite lockReleased_other by done.
      unfold withStore, notified. cbn [store].
      rewrite updateConversation_other by done. rewrite Hs. by apply Hother.
    + split; [apply lockReleased_not_held|]. split; [exact Hp|]. split; [exact Hc|].
      split; [by intros e [= <-]|].
      intros k Hne. rewrite lockReleased_other by done.
      unfold withStore. cbn [store].
      rewrite updateConversation_other by done. rewrite Hs. by apply Hother.
Qed.




End TopicStepMore.

Lemma busy_topic_witness :
  let out := TelegramController.handleTopicInput 7 "7" (u16 "a valid topic")
               (backendsReturning (TitlesData [])) worldBusy in
  out.1 = inr tt ∧
  trace out.2 = trace worldBusy ++ [EvSendMessage 7 (MsgBusy (Some outline))] ∧
  aiCalls out.2 = aiCalls worldBusy.
Proof.
  cbv zeta.
  assert (Hvalid : Validation.valid (Validation.validateTopic
            (Validation.sanitizeInput (nfc (backendsReturning (TitlesData [])))
               (u16 "a valid topic"))) = true) by (vm_compute; reflexivity).
  assert (Hconv : ConversationManager.conversations (store worldBusy)
                    !! ConversationManager.getKey "7" 7
                  = Some (ConversationManager.acquire outline 0
                            (ConversationManager.fresh "7" 7 0)))
    by (vm_compute; reflexivity).
  pose proof (busy_topic_is_only_answered 7 "7" (u16 "a valid topic")
                (backendsReturning (TitlesData [])) worldBusy _ Hvalid Hconv eq_refl)
    as (H1 & H2 & H3 & _).
  split; [exact H1|]. split; [exact H2|exact H3].
Defined.

Lemma topic_step_witness :
  let out := TelegramController.handleTopicInput 7 "7" (u16 "a valid topic")
               (backendsFailing "Claude API error: 400 invalid request" true) world0 in
  held "7" 7 (store out.2) = false ∧ posts out.2 = posts world0.
Proof.
  cbv zeta.
  assert (Hvalid : Validation.valid (Validation.validateTopic
            (Validation.sanitizeInput
               (nfc (backendsFailing "Claude API error: 400 invalid request" true))
               (u16 "a valid topic"))) = true) by (vm_compute; reflexivity).
  assert (Hfree : held "7" 7 (store world0) = false) by (vm_compute; reflexivity).
  pose proof (topic_step_releases_the_lock 7 "7" (u16 "a valid topic")
                (backendsFailing "Claude API error: 400 invalid request" true) world0
                Hvalid Hfree) as (H1 & H2 & _).
  split; [exact H1|exact H2].
Defined.



(** * The choice of a title *)
Section SelectionMore.
Import Validation TitleSelection.

Lemma u16_cons (a : Ascii.ascii) (s : string) : u16 (String a s) = Ascii.N_of_ascii a :: u16 s.
Proof. reflexivity. Qed.

Lemma digit_char (d : N) :
  (d < 10)%N →
  digitValue (Ascii.N_of_ascii (pretty_N_char d)) = Some (Z.of_N d) ∧
  isSpace (Ascii.N_of_ascii (pretty_N_char d)) = false ∧
  (Ascii.N_of_ascii (pretty_N_char d) =? 45)%N = false ∧
  (Ascii.N_of_ascii (pretty_N_char d) =? 43)%N = false.
Proof.
  intros H.
  assert (d = 0 ∨ d = 1 ∨ d = 2 ∨ d = 3 ∨ d = 4 ∨ d = 5 ∨ d = 6 ∨ d = 7 ∨ d = 8 ∨ d = 9)%N
    as Hd by lia.
  destruct Hd as [->|[->|[->|[->|[->|[->|[->|[->|[->| ->]]]]]]]]]; by vm_compute.
Qed.

(** Reading back the digits that [pretty] writes. *)
Lemma digits_pretty_go (x : N) :
  (0 < x)%N →
  ∃ k, ∀ s acc,
    digits (u16 (pretty_N_go x s)) acc = digits (u16 s) (Some (default 0 acc * k + Z.of_N x)).
Proof.
  induction (N.lt_wf_0 x) as [x _ IH]. intros Hx.
  destruct (digit_char (x `mod` 10)%N) as (Hd & _); [by apply N.mod_lt|].
  assert (Hx10 : Z.of_N x = Z.of_N (x `div` 10) * 10 + Z.of_N (x `mod` 10)).
  { rewrite (N.div_mod x 10) at 1 by done. lia. }
  destruct (decide (x `div` 10 = 0)%N) as [Hz|Hnz].
  - exists 10. intros s acc. rewrite pretty_N_go_step by done.
    rewrite Hz, pretty_N_go_0, u16_cons. simpl. rewrite Hd.
    do 2 f_equal. rewrite Hx10, Hz. change (Z.of_N 0) with 0. ring.
  - destruct (IH (x `div` 10)%N) as [k Hk]; [by apply N.div_lt|by apply N.neq_0_lt_0|].
    exists (k * 10). intros s acc. rewrite pretty_N_go_step by done.
    rewrite Hk, u16_cons. simpl. rewrite Hd. do 2 f_equal. rewrite Hx10. ring.
Qed.

Lemma pretty_go_head (x : N) (s : string) :
  (0 < x)%N → ∃ d rest, (d < 10)%N ∧ pretty_N_go x s = String (pretty_N_char d) rest.
Proof.
  revert s. induction (N.lt_wf_0 x) as [x _ IH]. intros s Hx.
  rewrite pretty_N_go_step by done.
  destruct (decide (x `div` 10 = 0)%N) as [Hz|Hnz].
  - rewrite Hz, pretty_N_go_0. exists (x `mod` 10)%N, s. split; [by apply N.mod_lt|done].
  - apply IH; [by apply N.div_lt|by apply N.neq_0_lt_0].
Qed.

Lemma mathInt_pretty_pos (p : positive) :
  mathInt (u16 (pretty (N.pos p))) = Some (Z.pos p) ∧
  digits (u16 (pretty (N.pos p))) None = Some (Z.pos p).
Proof.
  unfold pretty, pretty_N. rewrite decide_False by done.
  destruct (digits_pretty_go (N.pos p)) as [k Hk]; [lia|].
  assert (Hdig : digits (u16 (pretty_N_go (N.pos p) EmptyString)) None = Some (Z.pos p)).
  { rewrite Hk. simpl. done. }
  split; [|done].
  destruct (pretty_go_head (N.pos p) EmptyString) as (d & rest & Hd & Hhead); [lia|].
  destruct (digit_char d Hd) as (_ & Hsp & H45 & H43).
  unfold mathInt. rewrite Hhead in Hdig |- *. rewrite u16_cons in Hdig |- *.
  cbn [trimStart]. rewrite Hsp, H45, H43. exact Hdig.
Qed.

(** The integer is read back exactly. *)
Lemma mathInt_pretty (z : Z) : mathInt (u16 (pretty z)) = Some z.
Proof.
  destruct z as [|p|p].
  - reflexivity.
  - apply (mathInt_pretty_pos p).
  - change (pretty (Z.neg p)) with (String (Ascii.ascii_of_nat 45) (pretty (N.pos p))).
    rewrite u16_cons. unfold mathInt. cbn [trimStart].
    change (isSpace (Ascii.N_of_ascii (Ascii.ascii_of_nat 45))) with false. cbv iota.
    change (Ascii.N_of_ascii (Ascii.ascii_of_nat 45) =? 45)%N with true. cbv iota.
    destruct (mathInt_pretty_pos p) as [_ ->]. reflexivity.
Qed.

(** Up to [2^53] the rounding keeps the integer. *)
Lemma roundMagnitude_small (m : Z) : 0 ≤ m ≤ 2 ^ 53 → roundMagnitude m = Some m.
Proof.
  intros [H0 H53]. destruct (decide (m = 2 ^ 53)) as [->|Hne]; [by vm_compute|].
  unfold roundMagnitude. cbv zeta.
  assert (Hlog : Z.log2 m < 53).
  { destruct (decide (m = 0)) as [->|Hpos]; [by vm_compute|].
    apply Z.log2_lt_pow2; lia. }
  by rewrite (proj2 (Z.leb_le _ _)) by lia.
Qed.

(** Beyond [2^53] the rounded value, when there is one, is large too. *)
Lemma roundMagnitude_large (m v : Z) :
  2 ^ 53 ≤ m → roundMagnitude m = Some v → 2 ^ 52 ≤ v.
Proof.
  intros Hm. unfold roundMagnitude. cbv zeta.
  destruct (Z.log2 m + 1 <=? 53) eqn:Eb; [intros [= <-]; lia|].
  apply Z.leb_gt in Eb.
  set (e := Z.log2 m + 1 - 53) in *.
  assert (He : 0 < e) by (unfold e; lia).
  assert (Hq : 2 ^ 52 ≤ Z.shiftr m e).
  { rewrite Z.shiftr_div_pow2 by lia.
    apply Z.div_le_lower_bound; [by apply Z.pow_pos_nonneg; lia|].
    rewrite <- Z.pow_add_r by lia.
    replace (e + 52) with (Z.log2 m) by (unfold e; lia).
    apply Z.log2_spec. lia. }
  assert (H2e : 1 ≤ 2 ^ e) by (apply (Z.pow_le_mono_r 2 0 e); lia).
  destruct (2 ^ 1024 <=? _); [discriminate|]. intros [= <-].
  rewrite Z.shiftl_mul_pow2 by lia.
  destruct ((_ <? _) || _); nia.
Qed.

Lemma toNumber_small (z : Z) : Z.abs z ≤ 2 ^ 53 → toNumber z = Finite z.
Proof.
  intros Hz. unfold toNumber. rewrite roundMagnitude_small by lia.
  f_equal. destruct (z <? 0) eqn:E; [apply Z.ltb_lt in E|apply Z.ltb_ge in E]; lia.
Qed.

(** The rounding does not change how a number compares with 1 and 10. *)
Lemma toNumber_compares (z : Z) :
  lessThan (toNumber z) 1 = (z <? 1) ∧ greaterThan (toNumber z) 10 = (z >? 10).
Proof.
  destruct (decide (Z.abs z ≤ 2 ^ 53)) as [Hs|Hl]; [by rewrite toNumber_small|].
  unfold toNumber.
  destruct (roundMagnitude (Z.abs z)) as [v|] eqn:Er.
  - apply roundMagnitude_large in Er; [|lia].
    assert (0 < 2 ^ 52) by (by vm_compute).
    assert (10 < 2 ^ 52) by (by vm_compute).
    destruct (z <? 0) eqn:E; [apply Z.ltb_lt in E|apply Z.ltb_ge in E]; simpl.
    + split; [|rewrite !Z.gtb_ltb]; symmetry.
      * rewrite (proj2 (Z.ltb_lt (- v) 1)) by lia. apply Z.ltb_lt. lia.
      * rewrite (proj2 (Z.ltb_ge 10 (- v))) by lia. apply Z.ltb_ge. lia.
    + split; [|rewrite !Z.gtb_ltb]; symmetry.
      * rewrite (proj2 (Z.ltb_ge v 1)) by lia. apply Z.ltb_ge. lia.
      * rewrite (proj2 (Z.ltb_lt 10 v)) by lia. apply Z.ltb_lt. lia.
  - assert (2 ^ 53 < Z.abs z) by lia. assert (0 < 2 ^ 53) by (by vm_compute).
    assert (10 < 2 ^ 53) by (by vm_compute).
    destruct (z <? 0) eqn:E; [apply Z.ltb_lt in E|apply Z.ltb_ge in E]; simpl.
    + split; [|rewrite Z.gtb_ltb]; symmetry; [apply Z.ltb_lt|apply Z.ltb_ge]; lia.
    + split; [|rewrite Z.gtb_ltb]; symmetry; [apply Z.ltb_ge|apply Z.ltb_lt]; lia.
Qed.

(** X22.  A choice written as a decimal number is read as that number.
    For every integer [z], [parseInt] reads the integer [z] off the decimal
    rendering of [z] and returns its number value: [z] itself as long as
    [|z| <= 2^53], the nearest double beyond that (9007199254740993 is
    read as 9007199254740992).  The rounding never changes the verdict:
    [validateTitleSelection] accepts the rendering of [z] exactly when
    [1 <= z <= 10], and rejects every other number with the request to
    choose a number from 1 to 10. *)
Theorem selection_reads_decimal_numbers (z : Z) :
  parseInt (u16 (pretty z)) = Some (toNumber z) ∧
  (Z.abs z ≤ 2 ^ 53 → parseInt (u16 (pretty z)) = Some (Finite z)) ∧
  parseInt (u16 "9007199254740993") = Some (Finite 9007199254740992) ∧
  (valid (validateTitleSelection (u16 (pretty z))) = true ↔ 1 ≤ z ≤ 10) ∧
  (¬ (1 ≤ z ≤ 10) →
   validateTitleSelection (u16 (pretty z))
     = mkValidationResult false (Some "Vui lòng chọn số từ 1-10.")).
Proof.
  assert (Hparse : parseInt (u16 (pretty z)) = Some (toNumber z)).
  { unfold parseInt. by rewrite mathInt_pretty. }
  split; [done|]. split; [intros Hz; by rewrite Hparse, toNumber_small|].
  split; [by vm_compute|].
  unfold validateTitleSelection. rewrite Hparse.
  destruct (toNumber_compares z) as [-> ->].
  destruct (z <? 1) eqn:E1; [apply Z.ltb_lt in E1|apply Z.ltb_ge in E1]; simpl.
  - split; [split; [intros [=]|lia]|done].
  - rewrite Z.gtb_ltb.
    destruct (10 <? z) eqn:E2; [apply Z.ltb_lt in E2|apply Z.ltb_ge in E2]; simpl.
    + split; [split; [intros [=]|lia]|done].
    + split; [split; [lia|done]|lia].
Qed.

Lemma trimStart_spaces (ws s : ustring) :
  forallb isSpace ws = true → trimStart (ws ++ s) = trimStart s.
Proof.
  induction ws as [|c ws IH]; simpl; [done|].
  intros [Hc Hws]%andb_true_iff. rewrite Hc. by apply IH.
Qed.

Lemma digits_app (ds rest : ustring) acc :
  forallb isDigit ds = true → digits (ds ++ rest) acc = digits rest (digits ds acc).
Proof.
  revert acc. induction ds as [|c ds IH]; intros acc; simpl; [done|].
  intros [Hc Hds]%andb_true_iff. unfold isDigit in Hc. apply bool_decide_eq_true_1 in Hc.
  destruct Hc as [d Hd]. rewrite Hd. by apply IH.
Qed.

Lemma digits_stop (rest : ustring) acc : noDigitAhead rest = true → digits rest acc = acc.
Proof.
  destruct rest as [|c rest]; simpl; [done|].
  intros Hc%negb_true_iff. unfold isDigit in Hc. apply bool_decide_eq_false_1 in Hc.
  destruct (digitValue c) as [d|]; [|done]. destruct Hc. by eexists.
Qed.

Lemma digit_is_plain c :
  isDigit c = true → isSpace c = false ∧ (c =? 45)%N = false ∧ (c =? 43)%N = false.
Proof.
  unfold isDigit, digitValue. intros H%bool_decide_eq_true_1.
  destruct ((48 <=? c) && (c <=? 57))%N eqn:E; [|by destruct H].
  apply andb_true_iff in E as [E1%N.leb_le E2%N.leb_le].
  split; [|split]; [|apply N.eqb_neq; lia..].
  unfold isSpace.
  repeat match goal with
  | |- context [(?a <=? ?b)%N] =>
      destruct (N.leb_spec a b); try lia
  | |- context [(?a =? ?b)%N] =>
      destruct (N.eqb_spec a b); try lia
  end; reflexivity.
Qed.

(** X23.  [validateTitleSelection] is lenient about what surrounds the
    number, as [parseInt] is: leading white space is skipped and whatever
    follows the digits is ignored.  For white space [ws], a non-empty run
    of digits [ds] and a text [rest] that does not start with a digit, the
    verdict on [ws ++ ds ++ rest] is the verdict on [ds] alone (so ['3abc'],
    [' 7'] and ['2.5'] choose the titles 3, 7 and 2), and [ds] does denote
    a number. *)
Theorem selection_ignores_surroundings (ws ds rest : ustring) :
  forallb isSpace ws = true →
  ds ≠ [] → forallb isDigit ds = true →
  noDigitAhead rest = true →
  parseInt (ws ++ ds ++ rest) = parseInt ds ∧
  validateTitleSelection (ws ++ ds ++ rest) = validateTitleSelection ds ∧
  is_Some (parseInt ds).
Proof.
  intros Hws Hne Hds Hrest.
  assert (Hp : ∀ tail, noDigitAhead tail = true →
            mathInt (ds ++ tail) = digits ds None ∧ is_Some (digits ds None)).
  { intros tail Htail. destruct ds as [|c ds']; [done|].
    simpl in Hds. apply andb_true_iff in Hds as [Hc Hds'].
    destruct (digit_is_plain c Hc) as (Hsp & H45 & H43).
    unfold mathInt. change ((c :: ds') ++ tail) with (c :: (ds' ++ tail)).
    cbn [trimStart]. rewrite Hsp, H45, H43.
    change (c :: ds' ++ tail) with ((c :: ds') ++ tail).
    rewrite digits_app by (simpl; by rewrite Hc, Hds').
    rewrite digits_stop by done. split; [done|].
    simpl. unfold isDigit in Hc. apply bool_decide_eq_true_1 in Hc. destruct Hc as [d Hd].
    rewrite Hd. clear -Hds'.
    assert (Hacc : ∀ a : Z, is_Some (digits ds' (Some a))).
    { induction ds' as [|c' ds'' IH]; intros a; simpl; [by eexists|].
      simpl in Hds'. apply andb_true_iff in Hds' as [Hc' Hds''].
      unfold isDigit in Hc'. apply bool_decide_eq_true_1 in Hc'. destruct Hc' as [d' Hd'].
      rewrite Hd'. by apply IH. }
    apply Hacc. }
  destruct (Hp rest Hrest) as [H1 Hsome].
  destruct (Hp [] eq_refl) as [H2 _]. rewrite app_nil_r in H2.
  assert (Hmath : mathInt (ws ++ ds ++ rest) = mathInt ds).
  { unfold mathInt at 1. rewrite trimStart_spaces by done.
    fold (mathInt (ds ++ rest)). by rewrite H1, H2. }
  assert (Hparse : parseInt (ws ++ ds ++ rest) = parseInt ds)
    by (unfold parseInt; by rewrite Hmath).
  split; [done|]. split; [unfold validateTitleSelection; by rewrite Hparse|].
  unfold parseInt. rewrite H2. by apply fmap_is_Some.
Qed.

End SelectionMore.

Lemma selection_witness :
  TitleSelection.parseInt (u16 " " ++ u16 "3" ++ u16 "abc") = TitleSelection.parseInt (u16 "3") ∧
  TitleSelection.validateTitleSelection (u16 " " ++ u16 "3" ++ u16 "abc")
    = TitleSelection.validateTitleSelection (u16 "3") ∧
  is_Some (TitleSelection.parseInt (u16 "3")).
Proof.
  apply (selection_ignores_surroundings (u16 " ") (u16 "3") (u16 "abc"));
    [by vm_compute|discriminate|by vm_compute|by vm_compute].
Defined.

(** * The structure of an outline *)
Section OutlineMore.
Import Validation OutlineValidation.

Context (isBlank : string → bool).

Local Abbreviation accepted := (inr (mkValidationResult true None) : Exn + ValidationResult).

Lemma isText_iff v : truthyV v = true ∧ isString v = true ↔ isText v.
Proof.
  unfold isText, isString. split.
  - intros [Ht Hs]. apply String.eqb_eq in Hs.
    destruct v as [| | | |s| |]; try discriminate. exists s. split; [done|].
    intros ->. discriminate.
  - intros (s & -> & Hne). split; [|done]. simpl.
    destruct s; [done|reflexivity].
Qed.

Lemma text_check v :
  negb (truthyV v) || negb (isString v) = false ↔ isText v.
Proof.
  rewrite <- isText_iff. destruct (truthyV v), (isString v); simpl; intuition congruence.
Qed.

Lemma validateSections_accepts i sections :
  validateSections isBlank i sections = accepted ↔ Forall (goodSection isBlank) sections.
Proof.
  revert i. induction sections as [|sec rest IH]; intros i; simpl.
  - split; [constructor|done].
  - rewrite Forall_cons. rewrite <- (IH (i + 1)). unfold goodSection, invalid.
    destruct (negb (truthyV (prop sec "heading")) || negb (isString (prop sec "heading")))
      eqn:Eh.
    + split.
      * destruct sec; discriminate.
      * intros [(_ & _ & (h & Hh & Hne & _) & _) _].
        assert (isText (prop sec "heading")) as Ht%text_check by (by exists h).
        congruence.
    + apply text_check in Eh as (h & Hh & Hne). rewrite Hh.
      destruct (isBlank h) eqn:Eb.
      * split; [destruct sec; discriminate|].
        intros [(_ & _ & (h' & [= <-] & _ & Hb) & _) _]. congruence.
      * destruct (truthyV (prop sec "subheadings")) eqn:Es;
          destruct (isArray (prop sec "subheadings")) eqn:Ea; simpl.
        -- split.
           ++ intros H. split; [|by destruct sec].
              destruct sec; simpl in Hh; try discriminate; by eauto 10.
           ++ intros [_ H]. destruct sec; simpl in Hh; try discriminate; done.
        -- split; [destruct sec; discriminate|].
           intros [(_ & _ & _ & Hsub) _]. specialize (Hsub eq_refl). discriminate.
        -- split.
           ++ intros H. split; [|by destruct sec].
              destruct sec; simpl in Hh; try discriminate; by eauto 10.
           ++ intros [_ H]. destruct sec; simpl in Hh; try discriminate; done.
        -- split.
           ++ intros H. split; [|by destruct sec].
              destruct sec; simpl in Hh; try discriminate;
                (split; [done|]; split; [done|]; split; [by eauto|done]).
           ++ intros [_ H]. destruct sec; simpl in Hh; try discriminate; done.
Qed.

Lemma prop_defined v name s : prop v name = JStr s → truthyV v = true.
Proof. by destruct v. Qed.

Lemma validateSections_verdict i sections r :
  validateSections isBlank i sections = inr r →
  r = mkValidationResult true None ∨ (valid r = false ∧ is_Some (error r)).
Proof.
  revert i. induction sections as [|sec rest IH]; intros i; simpl.
  - intros [= <-]. by left.
  - unfold invalid.
    destruct sec; try discriminate;
      repeat case_match; try (intros [= <-]; right; by eauto); apply IH.
Qed.

(** X24.  [validateOutline] accepts exactly the outlines that have the
    three inference texts ([targetKeyword], [targetAudience],
    [contentPurpose]: strings that are not empty) and at least three
    sections, each of them with a heading that is a string, not empty and
    not blank, and with subheadings that are an array if present.  Nothing
    else is looked at ([estimatedWordCount], the notes and the items of
    the subheadings are not).  Every other verdict is a rejection that
    carries a message. *)
Theorem accepted_outlines_are_the_well_formed_ones (outline : JSVal) :
  (validateOutline isBlank outline = accepted ↔ goodOutline isBlank outline) ∧
  (∀ r, validateOutline isBlank outline = inr r →
     r = mkValidationResult true None ∨ (valid r = false ∧ is_Some (error r))).
Proof.
  unfold validateOutline, goodOutline, invalid. split.
  - destruct (truthyV outline) eqn:Eo; simpl.
    2:{ split; [discriminate|]. intros ((s & Hs & _) & _).
        assert (truthyV (prop outline "inference") = true) by (by eapply prop_defined).
        destruct outline; try discriminate. }
    destruct (truthyV (prop outline "inference")) eqn:Einf; simpl.
    2:{ split; [discriminate|]. intros ((s & Hs & _) & _).
        apply prop_defined in Hs. congruence. }
    destruct (negb (truthyV (prop (prop outline "inference") "targetKeyword")) ||
              negb (isString (prop (prop outline "inference") "targetKeyword"))) eqn:E1.
    { split; [discriminate|]. intros (Ht%text_check & _). congruence. }
    destruct (negb (truthyV (prop (prop outline "inference") "targetAudience")) ||
              negb (isString (prop (prop outline "inference") "targetAudience"))) eqn:E2.
    { split; [discriminate|]. intros (_ & Ht%text_check & _). congruence. }
    destruct (negb (truthyV (prop (prop outline "inference") "contentPurpose")) ||
              negb (isString (prop (prop outline "inference") "contentPurpose"))) eqn:E3.
    { split; [discriminate|]. intros (_ & _ & Ht%text_check & _). congruence. }
    apply text_check in E1, E2, E3.
    destruct (prop outline "outline") as [| |b|z|t|items|fields] eqn:Es;
      cbn [isArray negb]; rewrite ?orb_true_r; simpl;
      try (split; [discriminate|]; by intros (_ & _ & _ & secs & [=] & _)).
    destruct (Z.of_nat (length items) <? 3) eqn:El;
      [apply Z.ltb_lt in El|apply Z.ltb_ge in El].
    + split; [discriminate|]. intros (_ & _ & _ & secs & [= <-] & Hlen & _). lia.
    + rewrite validateSections_accepts. split.
      * intros H. do 3 (split; [done|]). exists items. split; [done|]. split; [lia|done].
      * by intros (_ & _ & _ & secs & [= <-] & _ & H).
  - intros r. repeat case_match; try (intros [= <-]; right; by eauto).
    apply validateSections_verdict.
Qed.

Lemma validateSections_skips i good tail :
  Forall (goodSection isBlank) good →
  validateSections isBlank i (good ++ tail)
  = validateSections isBlank (i + Z.of_nat (length good)) tail.
Proof.
  revert i. induction good as [|sec good IH]; intros i Hgood.
  - simpl. by rewrite Z.add_0_r.
  - apply Forall_cons in Hgood as [Hsec Hgood].
    replace (i + Z.of_nat (length (sec :: good))) with (i + 1 + Z.of_nat (length good))
      by (simpl; lia).
    rewrite <- IH by done.
    destruct Hsec as (Hn & Hu & (h & Hh & Hne & Hb) & Hsub).
    change ((sec :: good) ++ tail) with (sec :: (good ++ tail)).
    cbn [validateSections].
    assert (Ht : negb (truthyV (prop sec "heading")) || negb (isString (prop sec "heading"))
                 = false) by (apply text_check; by exists h).
    rewrite Ht, Hh, Hb.
    destruct (truthyV (prop sec "subheadings")) eqn:Es.
    + rewrite (Hsub eq_refl). simpl. by destruct sec.
    + simpl. by destruct sec.
Qed.

(** X25.  The validator reports the first section that is wrong, counting
    from 1, and it is not total.  For an outline with the three inference
    texts and at least three sections of which the first [k] are fine: if
    the next section is [null], [validateOutline] throws a [TypeError]
    instead of returning a verdict; if the next section is an object
    without a usable heading, the verdict is the rejection
    ['Section k+1 thiếu heading.'], whatever comes after it. *)
Theorem first_wrong_section_is_reported (outline : JSVal) (good rest : list JSVal)
    (bad : JSVal) :
  isText (prop (prop outline "inference") "targetKeyword") →
  isText (prop (prop outline "inference") "targetAudience") →
  isText (prop (prop outline "inference") "contentPurpose") →
  prop outline "outline" = JArr (good ++ bad :: rest) →
  (3 ≤ length (good ++ bad :: rest))%nat →
  Forall (goodSection isBlank) good →
  (bad = JNull →
   validateOutline isBlank outline
   = inl (Error "TypeError: Cannot read properties of null (reading 'heading')")) ∧
  (bad ≠ JNull → bad ≠ JUndefined → ¬ isText (prop bad "heading") →
   validateOutline isBlank outline
   = inr (mkValidationResult false
            (Some ("Section " +:+ pretty (Z.of_nat (length good) + 1) +:+ " thiếu heading.")))).
Proof.
  intros H1 H2 H3 Hs Hlen Hgood.
  assert (Hv : validateOutline isBlank outline
               = validateSections isBlank (Z.of_nat (length good)) (bad :: rest)).
  { unfold validateOutline.
    assert (truthyV (prop outline "inference") = true) as Hinf.
    { destruct H1 as (s & Hs1 & _). by eapply prop_defined. }
    assert (truthyV outline = true) as Ho by (by destruct outline).
    rewrite Ho, Hinf. simpl.
    apply text_check in H1, H2, H3. rewrite H1, H2, H3, Hs. simpl.
    rewrite (proj2 (Z.ltb_ge _ _)) by lia.
    rewrite validateSections_skips by done. by rewrite Z.add_0_l. }
  rewrite Hv. split.
  - intros ->. reflexivity.
  - intros Hn Hu Hh. cbn [validateSections].
    assert (negb (truthyV (prop bad "heading")) || negb (isString (prop bad "heading")) = true)
      as Ht.
    { destruct (negb (truthyV (prop bad "heading")) || negb (isString (prop bad "heading")))
        eqn:E; [done|]. by apply text_check in E. }
    rewrite Ht. by destruct bad.
Qed.

End OutlineMore.

Lemma first_wrong_section_witness :
  let fine := JObj [("heading", JStr "Intro")] in
  let outline :=
    JObj [("inference", JObj [("targetKeyword", JStr "k"); ("targetAudience", JStr "a");
                              ("contentPurpose", JStr "p")]);
          ("outline", JArr ([fine; fine] ++ JNull :: [fine]))] in
  OutlineValidation.validateOutline (λ _, false) outline
  = inl (Error "TypeError: Cannot read properties of null (reading 'heading')").
Proof.
  cbv zeta.
  refine (proj1 (first_wrong_section_is_reported (λ _, false)
                   (JObj [("inference", JObj [("targetKeyword", JStr "k");
                                              ("targetAudience", JStr "a");
                                              ("contentPurpose", JStr "p")]);
                          ("outline", JArr ([JObj [("heading", JStr "Intro")];
                                             JObj [("heading", JStr "Intro")]] ++
                                            JNull :: [JObj [("heading", JStr "Intro")]]))])
                   [JObj [("heading", JStr "Intro")]; JObj [("heading", JStr "Intro")]]
                   [JObj [("heading", JStr "Intro")]] JNull _ _ _ eq_refl _ _) eq_refl).
  - by exists "k".
  - by exists "a".
  - by exists "p".
  - simpl. lia.
  - repeat constructor; try done; by exists "Intro".
Defined.
